(** * UnBreakableSVG: the layout merger [scripts/merge-layout.js]

    A shallow embedding of the merge pipeline (source resolution, SVG root
    parsing, animation sanitizing, geometry, canvas composition) and of the
    earlier nested-svg iteration of the same script, with the properties the
    specification states about them.

    Conventions.  A JavaScript string is the list of its UTF-16 code units
    ([jsstring]).  Regular expressions are kept as syntax ([re]) and run by a
    backtracking matcher with the priorities of the ECMAScript matcher, so each
    pattern below can be compared with the literal in the source (quoted in
    the comments with a blank between a star and a closing parenthesis).
    Numbers are
    exact decimals ([num]), infinite or zero beyond the range of doubles; this
    agrees with IEEE doubles on values of at most 15 significant digits, which
    is where layouts live. *)

From Stdlib Require Import List ZArith Lia Bool String Ascii Arith.
Import ListNotations.
Local Open Scope Z_scope.

(* ================================================================== *)
(** ** Strings *)

Module Str.

Definition jsstring := list Z.

(** A literal: every character of the Rocq string is one code unit. *)
Definition js (s : string) : jsstring :=
  map (fun a => Z.of_N (N_of_ascii a)) (list_ascii_of_string s).

(** A literal in which a backquote stands for the double quote. *)
Definition jsq (s : string) : jsstring :=
  map (fun c => if c =? 96 then 34 else c) (js s).

Definition nl : jsstring := [10].

Fixpoint eqs (a b : jsstring) : bool :=
  match a, b with
  | [], [] => true
  | x :: a', y :: b' => (x =? y) && eqs a' b'
  | _, _ => false
  end.

Fixpoint startsWith (p s : jsstring) : bool :=
  match p, s with
  | [], _ => true
  | x :: p', y :: s' => (x =? y) && startsWith p' s'
  | _ :: _, [] => false
  end.

(** [s.includes(p)] *)
Fixpoint includes (p s : jsstring) : bool :=
  startsWith p s ||
  match s with
  | [] => false
  | _ :: s' => includes p s'
  end.

(** [s.slice(a, b)] for non-negative indices. *)
Definition slice (s : jsstring) (a b : nat) : jsstring :=
  firstn (b - a) (skipn a s).

(** WhiteSpace and LineTerminator code points: the set of [\s] and of [trim]. *)
Definition isSpace (c : Z) : bool :=
  ((9 <=? c) && (c <=? 13)) || (c =? 32) || (c =? 160) || (c =? 5760)
  || ((8192 <=? c) && (c <=? 8202)) || (c =? 8232) || (c =? 8233)
  || (c =? 8239) || (c =? 8287) || (c =? 12288) || (c =? 65279).

Definition isLineTerminator (c : Z) : bool :=
  (c =? 10) || (c =? 13) || (c =? 8232) || (c =? 8233).

Fixpoint trimStart (s : jsstring) : jsstring :=
  match s with
  | c :: s' => if isSpace c then trimStart s' else s
  | [] => []
  end.

Definition trimEnd (s : jsstring) : jsstring := rev (trimStart (rev s)).

Definition trim (s : jsstring) : jsstring := trimEnd (trimStart s).

(** [a.join(sep)] *)
Fixpoint join (sep : jsstring) (l : list jsstring) : jsstring :=
  match l with
  | [] => []
  | [x] => x
  | x :: l' => x ++ sep ++ join sep l'
  end.

(** [s.replace(p, '')] with a string pattern: the first occurrence goes. *)
Fixpoint removeFirst (p s : jsstring) : jsstring :=
  if startsWith p s then skipn (List.length p) s
  else match s with
       | [] => []
       | c :: s' => c :: removeFirst p s'
       end.

End Str.
Import Str.

(* ================================================================== *)
(** ** Regular expressions *)

Module Regex.

(** Sets of code units, as a character class lists them. *)
Inductive cset :=
| SChr (c : Z)
| SRange (lo hi : Z)
| SOneOf (s : string)
| SSpace
| SLineTerm
| SUnion (a b : cset).

(** A class atom: [Among s] is [[...]], [Except s] is [[^...]], [Any] is [[\s\S]]. *)
Inductive cls :=
| Among (s : cset)
| Except (s : cset)
| Any.

(** The quantified atoms of the source are all single characters or classes,
    so [Star] and [Plus] range over a class; [Opt] takes any pattern. *)
Inductive re :=
| Lit (s : string)
| Chars (c : cls)
| Seq (a b : re)
| Alt (a b : re)
| Star (c : cls)
| StarLazy (c : cls)
| Plus (c : cls)
| Opt (r : re)
| Grp (n : nat) (r : re)
| Back (n : nat)
| Bol
| Eol
| WordB.

Record flags := { ignoreCase : bool; multiline : bool }.

Definition fl_none := {| ignoreCase := false; multiline := false |}.
Definition fl_i := {| ignoreCase := true; multiline := false |}.
Definition fl_im := {| ignoreCase := true; multiline := true |}.

(** [.] : anything but a line terminator *)
Definition dot : cls := Except SLineTerm.
Definition space : cls := Among SSpace.

Definition upper (c : Z) : Z := if (97 <=? c) && (c <=? 122) then c - 32 else c.
Definition lower (c : Z) : Z := if (65 <=? c) && (c <=? 90) then c + 32 else c.

Fixpoint inSet (s : cset) (c : Z) : bool :=
  match s with
  | SChr d => c =? d
  | SRange lo hi => (lo <=? c) && (c <=? hi)
  | SOneOf l => existsb (Z.eqb c) (js l)
  | SSpace => isSpace c
  | SLineTerm => isLineTerminator c
  | SUnion a b => inSet a c || inSet b c
  end.

(** Membership after Canonicalize: with [ignoreCase] a code unit is in the set
    when one of its ASCII case variants is (the characters the patterns name
    are ASCII, and a non-ASCII code unit never canonicalizes to an ASCII one). *)
Definition inSetF (f : flags) (s : cset) (c : Z) : bool :=
  if ignoreCase f then inSet s c || inSet s (upper c) || inSet s (lower c)
  else inSet s c.

Definition inCls (f : flags) (k : cls) (c : Z) : bool :=
  match k with
  | Among s => inSetF f s c
  | Except s => negb (inSetF f s c)
  | Any => true
  end.

Definition eqChar (f : flags) (a b : Z) : bool :=
  if ignoreCase f then upper a =? upper b else a =? b.

Definition isWordChar (c : Z) : bool :=
  ((97 <=? c) && (c <=? 122)) || ((65 <=? c) && (c <=? 90))
  || ((48 <=? c) && (c <=? 57)) || (c =? 95).

(** The matcher state: the index, the code unit before it, the text from it
    on, and the captures so far. *)
Record mstate := {
  pos : nat;
  prev : option Z;
  rest : list Z;
  caps : list (nat * jsstring)
}.

Definition start (s : jsstring) : mstate :=
  {| pos := 0; prev := None; rest := s; caps := [] |}.

Definition step (st : mstate) : option (Z * mstate) :=
  match rest st with
  | [] => None
  | c :: r => Some (c, {| pos := S (pos st); prev := Some c; rest := r; caps := caps st |})
  end.

Fixpoint getCap (n : nat) (l : list (nat * jsstring)) : option jsstring :=
  match l with
  | [] => None
  | (m, v) :: l' => if Nat.eqb n m then Some v else getCap n l'
  end.

Definition setCap (n : nat) (v : jsstring) (st : mstate) : mstate :=
  {| pos := pos st; prev := prev st; rest := rest st; caps := (n, v) :: caps st |}.

Definition cont := mstate -> option mstate.

(** A fixed sequence of code units. *)
Fixpoint mLit (f : flags) (l : jsstring) (st : mstate) (k : cont) : option mstate :=
  match l with
  | [] => k st
  | c :: l' =>
      match step st with
      | Some (d, st') => if eqChar f c d then mLit f l' st' k else None
      | None => None
      end
  end.

(** [c*], greedy: the longest run first, then shorter ones. *)
Fixpoint mStar (p : Z -> bool) (n : nat) (pv : option Z) (r : list Z)
    (cs : list (nat * jsstring)) (k : cont) : option mstate :=
  let here := {| pos := n; prev := pv; rest := r; caps := cs |} in
  match r with
  | c :: r' =>
      if p c then
        match mStar p (S n) (Some c) r' cs k with
        | Some e => Some e
        | None => k here
        end
      else k here
  | [] => k here
  end.

(** [c*?], lazy: the shortest run first. *)
Fixpoint mStarLazy (p : Z -> bool) (n : nat) (pv : option Z) (r : list Z)
    (cs : list (nat * jsstring)) (k : cont) : option mstate :=
  let here := {| pos := n; prev := pv; rest := r; caps := cs |} in
  match k here with
  | Some e => Some e
  | None =>
      match r with
      | c :: r' => if p c then mStarLazy p (S n) (Some c) r' cs k else None
      | [] => None
      end
  end.

Definition atBol (f : flags) (st : mstate) : bool :=
  match prev st with
  | None => true
  | Some c => multiline f && isLineTerminator c
  end.

Definition atEol (f : flags) (st : mstate) : bool :=
  match rest st with
  | [] => true
  | c :: _ => multiline f && isLineTerminator c
  end.

Definition atWordB (st : mstate) : bool :=
  let a := match prev st with Some c => isWordChar c | None => false end in
  let b := match rest st with c :: _ => isWordChar c | [] => false end in
  xorb a b.

(** [m f r st k]: match [r] at [st] and go on with [k]; alternatives are tried
    in the order of the ECMAScript matcher. *)
Fixpoint m (f : flags) (r : re) (st : mstate) (k : cont) : option mstate :=
  match r with
  | Lit l => mLit f (js l) st k
  | Chars c =>
      match step st with
      | Some (d, st') => if inCls f c d then k st' else None
      | None => None
      end
  | Seq a b => m f a st (fun st' => m f b st' k)
  | Alt a b =>
      match m f a st k with
      | Some e => Some e
      | None => m f b st k
      end
  | Star c => mStar (inCls f c) (pos st) (prev st) (rest st) (caps st) k
  | StarLazy c => mStarLazy (inCls f c) (pos st) (prev st) (rest st) (caps st) k
  | Plus c =>
      match step st with
      | Some (d, st') =>
          if inCls f c d
          then mStar (inCls f c) (pos st') (prev st') (rest st') (caps st') k
          else None
      | None => None
      end
  | Opt a =>
      match m f a st (fun st' => if Nat.eqb (pos st') (pos st) then None else k st') with
      | Some e => Some e
      | None => k st
      end
  | Grp n a =>
      m f a st (fun st' => k (setCap n (firstn (pos st' - pos st) (rest st)) st'))
  | Back n =>
      match getCap n (caps st) with
      | Some v => mLit f v st k
      | None => k st
      end
  | Bol => if atBol f st then k st else None
  | Eol => if atEol f st then k st else None
  | WordB => if atWordB st then k st else None
  end.

(** One attempt at a position. *)
Definition matchAt (f : flags) (r : re) (st : mstate) : option mstate :=
  m f r st (fun e => Some e).

(** A successful match: where it starts, where it ends, what it captured. *)
Record found := { index : nat; stop : nat; groups : list (nat * jsstring) }.

Definition group (n : nat) (x : found) : jsstring :=
  match getCap n (groups x) with Some v => v | None => [] end.

Fixpoint searchFrom (f : flags) (r : re) (n : nat) (pv : option Z) (s : list Z)
  : option found :=
  match matchAt f r {| pos := n; prev := pv; rest := s; caps := [] |} with
  | Some e => Some {| index := n; stop := pos e; groups := caps e |}
  | None =>
      match s with
      | [] => None
      | c :: s' => searchFrom f r (S n) (Some c) s'
      end
  end.

(** [s.match(r)] / [r.exec(s)] without the [g] flag: the leftmost match. *)
Definition search (f : flags) (r : re) (s : jsstring) : option found :=
  searchFrom f r 0 None s.

Definition test (f : flags) (r : re) (s : jsstring) : bool :=
  match search f r s with Some _ => true | None => false end.

(** [s.replace(r, '')] with the [g] flag.  [skip] counts the code units of the
    current match still to drop; an empty match removes nothing and the scan
    moves on by one. *)
Fixpoint removeAllFrom (f : flags) (r : re) (n : nat) (pv : option Z) (s : list Z)
    (skip : nat) : jsstring :=
  match s with
  | [] => []
  | c :: s' =>
      match skip with
      | S j => removeAllFrom f r (S n) (Some c) s' j
      | O =>
          match matchAt f r {| pos := n; prev := pv; rest := s; caps := [] |} with
          | Some e =>
              match pos e - n with
              | O => c :: removeAllFrom f r (S n) (Some c) s' 0
              | S j => removeAllFrom f r (S n) (Some c) s' j
              end
          | None => c :: removeAllFrom f r (S n) (Some c) s' 0
          end
      end
  end%nat.

Definition removeAll (f : flags) (r : re) (s : jsstring) : jsstring :=
  removeAllFrom f r 0 None s 0.

(** [s.replace(r, '')] without the [g] flag: the leftmost match goes. *)
Definition removeFirstMatch (f : flags) (r : re) (s : jsstring) : jsstring :=
  match search f r s with
  | Some x => firstn (index x) s ++ skipn (stop x) s
  | None => s
  end.

(** All matches of a [g] pattern, as a [while ((m = r.exec(s)))] loop sees them. *)
Fixpoint matchAllFrom (f : flags) (r : re) (n : nat) (pv : option Z) (s : list Z)
    (skip : nat) : list found :=
  match s with
  | [] => []
  | c :: s' =>
      match skip with
      | S j => matchAllFrom f r (S n) (Some c) s' j
      | O =>
          match matchAt f r {| pos := n; prev := pv; rest := s; caps := [] |} with
          | Some e =>
              {| index := n; stop := pos e; groups := caps e |}
                :: matchAllFrom f r (S n) (Some c) s' (pos e - n - 1)
          | None => matchAllFrom f r (S n) (Some c) s' 0
          end
      end
  end%nat.

Definition matchAll (f : flags) (r : re) (s : jsstring) : list found :=
  matchAllFrom f r 0 None s 0.

(** [s.split(r)] for a separator pattern without groups that matches no
    empty text. *)
Fixpoint splitFrom (f : flags) (r : re) (n : nat) (pv : option Z) (s : list Z)
    (skip : nat) (cur : list Z) : list jsstring :=
  match s with
  | [] => [rev cur]
  | c :: s' =>
      match skip with
      | S j => splitFrom f r (S n) (Some c) s' j cur
      | O =>
          match matchAt f r {| pos := n; prev := pv; rest := s; caps := [] |} with
          | Some e =>
              match pos e - n with
              | O => splitFrom f r (S n) (Some c) s' 0 (c :: cur)
              | S j => rev cur :: splitFrom f r (S n) (Some c) s' j []
              end
          | None => splitFrom f r (S n) (Some c) s' 0 (c :: cur)
          end
      end
  end%nat.

Definition split (f : flags) (r : re) (s : jsstring) : list jsstring :=
  splitFrom f r 0 None s 0 [].

End Regex.
Import Regex.

(* ================================================================== *)
(** ** The animation sanitizer *)

Infix ";;" := Seq (at level 61, right associativity).

Definition ws := Star space.

(** [/\*\s*\{[^}]*\b(animation-duration\s*:\s*0s[^;]*;|animation-delay\s*:\s*0s[^;]*;)[^}]*\}/gim] *)
Definition universalAnimBlock : re :=
  Lit "*" ;; ws ;; Lit "{" ;; Star (Except (SChr 125)) ;; WordB ;;
  Grp 1 (Alt (Lit "animation-duration" ;; ws ;; Lit ":" ;; ws ;; Lit "0s" ;;
                Star (Except (SChr 59)) ;; Lit ";")
             (Lit "animation-delay" ;; ws ;; Lit ":" ;; ws ;; Lit "0s" ;;
                Star (Except (SChr 59)) ;; Lit ";")) ;;
  Star (Except (SChr 125)) ;; Lit "}".

(** [/animation-duration\s*:\s*0s[^;]*;?/gim] *)
Definition durationZero : re :=
  Lit "animation-duration" ;; ws ;; Lit ":" ;; ws ;; Lit "0s" ;;
  Star (Except (SChr 59)) ;; Opt (Lit ";").

(** [/animation-delay\s*:\s*0s[^;]*;?/gim] *)
Definition delayZero : re :=
  Lit "animation-delay" ;; ws ;; Lit ":" ;; ws ;; Lit "0s" ;;
  Star (Except (SChr 59)) ;; Opt (Lit ";").

(** [/animation\s*:\s*([^;}]* )\b0s\b([^;}]* )[;]?/gim] *)
Definition shorthandZero : re :=
  Lit "animation" ;; ws ;; Lit ":" ;; ws ;;
  Grp 1 (Star (Except (SOneOf ";}"))) ;; WordB ;; Lit "0s" ;; WordB ;;
  Grp 2 (Star (Except (SOneOf ";}"))) ;; Opt (Chars (Among (SChr 59))).

Definition sanitizeAnimationOverrides (svg : jsstring) : jsstring :=
  match svg with
  | [] => svg
  | _ =>
      let out := svg in
      let out := removeAll fl_im universalAnimBlock out in
      let out := removeAll fl_im durationZero out in
      let out := removeAll fl_im delayZero out in
      let out := removeAll fl_im shorthandZero out in
      out
  end.

(* ================================================================== *)
(** ** Numbers *)

Module Num.

(** [Dec m e] is the number [m * 10^e]. *)
Inductive num :=
| NaN
| Inf (neg : bool)
| Dec (m : Z) (e : Z).

Definition ofZ (z : Z) : num := Dec z 0.

(** ToBoolean on a number: zero and NaN are falsy. *)
Definition truthy (x : num) : bool :=
  match x with
  | NaN => false
  | Inf _ => true
  | Dec m _ => negb (m =? 0)
  end.

Definition isNaN (x : num) : bool :=
  match x with NaN => true | _ => false end.

Definition isFinite (x : num) : bool :=
  match x with Dec _ _ => true | _ => false end.

(** [Math.round]: the nearest integer, halves going up. *)
Definition round (x : num) : num :=
  match x with
  | Dec m e =>
      if 0 <=? e then Dec (m * 10 ^ e) 0
      else Dec ((2 * m + 10 ^ (- e)) / (2 * 10 ^ (- e))) 0
  | _ => x
  end.

(** Decimal digits of a non-negative integer, most significant first. *)
Fixpoint digitsFuel (fuel : nat) (n : Z) (acc : list Z) : list Z :=
  match fuel with
  | O => acc
  | S fuel' =>
      if n <? 10 then n :: acc
      else digitsFuel fuel' (n / 10) (n mod 10 :: acc)
  end.

Definition digits (n : Z) : list Z :=
  digitsFuel (S (Z.to_nat (Z.log2 n))) n [].

Definition digitChars (l : list Z) : jsstring := map (fun d => d + 48) l.

(** Drop the trailing zeros of the digit string, raising the exponent. *)
Fixpoint normalize (fuel : nat) (m e : Z) : Z * Z :=
  match fuel with
  | O => (m, e)
  | S fuel' => if m mod 10 =? 0 then normalize fuel' (m / 10) (e + 1) else (m, e)
  end.

Definition zeros (n : Z) : jsstring := repeat 48 (Z.to_nat n).

(** Number::toString of a positive finite number with digit string [s]
    ([k] digits) and decimal point after [n] digits. *)
Definition positiveToString (m e : Z) : jsstring :=
  let '(s, e') := normalize (S (Z.to_nat (Z.log2 m))) m e in
  let ds := digitChars (digits s) in
  let k := Z.of_nat (List.length ds) in
  let n := k + e' in
  if (k <=? n) && (n <=? 21) then ds ++ zeros (n - k)
  else if (0 <? n) && (n <=? 21) then
    firstn (Z.to_nat n) ds ++ [46] ++ skipn (Z.to_nat n) ds
  else if (-6 <? n) && (n <=? 0) then [48; 46] ++ zeros (- n) ++ ds
  else
    let ex := (if n - 1 <? 0 then [45] else [43]) ++ digitChars (digits (Z.abs (n - 1))) in
    match ds with
    | [d] => [d; 101] ++ ex
    | d :: ds' => d :: 46 :: ds' ++ [101] ++ ex
    | [] => []
    end.

(** ToString on a number, as a template literal applies it. *)
Definition toString (x : num) : jsstring :=
  match x with
  | NaN => js "NaN"
  | Inf false => js "Infinity"
  | Inf true => js "-Infinity"
  | Dec m e =>
      if m =? 0 then js "0"
      else if m <? 0 then 45 :: positiveToString (- m) e
      else positiveToString m e
  end.

Definition isDigit (c : Z) : bool := (48 <=? c) && (c <=? 57).

Fixpoint spanDigits (s : jsstring) : jsstring * jsstring :=
  match s with
  | c :: s' =>
      if isDigit c then let '(a, b) := spanDigits s' in (c :: a, b) else ([], s)
  | [] => ([], [])
  end.

Definition valueOf (radix : Z) (ds : list Z) : Z :=
  fold_left (fun acc d => acc * radix + d) ds 0.

Definition decValue (ds : jsstring) : Z := valueOf 10 (map (fun c => c - 48) ds).

(** The value of a digit in a radix up to 16, if it is one. *)
Definition digitValue (radix c : Z) : option Z :=
  let v := if isDigit c then c - 48
           else if (97 <=? c) && (c <=? 102) then c - 87
           else if (65 <=? c) && (c <=? 70) then c - 55
           else 99 in
  if v <? radix then Some v else None.

Fixpoint spanRadix (radix : Z) (s : jsstring) : list Z * jsstring :=
  match s with
  | c :: s' =>
      match digitValue radix c with
      | Some v => let '(a, b) := spanRadix radix s' in (v :: a, b)
      | None => ([], s)
      end
  | [] => ([], [])
  end.

Definition takeSign (s : jsstring) : bool * jsstring :=
  match s with
  | 45 :: s' => (true, s')
  | 43 :: s' => (false, s')
  | _ => (false, s)
  end.

(** The exponent part of a decimal literal: [Some (e, rest)]; a missing
    exponent is [0]; an [e] without digits is an error. *)
Definition takeExponent (s : jsstring) : option (Z * jsstring) :=
  match s with
  | c :: s' =>
      if (c =? 101) || (c =? 69) then
        let '(neg, s'') := takeSign s' in
        let '(ds, r) := spanDigits s'' in
        match ds with
        | [] => None
        | _ => Some (if neg then - decValue ds else decValue ds, r)
        end
      else Some (0, s)
  | [] => Some (0, [])
  end.

(** Beyond the range of doubles a decimal reads as an infinity, below it as
    zero: the bounds are half-way to [2^1024] from the largest double and half
    of the smallest one. *)
Definition clamp (m e : Z) : num :=
  let a := Z.abs m in
  let top := 2 ^ 1024 - 2 ^ 970 in
  if m =? 0 then Dec 0 0
  else if 0 <=? e then
    (if top <=? a * 10 ^ e then Inf (m <? 0) else Dec m e)
  else if top * 10 ^ (- e) <=? a then Inf (m <? 0)
  else if a * 2 ^ 1075 <=? 10 ^ (- e) then Dec 0 0
  else Dec m e.

Definition radixLiteral (radix : Z) (s : jsstring) : num :=
  match spanRadix radix s with
  | (v :: vs, []) => clamp (valueOf radix (v :: vs)) 0
  | _ => NaN
  end.

(** StringToNumber, which [Number(s)] applies to a string.  The result is
    the decimal the literal denotes, with all its digits: [Number] rounds it
    to the nearest double, so the two agree, up to [toString], on literals of
    at most 15 significant digits in the range of normal doubles, and differ
    on longer ones and on subnormal values. *)
Definition ofString (s : jsstring) : num :=
  let t := trim s in
  match t with
  | [] => Dec 0 0
  | 48 :: 120 :: r | 48 :: 88 :: r => radixLiteral 16 r
  | 48 :: 111 :: r | 48 :: 79 :: r => radixLiteral 8 r
  | 48 :: 98 :: r | 48 :: 66 :: r => radixLiteral 2 r
  | _ =>
      let '(neg, u) := takeSign t in
      if eqs u (js "Infinity") then Inf neg
      else
        let '(ip, r1) := spanDigits u in
        let '(fp, r2) :=
          match r1 with
          | 46 :: r => spanDigits r
          | _ => ([], r1)
          end in
        match ip, fp, r1 with
        | [], [], _ => NaN
        | _, _, _ =>
            match takeExponent r2 with
            | Some (ex, []) =>
                let mant := decValue (ip ++ fp) in
                clamp (if neg then - mant else mant) (ex - Z.of_nat (List.length fp))
            | _ => NaN
            end
        end
  end.

(** [parseInt(s, 16)] *)
Definition parseInt16 (s : jsstring) : num :=
  let '(neg, u) := takeSign (trimStart s) in
  let u := match u with
           | 48 :: 120 :: r | 48 :: 88 :: r => r
           | _ => u
           end in
  match spanRadix 16 u with
  | ([], _) => NaN
  | (vs, _) => Dec (if neg then - valueOf 16 vs else valueOf 16 vs) 0
  end.

End Num.
Import Num.

(* ================================================================== *)
(** ** Node's Buffer: base64 and UTF-8 *)

Module Buffer.

(** The value of a base64 character; both alphabets are accepted
    ([+] and [-] are 62, [/] and [_] are 63), as Node's decoder does. *)
Definition unbase64 (c : Z) : option Z :=
  if (65 <=? c) && (c <=? 90) then Some (c - 65)
  else if (97 <=? c) && (c <=? 122) then Some (c - 71)
  else if (48 <=? c) && (c <=? 57) then Some (c + 4)
  else if (c =? 43) || (c =? 45) then Some 62
  else if (c =? 47) || (c =? 95) then Some 63
  else None.

(** The characters the decoder uses: it reads the low byte of each code unit,
    skips what is not in the alphabet and stops at the first [=]. *)
Fixpoint sextets (s : jsstring) : list Z :=
  match s with
  | [] => []
  | c :: s' =>
      let b := c mod 256 in
      match unbase64 b with
      | Some v => v :: sextets s'
      | None => if b =? 61 then [] else sextets s'
      end
  end.

(** Four sextets give three bytes; a rest of three gives two, of two one. *)
Fixpoint bytesOf (l : list Z) : list Z :=
  match l with
  | a :: b :: c :: d :: l' =>
      (a * 4 + b / 16) :: ((b mod 16) * 16 + c / 4) :: ((c mod 4) * 64 + d) :: bytesOf l'
  | [a; b; c] => [a * 4 + b / 16; (b mod 16) * 16 + c / 4]
  | [a; b] => [a * 4 + b / 16]
  | _ => []
  end.

(** [Buffer.from(s, 'base64')] *)
Definition fromBase64 (s : jsstring) : list Z := bytesOf (sextets s).

Definition isCont (b : Z) : bool := (128 <=? b) && (b <=? 191).

(** A code point as UTF-16 code units. *)
Definition utf16 (cp : Z) : list Z :=
  if cp <? 65536 then [cp]
  else [55296 + (cp - 65536) / 1024; 56320 + (cp - 65536) mod 1024].

Definition replacement : Z := 65533.

(** [buf.toString('utf8')]: every maximal ill-formed part becomes U+FFFD and
    decoding resumes at the byte that broke the sequence. *)
Fixpoint toStringUtf8 (l : list Z) : jsstring :=
  match l with
  | [] => []
  | b0 :: t0 =>
      if b0 <? 128 then b0 :: toStringUtf8 t0
      else if (194 <=? b0) && (b0 <=? 223) then
        match t0 with
        | b1 :: t1 =>
            if isCont b1 then ((b0 - 192) * 64 + (b1 - 128)) :: toStringUtf8 t1
            else replacement :: toStringUtf8 t0
        | [] => [replacement]
        end
      else if (224 <=? b0) && (b0 <=? 239) then
        match t0 with
        | b1 :: t1 =>
            if ((if b0 =? 224 then 160 else 128) <=? b1)
               && (b1 <=? (if b0 =? 237 then 159 else 191)) then
              match t1 with
              | b2 :: t2 =>
                  if isCont b2 then
                    ((b0 - 224) * 4096 + (b1 - 128) * 64 + (b2 - 128)) :: toStringUtf8 t2
                  else replacement :: toStringUtf8 t1
              | [] => [replacement]
              end
            else replacement :: toStringUtf8 t0
        | [] => [replacement]
        end
      else if (240 <=? b0) && (b0 <=? 244) then
        match t0 with
        | b1 :: t1 =>
            if ((if b0 =? 240 then 144 else 128) <=? b1)
               && (b1 <=? (if b0 =? 244 then 143 else 191)) then
              match t1 with
              | b2 :: t2 =>
                  if isCont b2 then
                    match t2 with
                    | b3 :: t3 =>
                        if isCont b3 then
                          utf16 ((b0 - 240) * 262144 + (b1 - 128) * 4096
                                 + (b2 - 128) * 64 + (b3 - 128)) ++ toStringUtf8 t3
                        else replacement :: toStringUtf8 t2
                    | [] => [replacement]
                    end
                  else replacement :: toStringUtf8 t1
              | [] => [replacement]
              end
            else replacement :: toStringUtf8 t0
        | [] => [replacement]
        end
      else replacement :: toStringUtf8 t0
  end.

End Buffer.

(* ================================================================== *)
(** ** Decoding and parsing *)

Definition svgMarker : jsstring := js "<svg".

(** [s.replace(/-/g, '+').replace(/_/g, '/')] *)
Definition urlSafe (s : jsstring) : jsstring :=
  map (fun c => if c =? 95 then 47 else c) (map (fun c => if c =? 45 then 43 else c) s).

Definition tryBase64Decode (s : jsstring) : jsstring :=
  match s with
  | [] => []
  | _ =>
      let buf := Buffer.fromBase64 s in
      let decoded := Buffer.toStringUtf8 buf in
      if includes svgMarker decoded then decoded
      else
        let safe := urlSafe s in
        let buf2 := Buffer.fromBase64 safe in
        let d2 := Buffer.toStringUtf8 buf2 in
        if includes svgMarker d2 then d2 else s
  end.

(** [/^\s*<\?xml[\s\S]*?\?>\s*/i] *)
Definition xmlProlog : re :=
  Bol ;; ws ;; Lit "<?xml" ;; StarLazy Any ;; Lit "?>" ;; ws.

Definition stripXmlProlog (s : jsstring) : jsstring :=
  trim (removeFirstMatch fl_i xmlProlog s).

(** A JavaScript object with string values, as the list of its own
    properties; assigning to a key that is there overwrites it in place. *)
Definition object := list (jsstring * jsstring).

Fixpoint setProp (k v : jsstring) (o : object) : object :=
  match o with
  | [] => [(k, v)]
  | (k', v') :: o' => if eqs k k' then (k, v) :: o' else (k', v') :: setProp k v o'
  end.

Fixpoint getProp (k : jsstring) (o : object) : option jsstring :=
  match o with
  | [] => None
  | (k', v) :: o' => if eqs k k' then Some v else getProp k o'
  end.

(** ['] or the double quote *)
Definition quote : cls := Among (SUnion (SChr 39) (SChr 34)).

(** [/<svg([^>]* )>/i] *)
Definition openTag : re := Lit "<svg" ;; Grp 1 (Star (Except (SChr 62))) ;; Lit ">".

(** [/<\/svg>\s*$/i] *)
Definition closeTag : re := Lit "</svg>" ;; ws ;; Eol.

(** [/(\b[a-zA-Z_:][-a-zA-Z0-9_:.]* )\s*=\s*(['q])(.*?)\2/g], with [q] for the
    double quote *)
Definition attrRegex : re :=
  Grp 1 (WordB ;;
         Chars (Among (SUnion (SRange 97 122) (SUnion (SRange 65 90) (SOneOf "_:")))) ;;
         Star (Among (SUnion (SRange 97 122) (SUnion (SRange 65 90)
                  (SUnion (SRange 48 57) (SOneOf "-_:.")))))) ;;
  ws ;; Lit "=" ;; ws ;; Grp 2 (Chars quote) ;; Grp 3 (StarLazy dot) ;; Back 2.

Record svgParts := { inner : jsstring; attrs : object }.

(** [extractSvgParts]; [None] is the thrown
    [Error('No <svg> root element found')]. *)
Definition extractSvgParts (svgText : jsstring) : option svgParts :=
  let cleaned := stripXmlProlog svgText in
  match search fl_i openTag cleaned with
  | None => None
  | Some openMatch =>
      let openTagAttrs := group 1 openMatch in
      let innerStart := stop openMatch in
      let innerEnd :=
        match search fl_i closeTag cleaned with
        | Some closeMatch => index closeMatch
        | None => List.length cleaned
        end in
      let inner := slice cleaned innerStart innerEnd in
      let attrs :=
        fold_left (fun o x => setProp (group 1 x) (group 3 x) o)
                  (matchAll fl_none attrRegex openTagAttrs) [] in
      Some {| inner := inner; attrs := attrs |}
  end.

(* ================================================================== *)
(** ** Geometry *)

(** [/[a-zA-Z%]+$/] *)
Definition trailingUnit : re :=
  Plus (Among (SUnion (SRange 97 122) (SUnion (SRange 65 90) (SChr 37)))) ;; Eol.

(** [parseNumeric]; [val] is a property of [attrs], [None] when undefined. *)
Definition parseNumeric (val : option jsstring) : option num :=
  match val with
  | None => None
  | Some v =>
      let n := ofString (removeFirstMatch fl_none trailingUnit v) in
      if isFinite n then Some n else None
  end.

(** ToBoolean on a string that may be undefined. *)
Definition truthyS (o : option jsstring) : bool :=
  match o with
  | Some (_ :: _) => true
  | _ => false
  end.

(** ToBoolean on a number that may be null. *)
Definition truthyN (o : option num) : bool :=
  match o with
  | Some n => truthy n
  | None => false
  end.

Definition viewBoxOf (w h : num) : jsstring :=
  js "0 0 " ++ toString w ++ js " " ++ toString h.

Definition valN (o : option num) : num :=
  match o with Some n => n | None => NaN end.

Definition getViewBoxString (attrs : object) (fallbackW fallbackH : num) : jsstring :=
  if truthyS (getProp (js "viewBox") attrs) then
    trim (match getProp (js "viewBox") attrs with Some v => v | None => [] end)
  else
    let w := parseNumeric (getProp (js "width") attrs) in
    let h := parseNumeric (getProp (js "height") attrs) in
    if truthyN w && truthyN h then viewBoxOf (valN w) (valN h)
    else if truthy fallbackW && truthy fallbackH then viewBoxOf fallbackW fallbackH
    else js "0 0 100 100".

(** [/viewBox\s*=\s*(['q])(.*?)\1/i] *)
Definition viewBoxAttr : re :=
  Lit "viewBox" ;; ws ;; Lit "=" ;; ws ;; Grp 1 (Chars quote) ;;
  Grp 2 (StarLazy dot) ;; Back 1.

(** [/<svg[^>]*\bNAME\s*=\s*(['q])?([0-9.]+)([a-z%]* )\1?/i] for [NAME] one of
    [width] and [height] *)
Definition sizeAttr (name : string) : re :=
  Lit "<svg" ;; Star (Except (SChr 62)) ;; WordB ;; Lit name ;; ws ;; Lit "=" ;; ws ;;
  Opt (Grp 1 (Chars quote)) ;;
  Grp 2 (Plus (Among (SUnion (SRange 48 57) (SChr 46)))) ;;
  Grp 3 (Star (Among (SUnion (SRange 97 122) (SChr 37)))) ;;
  Opt (Back 1).

(** [/[\s,]+/] *)
Definition listSeparator : re := Plus (Among (SUnion SSpace (SChr 44))).

Record innerAttributes := {
  width : option num;
  height : option num;
  viewBox : option (list num)
}.

Definition extractInnerSvgAttributes (svgText : jsstring) : innerAttributes :=
  let byAttributes :=
    {| width := option_map (fun x => ofString (group 2 x))
                           (search fl_i (sizeAttr "width") svgText);
       height := option_map (fun x => ofString (group 2 x))
                            (search fl_i (sizeAttr "height") svgText);
       viewBox := None |} in
  match search fl_i viewBoxAttr svgText with
  | Some vbMatch =>
      let parts := map ofString (split fl_none listSeparator (trim (group 2 vbMatch))) in
      match parts with
      | [_; _; w; h] =>
          if forallb (fun n => negb (isNaN n)) parts
          then {| width := Some w; height := Some h; viewBox := Some parts |}
          else byAttributes
      | _ => byAttributes
      end
  | None => byAttributes
  end.

Definition hexToRgb (hex : jsstring) : option (num * num * num) :=
  match hex with
  | [] => None
  | _ =>
      let h := trim (removeFirst (js "#") hex) in
      let h := if Nat.eqb (List.length h) 3
               then flat_map (fun c => [c; c]) h else h in
      if negb (Nat.eqb (List.length h) 6) then None
      else Some (parseInt16 (slice h 0 2), parseInt16 (slice h 2 4), parseInt16 (slice h 4 6))
  end.

(* ================================================================== *)
(** ** The layout *)

Record Position := { pos_x : option num; pos_y : option num }.

Record Dimensions := { dim_width : option num; dim_height : option num }.

(** An element descriptor; a field that is absent, or null, is [None]. *)
Record Element := {
  name : option jsstring;
  id : option jsstring;
  remoteURL : option jsstring;
  remoteUrl : option jsstring;
  file : option jsstring;
  localPath : option jsstring;
  content : option jsstring;
  position : option Position;
  dimensions : option Dimensions
}.

Record Canvas := {
  canvas_width : option num;
  canvas_height : option num;
  backgroundColor : option jsstring;
  transparency : option num
}.

(** [elements] is [None] when the property is not an array. *)
Record Layout := {
  canvas : option Canvas;
  elements : option (list Element)
}.

(** [a || b] on strings that may be undefined. *)
Definition orS (a b : option jsstring) : option jsstring :=
  if truthyS a then a else b.

(** [a || d] on a number that may be undefined or null, [d] a number. *)
Definition orN (a : option num) (d : num) : num :=
  match a with
  | Some n => if truthy n then n else d
  | None => d
  end.

(* ================================================================== *)
(** ** The host: network, file system, digest, URI decoding, paths *)

Record Host := {
  (** [fetch] with an abort after [ms]; [None] when the promise rejects
      (network error, abort) or the status is not 2xx *)
  fetchText : jsstring -> Z -> option jsstring;
  (** [fs.readFile(p, 'utf8')]; [None] when it rejects *)
  readFile : jsstring -> option jsstring;
  (** the hex SHA-1 digest *)
  sha1Hex : jsstring -> jsstring;
  (** [decodeURIComponent]; [None] when it throws URIError *)
  decodeURIComponent : jsstring -> option jsstring;
  (** [path.resolve] and [path.dirname] *)
  resolve : list jsstring -> jsstring;
  dirname : jsstring -> jsstring;
  (** [process.cwd()] *)
  cwd : jsstring;
  (** [fs.mkdir(p, {recursive: true})] and [fs.writeFile]: do they succeed *)
  mkdir : jsstring -> bool;
  writeFile : jsstring -> jsstring -> bool;
  (** [readLayout]: the parsed layout file, [None] when reading or
      [JSON.parse] throws *)
  readLayout : jsstring -> option Layout
}.

(* ================================================================== *)
(** ** Source resolution *)

(** [/^data:([^,]*?),(.* )$/i] *)
Definition dataUri : re :=
  Bol ;; Lit "data:" ;; Grp 1 (StarLazy (Except (SChr 44))) ;; Lit "," ;;
  Grp 2 (Star dot) ;; Eol.

(** [/;base64/i], [/^data:/i], [/^https?:\/\//i] *)
Definition base64Tag : re := Lit ";base64".
Definition dataScheme : re := Bol ;; Lit "data:".
Definition httpScheme : re := Bol ;; Lit "http" ;; Opt (Lit "s") ;; Lit "://".

Section Resolution.

Variable host : Host.

(** [None] is [null]. *)
Definition decodeDataUri (uri : jsstring) : option jsstring :=
  match search fl_i dataUri uri with
  | None => None
  | Some x =>
      let meta := group 1 x in
      let data := group 2 x in
      let isBase64 := test fl_i base64Tag meta in
      if isBase64 then Some (Buffer.toStringUtf8 (Buffer.fromBase64 data))
      else decodeURIComponent host data
  end.

Definition fetchTextWithTimeout (url : jsstring) (ms : Z) : option jsstring :=
  fetchText host url ms.

Definition tryReadFileMaybe (p : jsstring) : option jsstring := readFile host p.

(** [txt && txt.includes('<svg')] *)
Definition hasMarker (txt : option jsstring) : bool :=
  match txt with
  | Some t => includes svgMarker t
  | None => false
  end.

Definition resolveSvgSource (el : Element) (repoRoot : jsstring) : jsstring :=
  let remote := orS (remoteURL el) (remoteUrl el) in
  let fromRemote : option jsstring :=
    if truthyS remote && truthyS (option_map trim remote) then
      let r := match remote with Some r => r | None => [] end in
      if test fl_i dataScheme r then
        let txt := decodeDataUri r in
        if hasMarker txt then txt else None
      else if test fl_i httpScheme r then
        let txt := fetchTextWithTimeout r 12000 in
        if hasMarker txt then txt else None
      else None
    else None in
  match fromRemote with
  | Some txt => txt
  | None =>
      let localPath' := if truthyS (orS (file el) (localPath el))
                        then orS (file el) (localPath el) else None in
      let fromLocal : option jsstring :=
        match localPath' with
        | Some lp =>
            let abs := resolve host [repoRoot; lp] in
            let txt := tryReadFileMaybe abs in
            if hasMarker txt then txt else None
        | None => None
        end in
      match fromLocal with
      | Some txt => txt
      | None =>
          let fromStash : option jsstring :=
            if truthyS remote then
              let r := match remote with Some r => r | None => [] end in
              let fname := sha1Hex host r ++ js ".svg" in
              let stash := resolve host [repoRoot; js "out"; js "remotes"; fname] in
              let txt := tryReadFileMaybe stash in
              if hasMarker txt then txt else None
            else None in
          match fromStash with
          | Some txt => txt
          | None =>
              let raw := if truthyS (content el)
                         then match content el with Some c => c | None => [] end
                         else [] in
              tryBase64Decode raw
          end
      end
  end.

End Resolution.

(* ================================================================== *)
(** ** Composition *)

(** What the loop body throws. *)
Inductive Failure :=
| NoSource
| NoRoot.

Definition message (e : Failure) : jsstring :=
  match e with
  | NoSource => js "No SVG source available for element"
  | NoRoot => js "No <svg> root element found"
  end.

(** One [console.warn('Warning: failed to process element', who, why)]. *)
Record Warning := { who : option jsstring; why : jsstring }.

(** The nested sub-document of one element. *)
Record Fragment := {
  frag_x : num;
  frag_y : num;
  frag_width : num;
  frag_height : num;
  frag_viewBox : jsstring;
  frag_par : jsstring;
  frag_inner : jsstring
}.

Definition elementFragment (g : Fragment) : jsstring :=
  jsq "  <svg x=`" ++ toString (frag_x g) ++ jsq "` y=`" ++ toString (frag_y g)
  ++ jsq "` width=`" ++ toString (frag_width g)
  ++ jsq "` height=`" ++ toString (frag_height g)
  ++ jsq "` viewBox=`" ++ frag_viewBox g ++ jsq "`" ++ frag_par g ++ js ">" ++ nl
  ++ frag_inner g ++ nl
  ++ js "  </svg>" ++ nl.

(** The loop body from [svgText] on (lines 263 to 291): parsing, geometry,
    the nested sub-document. *)
Definition place (el : Element) (svgText : jsstring) : Failure + Fragment :=
  match extractSvgParts svgText with
  | None => inl NoRoot
  | Some parts =>
      let targetW := match dimensions el with Some d => dim_width d | None => None end in
      let targetH := match dimensions el with Some d => dim_height d | None => None end in
      let fallback := extractInnerSvgAttributes svgText in
      let finalW := orN targetW (orN (width fallback) (ofZ 100)) in
      let finalH := orN targetH (orN (height fallback) (ofZ 100)) in
      let viewBoxStr := getViewBoxString (attrs parts) finalW finalH in
      let par :=
        if truthyS (getProp (js "preserveAspectRatio") (attrs parts))
        then jsq " preserveAspectRatio=`"
             ++ match getProp (js "preserveAspectRatio") (attrs parts) with
                | Some v => v | None => [] end
             ++ jsq "`"
        else [] in
      let x := orN (match position el with Some p => pos_x p | None => None end) (ofZ 0) in
      let y := orN (match position el with Some p => pos_y p | None => None end) (ofZ 0) in
      inr {| frag_x := x; frag_y := y; frag_width := finalW; frag_height := finalH;
             frag_viewBox := viewBoxStr; frag_par := par; frag_inner := inner parts |}
  end.

(** The body of the loop of [main] (the [try] block, lines 253 to 293);
    [inl] is what it throws. *)
Definition processElement (host : Host) (el : Element) : Failure + Fragment :=
  let repoRoot := cwd host in
  let resolved := resolveSvgSource host el repoRoot in
  match resolved with
  | [] => inl NoSource
  | _ =>
      let sanitized := sanitizeAnimationOverrides resolved in
      let svgText := stripXmlProlog sanitized in
      place el svgText
  end.

(** The loop of [main] (lines 252 to 297): the pieces pushed and the warnings
    logged by the [catch], both in order. *)
Fixpoint loop (body : Element -> Failure + Fragment) (els : list Element)
  : list jsstring * list Warning :=
  match els with
  | [] => ([], [])
  | el :: els' =>
      let '(pieces, warns) := loop body els' in
      match body el with
      | inr g => (elementFragment g :: pieces, warns)
      | inl e => (pieces, {| who := orS (name el) (id el); why := message e |} :: warns)
      end
  end.

Definition emptyCanvas : Canvas :=
  {| canvas_width := None; canvas_height := None;
     backgroundColor := None; transparency := None |}.

(** [layout.canvas || {}] *)
Definition canvasOf (layout : Layout) : Canvas :=
  match canvas layout with Some c => c | None => emptyCanvas end.

(** [Math.round(canvas.width || 800)], [Math.round(canvas.height || 200)] *)
Definition canvasW (layout : Layout) : num :=
  round (orN (canvas_width (canvasOf layout)) (ofZ 800)).

Definition canvasH (layout : Layout) : num :=
  round (orN (canvas_height (canvasOf layout)) (ofZ 200)).

(** The background fill (lines 237 to 242). *)
Definition bgFill (layout : Layout) : jsstring :=
  let canvas := canvasOf layout in
  let bgFill := match orS (backgroundColor canvas) (Some (js "#ffffff")) with
                | Some v => v | None => [] end in
  match transparency canvas with
  | Some alpha =>
      match hexToRgb bgFill with
      | Some (r, g, b) =>
          js "rgba(" ++ toString r ++ js ", " ++ toString g ++ js ", " ++ toString b
          ++ js ", " ++ toString alpha ++ js ")"
      | None => js "rgba(255,255,255," ++ toString alpha ++ js ")"
      end
  | None => bgFill
  end.

Definition header (layout : Layout) : jsstring :=
  let canvasW := toString (canvasW layout) in
  let canvasH := toString (canvasH layout) in
  let bgFill := bgFill layout in
  jsq "<?xml version=`1.0` encoding=`utf-8`?>" ++ nl
  ++ jsq "<svg xmlns=`http://www.w3.org/2000/svg` width=`" ++ canvasW
  ++ jsq "` height=`" ++ canvasH ++ jsq "` viewBox=`0 0 " ++ canvasW ++ js " "
  ++ canvasH ++ jsq "`>" ++ nl
  ++ jsq "<rect width=`" ++ canvasW ++ jsq "` height=`" ++ canvasH
  ++ jsq "` fill=`" ++ bgFill ++ jsq "`/>" ++ nl.

Definition footer : jsstring := js "</svg>" ++ nl.

(** [merged] and the warnings, given the loop body. *)
Definition compose (body : Element -> Failure + Fragment) (layout : Layout)
  : jsstring * list Warning :=
  let elements := match elements layout with Some l => l | None => [] end in
  let '(pieces, warns) := loop body elements in
  (header layout ++ join nl pieces ++ footer, warns).

Record Options := { opt_layout : jsstring; opt_out : jsstring }.

(** What a run leaves behind: the exit code, the file written, the warnings. *)
Record Outcome := {
  exitCode : Z;
  written : option (jsstring * jsstring);
  warnings : list Warning
}.

(** The script from [main()] on (lines 228 to 312): a failure to read the
    layout or to write the output is caught at the end and exits with code 2;
    otherwise the process ends with code 0. *)
Definition script (body : Host -> Element -> Failure + Fragment)
    (host : Host) (opts : Options) : Outcome :=
  let layoutPath := resolve host [opt_layout opts] in
  match readLayout host layoutPath with
  | None => {| exitCode := 2; written := None; warnings := [] |}
  | Some layout =>
      let '(merged, warns) := compose (body host) layout in
      let outPath := resolve host [opt_out opts] in
      if mkdir host (dirname host outPath) && writeFile host outPath merged
      then {| exitCode := 0; written := Some (outPath, merged); warnings := warns |}
      else {| exitCode := 2; written := None; warnings := warns |}
  end.

(** [scripts/merge-layout.js] *)
Definition main : Host -> Options -> Outcome := script processElement.

(* ================================================================== *)
(** ** The earlier nested-svg iteration

    Its helpers ([tryBase64Decode], [stripXmlProlog], [extractSvgParts],
    [parseNumeric], [getViewBoxString], [extractInnerSvgAttributes],
    [hexToRgb]) and the text of its [main] around the loop body are those of
    the final script; the loop body takes the inline content only and does not
    sanitize. *)

Module Nested.

(** The [try] block of its loop (lines 166 to 202 of the earlier script). *)
Definition processElement (host : Host) (el : Element) : Failure + Fragment :=
  let raw := match orS (content el) (Some []) with Some c => c | None => [] end in
  let decoded := tryBase64Decode raw in
  let svgText := stripXmlProlog decoded in
  place el svgText.

Definition main : Host -> Options -> Outcome := script processElement.

End Nested.

(* ================================================================== *)
(** ** The specification's vocabulary *)

(** The elements that survive a loop body, and those that fail with the error
    they raise, each in input order. *)
Definition survivors (body : Element -> Failure + Fragment) (els : list Element)
  : list Fragment :=
  flat_map (fun el => match body el with inr g => [g] | inl _ => [] end) els.

Definition failures (body : Element -> Failure + Fragment) (els : list Element)
  : list (Element * Failure) :=
  flat_map (fun el => match body el with inl e => [(el, e)] | inr _ => [] end) els.

Definition warningFor (x : Element * Failure) : Warning :=
  {| who := orS (name (fst x)) (id (fst x)); why := message (snd x) |}.

Definition elementsOf (layout : Layout) : list Element :=
  match elements layout with Some l => l | None => [] end.

(** The text of the document with the given nested sub-documents. *)
Definition document (layout : Layout) (gs : list Fragment) : jsstring :=
  header layout ++ join nl (map elementFragment gs) ++ footer.

(** A result counts only if it carries the SVG root marker. *)
Definition accept (txt : option jsstring) : option jsstring :=
  if hasMarker txt then txt else None.

Fixpoint firstSuccess (l : list (option jsstring)) : option jsstring :=
  match l with
  | [] => None
  | Some t :: _ => Some t
  | None :: l' => firstSuccess l'
  end.

Definition remoteOf (el : Element) : option jsstring :=
  match orS (remoteURL el) (remoteUrl el) with
  | Some (c :: r) => Some (c :: r)
  | _ => None
  end.

Definition localOf (el : Element) : option jsstring :=
  match orS (file el) (localPath el) with
  | Some (c :: r) => Some (c :: r)
  | _ => None
  end.

Definition inlineOf (el : Element) : jsstring :=
  match content el with Some c => c | None => [] end.

Definition cachePath (host : Host) (repoRoot remote : jsstring) : jsstring :=
  resolve host [repoRoot; js "out"; js "remotes"; sha1Hex host remote ++ js ".svg"].

(** The four strategies that come before the inline content, in the order of
    the specification; an unavailable strategy is a failure. *)
Definition strategies (host : Host) (el : Element) (repoRoot : jsstring)
  : list (option jsstring) :=
  [ match remoteOf el with
    | Some r => if negb (eqs (trim r) []) && test fl_i dataScheme r
                then accept (decodeDataUri host r) else None
    | None => None
    end;
    match remoteOf el with
    | Some r => if negb (eqs (trim r) []) && test fl_i httpScheme r
                then accept (fetchText host r 12000) else None
    | None => None
    end;
    match localOf el with
    | Some p => accept (readFile host (resolve host [repoRoot; p]))
    | None => None
    end;
    match remoteOf el with
    | Some r => accept (readFile host (cachePath host repoRoot r))
    | None => None
    end ].

(** The fifth strategy: base64, then URL-safe base64, then the text itself. *)
Definition inlineStrategy (raw : jsstring) : jsstring :=
  match firstSuccess
          [ accept (Some (Buffer.toStringUtf8 (Buffer.fromBase64 raw)));
            accept (Some (Buffer.toStringUtf8 (Buffer.fromBase64 (urlSafe raw)))) ] with
  | Some t => t
  | None => raw
  end.

(** An element with inline content only. *)
Definition inlineOnly (el : Element) : Prop :=
  remoteURL el = None /\ remoteUrl el = None /\ file el = None /\ localPath el = None.

(** The remote reference [url] of [el] is no data URI, its fetch fails, no
    copy of it is in the cache, and [el] names no file and has no content. *)
Definition unreachable (host : Host) (el : Element) (url : jsstring) : Prop :=
  orS (remoteURL el) (remoteUrl el) = Some url /\
  test fl_i dataScheme url = false /\
  fetchText host url 12000 = None /\
  readFile host (cachePath host (cwd host) url) = None /\
  file el = None /\ localPath el = None /\ content el = None.

(** *** The matcher *)

Fixpoint lastOr (a : list Z) (pv : option Z) : option Z :=
  match a with
  | [] => pv
  | c :: a' => lastOr a' (Some c)
  end.

(** The matcher state after the code units [a], with [b] still to read. *)
Definition after (n : nat) (pv : option Z) (a b : list Z) (cs : list (nat * jsstring))
  : mstate :=
  {| pos := n + List.length a; prev := lastOr a pv; rest := b; caps := cs |}.

(** [a] is the literal [l], up to case when the flags say so. *)
Fixpoint litEq (f : flags) (l a : jsstring) : bool :=
  match l, a with
  | [], [] => true
  | c :: l', d :: a' => eqChar f c d && litEq f l' a'
  | _, _ => false
  end.

(** The pattern matches no empty text. *)
Definition consuming (f : flags) (r : re) : Prop :=
  forall st e, matchAt f r st = Some e -> rest st <> [] /\ (pos st < pos e)%nat.

(** *** The sanitizer *)

Definition sanitizerPatterns : list re :=
  [universalAnimBlock; durationZero; delayZero; shorthandZero].

(** No pattern of the sanitizer matches anywhere in [s]. *)
Definition isClean (s : jsstring) : bool :=
  forallb (fun r => negb (test fl_im r s)) sanitizerPatterns.

(** *** The parser *)

Definition noGt (a : jsstring) : bool := forallb (fun c => negb (c =? 62)) a.

(** A root open tag: [<svg] in any case, then no [>], then [>]. *)
Definition isOpenTag (tag : jsstring) : Prop :=
  exists p a, tag = p ++ a ++ [62] /\ litEq fl_i (js "<svg") p = true /\ noGt a = true.

Definition isCloseTag (tag : jsstring) : Prop := litEq fl_i (js "</svg>") tag = true.

Definition allSpace (s : jsstring) : bool := forallb isSpace s.

(** [<svg] occurs, in any case, with a [>] somewhere after it. *)
Definition hasOpenTag (c : jsstring) : Prop :=
  exists pre p mid post,
    c = pre ++ p ++ mid ++ 62 :: post /\ litEq fl_i (js "<svg") p = true.

(** [tag] is the first open tag of [c]. *)
Definition firstOpenTag (c pre tag post : jsstring) : Prop :=
  c = pre ++ tag ++ post /\ isOpenTag tag /\
  forall pre' tag' post', c = pre' ++ tag' ++ post' -> isOpenTag tag' ->
    (List.length pre <= List.length pre')%nat.

(** [c] ends with a close tag, blanks apart, that starts at index [n]. *)
Definition finalCloseAt (c : jsstring) (n : nat) : Prop :=
  exists body tag sp,
    c = body ++ tag ++ sp /\ n = List.length body /\ isCloseTag tag /\ allSpace sp = true.

(** *** Geometry *)

Definition declaredViewBox (attrs : object) : option jsstring :=
  match getProp (js "viewBox") attrs with
  | Some (c :: v) => Some (c :: v)
  | _ => None
  end.

(** The fragment's own width and height, when both are non-zero numbers. *)
Definition ownSize (attrs : object) : option (num * num) :=
  match parseNumeric (getProp (js "width") attrs),
        parseNumeric (getProp (js "height") attrs) with
  | Some w, Some h => if truthy w && truthy h then Some (w, h) else None
  | _, _ => None
  end.

Definition viewBoxChain (declared : option jsstring) (own : option (num * num))
    (effective : num * num) : jsstring :=
  match declared with
  | Some v => trim v
  | None =>
      match own with
      | Some (w, h) => viewBoxOf w h
      | None => viewBoxOf (fst effective) (snd effective)
      end
  end.






(** *** The canvas *)

Definition hexDigits : jsstring := js "0123456789abcdefABCDEF".

Definition eqNum (a b : num) : bool :=
  match a, b with
  | NaN, NaN => true
  | Inf x, Inf y => Bool.eqb x y
  | Dec m e, Dec m' e' => (m =? m') && (e =? e')
  | _, _ => false
  end.

(** [k] is the integer nearest to [m * 10^e], halves going up. *)
Definition nearest (m e k : Z) : Prop :=
  if 0 <=? e then k = m * 10 ^ e
  else (2 * k - 1) * 10 ^ (- e) <= 2 * m < (2 * k + 1) * 10 ^ (- e).

Definition rgba (r g b alpha : num) : jsstring :=
  js "rgba(" ++ toString r ++ js ", " ++ toString g ++ js ", " ++ toString b
  ++ js ", " ++ toString alpha ++ js ")".

(** The configured color, [#ffffff] when there is none. *)
Definition colorOf (c : Canvas) : jsstring :=
  match backgroundColor c with
  | Some (x :: v) => x :: v
  | _ => js "#ffffff"
  end.

(* ================================================================== *)
(** ** Sample data *)

(** A host without network and with an empty file system, whose layout file
    holds [layout]; the digest is a stand-in. *)
Definition offlineHost (layout : Layout) : Host :=
  {| fetchText := fun _ _ => None;
     readFile := fun _ => None;
     sha1Hex := fun s => s;
     decodeURIComponent := fun s => Some s;
     resolve := fun l => join (js "/") l;
     dirname := fun p => p;
     cwd := js "/repo";
     mkdir := fun _ => true;
     writeFile := fun _ _ => true;
     readLayout := fun _ => Some layout |}.

Definition sampleOptions : Options :=
  {| opt_layout := js "mergesvg-layout.json"; opt_out := js "out/merged.svg" |}.

Definition plainElement (c : jsstring) : Element :=
  {| name := None; id := None; remoteURL := None; remoteUrl := None; file := None;
     localPath := None; content := Some c; position := None; dimensions := None |}.

(** The canvas of the specification's example. *)
Definition specCanvas : Canvas :=
  {| canvas_width := Some (ofZ 800); canvas_height := Some (ofZ 400);
     backgroundColor := Some (js "#ffffff"); transparency := Some (Dec 5 (-1)) |}.

(** The base64 element of the README: [<svg width='128' height='32'>], a line
    break, [</svg>]. *)
Definition badgeElement : Element :=
  {| name := Some (js "badge"); id := None; remoteURL := None; remoteUrl := None;
     file := None; localPath := None;
     content := Some (js "PHN2ZyB3aWR0aD0nMTI4JyBoZWlnaHQ9JzMyJz4KPC9zdmc+");
     position := Some {| pos_x := Some (ofZ 10); pos_y := Some (ofZ 20) |};
     dimensions := None |}.

Definition badgeText : jsstring := js "<svg width='128' height='32'>" ++ nl ++ js "</svg>".

Definition badgeFragment : Fragment :=
  {| frag_x := ofZ 10; frag_y := ofZ 20; frag_width := ofZ 128; frag_height := ofZ 32;
     frag_viewBox := js "0 0 128 32"; frag_par := []; frag_inner := nl |}.

Definition remoteUrlSample : jsstring := js "https://example.invalid/card.svg".

Definition remoteElement : Element :=
  {| name := Some (js "card"); id := None; remoteURL := None;
     remoteUrl := Some remoteUrlSample; file := None; localPath := None;
     content := None; position := None; dimensions := None |}.

Definition sampleLayout : Layout :=
  {| canvas := Some specCanvas; elements := Some [remoteElement; badgeElement] |}.

Definition inlineLayout : Layout :=
  {| canvas := None;
     elements := Some [badgeElement;
                       plainElement (js "<svg viewBox='0 0 24 24'><g/></svg>");
                       plainElement (js "not an image")] |}.

(** Markup in which deleting one match splices another together. *)
Definition splicedMarkup : jsstring := js "animation-duranimation-duration: 0s;ation: 0s;".

(** A style sheet whose first rule ends without a semicolon. *)
Definition compactStyle : jsstring :=
  js "<style>.a{animation-duration:0s}.b{fill:red;stroke:blue}</style>".

(** A plain SVG whose text, read as base64, holds the root marker, and its
    base64 encoding. *)
Definition trickyPlain : jsstring := js "<svg><text>aPHN2Zw</text></svg>".
Definition trickyEncoded : jsstring := js "PHN2Zz48dGV4dD5hUEhOMlp3PC90ZXh0Pjwvc3ZnPg==".

(** An SVG with a comment after its close tag. *)
Definition trailingText : jsstring := js "<svg>a</svg><!--x-->".

Definition paddedBoxText : jsstring := js "<svg viewBox=' 0 0 24 24 '></svg>".
Definition widthOnlyText : jsstring := js "<svg width='50'></svg>".

(* ================================================================== *)
(** ** The command line *)

(** [opts] while the arguments are read (lines 24 to 33); an option whose
    value is undefined is [None]. *)
Record RawOptions := { raw_layout : option jsstring; raw_out : option jsstring }.

Definition usageLine : jsstring :=
  js "Usage: node scripts/merge-layout.js --layout mergesvg-layout.json --out out/merged.svg".

(** [usageAndExit(msg)]: the lines written to the error stream and the exit
    code; an absent [msg] is the empty string. *)
Definition usageAndExit (msg : jsstring) : list jsstring * Z :=
  match msg with
  | [] => ([usageLine], 1)
  | _ => ([msg; usageLine], 2)
  end.

(** The [for] loop over [argv]: [inl] when an unknown option ends the process. *)
Fixpoint readArgs (argv : list jsstring) (opts : RawOptions)
  : (list jsstring * Z) + RawOptions :=
  match argv with
  | [] => inr opts
  | a :: argv' =>
      if eqs a (js "--layout") then
        match argv' with
        | v :: argv'' => readArgs argv'' {| raw_layout := Some v; raw_out := raw_out opts |}
        | [] => inr {| raw_layout := None; raw_out := raw_out opts |}
        end
      else if eqs a (js "--out") then
        match argv' with
        | v :: argv'' => readArgs argv'' {| raw_layout := raw_layout opts; raw_out := Some v |}
        | [] => inr {| raw_layout := raw_layout opts; raw_out := None |}
        end
      else inl (usageAndExit (js "Unknown option: " ++ a))
  end.

Definition parseArgs (argv : list jsstring) : (list jsstring * Z) + RawOptions :=
  match readArgs argv {| raw_layout := None; raw_out := Some (js "out/merged.svg") |} with
  | inl e => inl e
  | inr opts =>
      if truthyS (raw_layout opts) then inr opts
      else inl (usageAndExit (js "Missing --layout argument"))
  end.

(** The whole script, from the arguments on.  With an undefined [opts.out]
    the loop still runs and [path.resolve(opts.out)] throws after it. *)
Definition cli (host : Host) (argv : list jsstring) : Outcome :=
  match parseArgs argv with
  | inl (_, code) => {| exitCode := code; written := None; warnings := [] |}
  | inr opts =>
      let layoutArg := match raw_layout opts with Some p => p | None => [] end in
      match raw_out opts with
      | Some out => main host {| opt_layout := layoutArg; opt_out := out |}
      | None =>
          match readLayout host (resolve host [layoutArg]) with
          | None => {| exitCode := 2; written := None; warnings := [] |}
          | Some layout =>
              let '(_, warns) := compose (processElement host) layout in
              {| exitCode := 2; written := None; warnings := warns |}
          end
      end
  end.

(** Arguments given as pairs of an option ([true] for [--layout], [false] for
    [--out]) and its value. *)
Definition renderArgs (pairs : list (bool * jsstring)) : list jsstring :=
  flat_map (fun p : bool * jsstring =>
              [(if fst p then js "--layout" else js "--out"); snd p]) pairs.

(** The value of the last pair with the option [b]. *)
Fixpoint lastOf (b : bool) (pairs : list (bool * jsstring)) : option jsstring :=
  match pairs with
  | [] => None
  | (b', v) :: pairs' =>
      match lastOf b pairs' with
      | Some w => Some w
      | None => if Bool.eqb b b' then Some v else None
      end
  end.

(* ================================================================== *)
(** ** Occurrences and deletions *)

(** [s] begins with the literal [l], up to case when the flags say so. *)
Fixpoint startsWithF (f : flags) (l s : jsstring) : bool :=
  match l, s with
  | [], _ => true
  | c :: l', d :: s' => eqChar f c d && startsWithF f l' s'
  | _ :: _, [] => false
  end.

(** [l] occurs in [s], up to case when the flags say so. *)
Fixpoint includesF (f : flags) (l s : jsstring) : bool :=
  startsWithF f l s ||
  match s with
  | [] => false
  | _ :: s' => includesF f l s'
  end.

(** [a] is [b] with some code units deleted. *)
Inductive Subseq : jsstring -> jsstring -> Prop :=
| Subseq_nil : Subseq [] []
| Subseq_keep (c : Z) (a b : jsstring) : Subseq a b -> Subseq (c :: a) (c :: b)
| Subseq_drop (c : Z) (a b : jsstring) : Subseq a b -> Subseq a (c :: b).

(** A sufficient reading of the pattern: every text it matches holds [l]. *)
Fixpoint mustHold (l : jsstring) (r : re) : bool :=
  match r with
  | Lit s => includes l (js s)
  | Seq a b => mustHold l a || mustHold l b
  | Alt a b => mustHold l a && mustHold l b
  | Grp _ a => mustHold l a
  | _ => false
  end.

(** Markup that mentions no animation. *)
Definition plainMarkup : jsstring :=
  js "<svg><style>.a{fill:red;transition:none 0s}</style><rect class='a'/></svg>".

(* ================================================================== *)
(** ** Encoding inline content *)

(** The base64 character of a sextet, standard alphabet. *)
Definition b64char (v : Z) : Z :=
  if v <? 26 then v + 65
  else if v <? 52 then v + 71
  else if v <? 62 then v - 4
  else if v =? 62 then 43 else 47.

(** Base64 with padding (RFC 4648), what [buf.toString('base64')] gives. *)
Fixpoint base64Encode (bytes : list Z) : jsstring :=
  match bytes with
  | a :: b :: c :: rest =>
      b64char (a / 4) :: b64char ((a mod 4) * 16 + b / 16)
        :: b64char ((b mod 16) * 4 + c / 64) :: b64char (c mod 64) :: base64Encode rest
  | [a; b] => [b64char (a / 4); b64char ((a mod 4) * 16 + b / 16);
               b64char ((b mod 16) * 4); 61]
  | [a] => [b64char (a / 4); b64char ((a mod 4) * 16); 61; 61]
  | [] => []
  end.

Definition isHigh (c : Z) : bool := (55296 <=? c) && (c <=? 56319).
Definition isLow (c : Z) : bool := (56320 <=? c) && (c <=? 57343).

(** The UTF-8 bytes of a string, what [Buffer.from(s, 'utf8')] gives; a
    surrogate without its partner becomes U+FFFD. *)
Fixpoint utf8Encode (s : jsstring) : list Z :=
  match s with
  | [] => []
  | c :: s' =>
      if c <? 128 then c :: utf8Encode s'
      else if c <? 2048 then (192 + c / 64) :: (128 + c mod 64) :: utf8Encode s'
      else if isHigh c then
        match s' with
        | d :: s'' =>
            if isLow d then
              let cp := 65536 + (c - 55296) * 1024 + (d - 56320) in
              (240 + cp / 262144) :: (128 + (cp / 4096) mod 64)
                :: (128 + (cp / 64) mod 64) :: (128 + cp mod 64) :: utf8Encode s''
            else 239 :: 191 :: 189 :: utf8Encode s'
        | [] => [239; 191; 189]
        end
      else if isLow c then 239 :: 191 :: 189 :: utf8Encode s'
      else (224 + c / 4096) :: (128 + (c / 64) mod 64) :: (128 + c mod 64)
             :: utf8Encode s'
  end.

(** Code units of 16 bits in which every surrogate has its partner. *)
Fixpoint wellFormed (s : jsstring) : bool :=
  match s with
  | [] => true
  | c :: s' =>
      if isHigh c then
        match s' with
        | d :: s'' => isLow d && wellFormed s''
        | [] => false
        end
      else (0 <=? c) && (c <=? 65535) && negb (isLow c) && wellFormed s'
  end.

(** The base64 reading of a content string. *)
Definition base64Reading (s : jsstring) : jsstring :=
  Buffer.toStringUtf8 (Buffer.fromBase64 s).

(** An SVG with text outside ASCII and outside the basic plane. *)
Definition unicodeSvg : jsstring :=
  js "<svg><text>" ++ [233; 8364; 55357; 56832] ++ js "</text></svg>".



(* ================================================================== *)
(** ** Data URIs *)

Definition noComma (s : jsstring) : bool := forallb (fun c => negb (c =? 44)) s.

Definition noBreak (s : jsstring) : bool :=
  forallb (fun c => negb (isLineTerminator c)) s.

(** [uri] is [data:], in any case, then [meta] up to the first comma, then
    [data] on one line. *)
Definition dataUriOf (uri meta data : jsstring) : Prop :=
  exists scheme, uri = scheme ++ meta ++ 44 :: data
    /\ litEq fl_i (js "data:") scheme = true
    /\ noComma meta = true /\ noBreak data = true.

(* ================================================================== *)
(** ** Sample prologs *)

(** A document with a declaration, and one that opens with a comment. *)
Definition declaredText : jsstring :=
  nl ++ js "<?XML version='1.0'?>" ++ nl ++ js "<svg/>" ++ nl.

Definition commentFirstText : jsstring :=
  js "<!-- made by hand --><?xml version='1.0'?><svg/>".

(* ================================================================== *)
(** ** Units and colour notations *)

(** A letter or the percent sign: what [parseNumeric] takes for a unit. *)
Definition isUnitChar (c : Z) : bool :=
  ((97 <=? c) && (c <=? 122)) || (((65 <=? c) && (c <=? 90)) || (c =? 37)).

Definition isUnit (u : jsstring) : bool := forallb isUnitChar u.

(** The text does not end with a unit character. *)
Definition endsPlain (s : jsstring) : bool :=
  match rev s with
  | c :: _ => negb (isUnitChar c)
  | [] => true
  end.

(* ================================================================== *)
(** ** The fetch step ([scripts/fetch-remotes.js])

    Its [decodeDataUri], [fetchTextWithTimeout] and [sha1Hex] are those of the
    merge script. *)

Module Fetch.

Record Options := { opt_layout : jsstring; opt_outdir : jsstring }.

(** What the loop reports for one element: [Saved] is a file written and the
    line [Saved url -> path]; [Unsupported] the warning for a reference that
    is neither http(s) nor data; [Failed] the warning of the [catch], with the
    message when the script itself sets it. *)
Inductive Event :=
| Saved (url path text : jsstring)
| Unsupported (url : jsstring)
| Failed (url : jsstring) (why : option jsstring).

Record Outcome := {
  exitCode : Z;
  (** the directory made by [ensureDir] *)
  ensured : option jsstring;
  events : list Event;
  (** the count of the closing line [Done. Fetched n remote SVG(s) to ...] *)
  done : option nat
}.

Section Run.

Variable host : Host.

(** [path.join] of a directory and a file name *)
Variable join : jsstring -> jsstring -> jsstring.

(** From the check of the text to the end of the [try] block. *)
Definition store (outdir url svgText : jsstring) : Event :=
  if negb (truthyS (Some svgText)) || negb (includes svgMarker svgText)
  then Failed url (Some (js "Fetched content is not SVG text"))
  else
    let fname := sha1Hex host url ++ js ".svg" in
    let fpath := join outdir fname in
    if writeFile host fpath svgText then Saved url fpath svgText
    else Failed url None.

(** One turn of the loop; [None] is a silent [continue]. *)
Definition fetchElement (outdir : jsstring) (el : Element) : option Event :=
  let url := remoteUrl el in
  if negb (truthyS url) || negb (truthyS (option_map trim url)) then None
  else
    let u := match url with Some u => u | None => [] end in
    if test fl_i dataScheme u then
      match decodeDataUri host u with
      | None => Some (Failed u (Some (js "Failed to decode data URI")))
      | Some svgText => Some (store outdir u svgText)
      end
    else if test fl_i httpScheme u then
      match fetchTextWithTimeout host u 12000 with
      | None => Some (Failed u None)
      | Some svgText => Some (store outdir u svgText)
      end
    else Some (Unsupported u).

(** The loop, with its counter. *)
Fixpoint loop (outdir : jsstring) (els : list Element) (fetched : nat)
  : list Event * nat :=
  match els with
  | [] => ([], fetched)
  | el :: rest =>
      match fetchElement outdir el with
      | None => loop outdir rest fetched
      | Some (Saved u p t) =>
          let '(evs, n) := loop outdir rest (S fetched) in (Saved u p t :: evs, n)
      | Some e =>
          let '(evs, n) := loop outdir rest fetched in (e :: evs, n)
      end
  end.

Definition main (opts : Options) : Outcome :=
  let layoutPath := resolve host [opt_layout opts] in
  let outdir := resolve host [opt_outdir opts] in
  match readLayout host layoutPath with
  | None => {| exitCode := 2; ensured := None; events := []; done := None |}
  | Some layout =>
      let elements := match elements layout with Some l => l | None => [] end in
      match elements with
      | [] => {| exitCode := 0; ensured := None; events := []; done := None |}
      | _ =>
          if mkdir host outdir then
            let '(evs, fetched) := loop outdir elements 0 in
            {| exitCode := 0; ensured := Some outdir; events := evs;
               done := Some fetched |}
          else {| exitCode := 2; ensured := None; events := []; done := None |}
      end
  end.

End Run.

End Fetch.

(** The files a run of the fetch step has written. *)
Definition savedFiles (evs : list Fetch.Event) : list (jsstring * jsstring) :=
  flat_map (fun e => match e with Fetch.Saved _ p t => [(p, t)] | _ => [] end) evs.

(** A host that reaches one card on the network, and the same place later,
    without network, with the files of the fetch step in it. *)
Definition cardText : jsstring := js "<svg viewBox='0 0 10 10'><circle r='4'/></svg>".

Definition onlineHost : Host :=
  {| fetchText := fun url _ => if eqs url remoteUrlSample then Some cardText else None;
     readFile := fun _ => None;
     sha1Hex := fun s => s;
     decodeURIComponent := fun s => Some s;
     resolve := fun l => join (js "/") l;
     dirname := fun p => p;
     cwd := js "/repo";
     mkdir := fun _ => true;
     writeFile := fun _ _ => true;
     readLayout := fun _ => Some sampleLayout |}.

Definition slashJoin (a b : jsstring) : jsstring := a ++ js "/" ++ b.

Definition fetchOptions : Fetch.Options :=
  {| Fetch.opt_layout := js "mergesvg-layout.json";
     Fetch.opt_outdir := js "/repo/out/remotes" |}.

Fixpoint fileAt (files : list (jsstring * jsstring)) (p : jsstring) : option jsstring :=
  match files with
  | [] => None
  | (q, t) :: files' => if eqs p q then Some t else fileAt files' p
  end.

Definition laterHost : Host :=
  {| fetchText := fun _ _ => None;
     readFile := fileAt (savedFiles (Fetch.events (Fetch.main onlineHost slashJoin fetchOptions)));
     sha1Hex := fun s => s;
     decodeURIComponent := fun s => Some s;
     resolve := fun l => join (js "/") l;
     dirname := fun p => p;
     cwd := js "/repo";
     mkdir := fun _ => true;
     writeFile := fun _ _ => true;
     readLayout := fun _ => Some sampleLayout |}.

(* ================================================================== *)
(** ** Attributes of the root tag *)

(** An attribute as a tag writes it: a blank, the name, [=], the value
    between two quotes of the same kind. *)
Record Attr := { attr_name : jsstring; attr_quote : Z; attr_value : jsstring }.

Definition renderAttr (a : Attr) : jsstring :=
  32 :: attr_name a ++ 61 :: attr_quote a :: attr_value a ++ [attr_quote a].

Definition isLetter (c : Z) : bool :=
  ((97 <=? c) && (c <=? 122)) || ((65 <=? c) && (c <=? 90)).

Definition isNameStart (c : Z) : bool := isLetter c || (c =? 95).

Definition isNameChar (c : Z) : bool :=
  isLetter c || ((48 <=? c) && (c <=? 57))
  || (c =? 45) || (c =? 95) || (c =? 58) || (c =? 46).

(** The name begins with a letter or [_] and goes on with letters, digits,
    [-], [_], [:] and [.]; the quote is ['] or the double quote; the value
    holds neither its quote, nor a line break, nor [>]. *)
Definition wellFormedAttr (a : Attr) : bool :=
  match attr_name a with
  | c :: r => isNameStart c && forallb isNameChar r
  | [] => false
  end
  && ((attr_quote a =? 39) || (attr_quote a =? 34))
  && forallb (fun c => negb (c =? attr_quote a) && negb (isLineTerminator c)
                       && negb (c =? 62)) (attr_value a).

(** The value of the last attribute named [k]. *)
Definition lastValue (k : jsstring) (l : list Attr) : option jsstring :=
  fold_left (fun acc a => if eqs k (attr_name a) then Some (attr_value a) else acc)
            l None.

Definition twiceSizedText : jsstring :=
  jsq "<svg width=`10` data-w='1' height='5' width=`20`><g/></svg>".

(* ================================================================== *)
(** ** Zero-second declarations *)

Definition noSemicolon (s : jsstring) : bool := forallb (fun c => negb (c =? 59)) s.

(** A style sheet with one zero-second duration. *)
Definition frozenStyle : jsstring :=
  js "<style>.a{animation-duration: 0s !important;fill:red}</style>".



(* ================================================================== *)
(** ** The size a root tag declares *)




















(* ================================================================== *)
(** ** More sample data *)

(** A layout whose one element has a comment after its close tag. *)
Definition trailingLayout : Layout :=
  {| canvas := None; elements := Some [plainElement trailingText] |}.

(** A root tag with a presentation attribute whose name ends in [width]. *)
Definition strokeText : jsstring :=
  js "<svg width='128' height='32' stroke-width='5'></svg>".


(** *** The output, as text *)

(** A nested sub-document: the open tag with position, size and viewBox (and
    [par], empty or a whole [preserveAspectRatio] attribute), the inner
    markup on lines of its own, the close tag. *)
Definition subDocument (x y w h viewBox par inner : jsstring) : jsstring :=
  jsq "  <svg x=`" ++ x ++ jsq "` y=`" ++ y ++ jsq "` width=`" ++ w
  ++ jsq "` height=`" ++ h ++ jsq "` viewBox=`" ++ viewBox ++ jsq "`" ++ par
  ++ js ">" ++ nl ++ inner ++ nl ++ js "  </svg>" ++ nl.

Definition subDocumentOf (g : Fragment) : jsstring :=
  subDocument (toString (frag_x g)) (toString (frag_y g)) (toString (frag_width g))
    (toString (frag_height g)) (frag_viewBox g) (frag_par g) (frag_inner g).

(** The merged document: the declaration, the root tag of the canvas, the
    background rectangle, the sub-documents separated by a line break, the
    close tag. *)
Definition mergedText (w h fill : jsstring) (subs : list jsstring) : jsstring :=
  (jsq "<?xml version=`1.0` encoding=`utf-8`?>" ++ nl
   ++ jsq "<svg xmlns=`http://www.w3.org/2000/svg` width=`" ++ w
   ++ jsq "` height=`" ++ h ++ jsq "` viewBox=`0 0 " ++ w ++ js " " ++ h ++ jsq "`>" ++ nl
   ++ jsq "<rect width=`" ++ w ++ jsq "` height=`" ++ h
   ++ jsq "` fill=`" ++ fill ++ jsq "`/>" ++ nl)
  ++ join nl subs ++ js "</svg>" ++ nl.

Definition mergedTextOf (layout : Layout) (gs : list Fragment) : jsstring :=
  mergedText (toString (canvasW layout)) (toString (canvasH layout)) (bgFill layout)
    (map subDocumentOf gs).

(** The place of the sample hosts, without network, with a copy of the card
    in the cache. *)
Definition cachedHost : Host :=
  {| fetchText := fun _ _ => None;
     readFile := fun p =>
       if eqs p (js "/repo/out/remotes/https://example.invalid/card.svg.svg")
       then Some cardText else None;
     sha1Hex := fun s => s;
     decodeURIComponent := fun s => Some s;
     resolve := fun l => join (js "/") l;
     dirname := fun p => p;
     cwd := js "/repo";
     mkdir := fun _ => true;
     writeFile := fun _ _ => true;
     readLayout := fun _ => Some sampleLayout |}.

Definition cardFragment : Fragment :=
  {| frag_x := ofZ 0; frag_y := ofZ 0; frag_width := ofZ 10; frag_height := ofZ 10;
     frag_viewBox := js "0 0 10 10"; frag_par := []; frag_inner := js "<circle r='4'/>" |}.

(** The text written for the sample layout when the card cannot be had. *)
Definition sampleOutput : jsstring :=
  jsq "<?xml version=`1.0` encoding=`utf-8`?>" ++ nl
  ++ jsq "<svg xmlns=`http://www.w3.org/2000/svg` width=`800` height=`400` viewBox=`0 0 800 400`>"
  ++ nl
  ++ jsq "<rect width=`800` height=`400` fill=`rgba(255, 255, 255, 0.5)`/>" ++ nl
  ++ jsq "  <svg x=`10` y=`20` width=`128` height=`32` viewBox=`0 0 128 32`>" ++ nl
  ++ nl ++ nl
  ++ js "  </svg>" ++ nl
  ++ js "</svg>" ++ nl.


(* ================================================================== *)
(** * Properties *)

(** ** The platform model *)

Lemma digitsFuel_value (fuel : nat) : forall n acc,
  0 <= n < 10 ^ Z.of_nat fuel ->
  fold_left (fun a d => a * 10 + d) (digitsFuel fuel n acc) 0
  = fold_left (fun a d => a * 10 + d) acc n.
Proof.
  induction fuel as [|fuel IH]; intros n acc H.
  - simpl in *. assert (n = 0) by lia. subst. reflexivity.
  - cbn [digitsFuel]. destruct (n <? 10) eqn:E.
    + reflexivity.
    + apply Z.ltb_ge in E. rewrite IH.
      * cbn [fold_left]. f_equal. pose proof (Z.div_mod n 10 ltac:(lia)). lia.
      * rewrite Nat2Z.inj_succ, Z.pow_succ_r in H by lia.
        split; [apply Z.div_pos; lia | apply Z.div_lt_upper_bound; lia].
Qed.

(** The digits printed for a non-negative integer denote it. *)
Lemma digits_value (n : Z) : 0 <= n -> valueOf 10 (digits n) = n.
Proof.
  intros H. unfold valueOf, digits. rewrite digitsFuel_value; [reflexivity|].
  split; [exact H|].
  destruct (Z.eq_dec n 0) as [->|Hn]; [reflexivity|].
  rewrite Nat2Z.inj_succ, Z2Nat.id by apply Z.log2_nonneg.
  pose proof (Z.log2_spec n ltac:(lia)) as [_ L].
  eapply Z.lt_le_trans; [exact L|].
  apply Z.pow_le_mono_l. lia.
Qed.

(** Values the platform is known to give. *)
Lemma platform_examples :
  map toString [Dec 5 (-1); Dec 128 0; Dec 1 21; Dec 1 (-7); Dec 123456 (-3);
                Dec 1 (-6); round (Dec 25 (-1)); round (Dec (-25) (-1)); NaN]
    = map js ["0.5"; "128"; "1e+21"; "1e-7"; "123.456"; "0.000001"; "3"; "-2"; "NaN"]%string
  /\ map (fun t => ofString (js t))
         ["128"; " 12.5 "; "1e3"; ".5"; "5."; ""; "0x1F"; "12px"; "-1e400"; "1e-400"; "0.0"]%string
     = [Dec 128 0; Dec 125 (-1); Dec 1 3; Dec 5 (-1); Dec 5 0; Dec 0 0; Dec 31 0; NaN;
        Inf true; Dec 0 0; Dec 0 0]
  /\ map (fun t => parseInt16 (js t)) ["ff"; "0xff"; "zz"; "1g"]%string
     = [Dec 255 0; Dec 255 0; NaN; Dec 1 0]
  /\ Buffer.fromBase64 (js "hello world") = [133; 233; 101; 163; 10; 43; 149]
  /\ Buffer.toStringUtf8 [226; 130; 172; 240; 159; 152; 128; 255; 65] =
     [8364; 55357; 56832; 65533; 65]
  /\ split fl_none listSeparator (js "0 0,24 ,  24") = map js ["0"; "0"; "24"; "24"]%string
  /\ split fl_none listSeparator [] = [[]]
  /\ trim ([65279; 32] ++ js "a b" ++ [10; 160]) = js "a b".
Proof. repeat split; vm_compute; reflexivity. Qed.

(** ** The loop *)

Lemma loop_spec (body : Element -> Failure + Fragment) (els : list Element) :
  loop body els =
  (map elementFragment (survivors body els), map warningFor (failures body els)).
Proof.
  induction els as [|el els IH]; simpl; [reflexivity|].
  rewrite IH. unfold survivors, failures. simpl.
  destruct (body el) as [e|g]; reflexivity.
Qed.

Lemma compose_spec (body : Element -> Failure + Fragment) (layout : Layout) :
  compose body layout =
  (document layout (survivors body (elementsOf layout)),
   map warningFor (failures body (elementsOf layout))).
Proof.
  unfold compose, document, elementsOf. rewrite loop_spec. reflexivity.
Qed.

(** Two loop bodies that keep the same elements with the same sub-document
    give the same pieces, whatever they warn. *)
Lemma survivors_ext (b1 b2 : Element -> Failure + Fragment) (els : list Element) :
  (forall el, In el els ->
     match b1 el, b2 el with
     | inr g1, inr g2 => g1 = g2
     | inl _, inl _ => True
     | _, _ => False
     end) ->
  survivors b1 els = survivors b2 els.
Proof.
  induction els as [|el els IH]; intros H; [reflexivity|].
  unfold survivors in *. simpl.
  rewrite IH by (intros x Hx; apply H; right; exact Hx).
  specialize (H el (or_introl eq_refl)).
  destruct (b1 el), (b2 el); try contradiction; subst; reflexivity.
Qed.

(** ** Anchored patterns *)

Lemma searchFrom_bol (f : flags) (r : re) (s : jsstring) :
  multiline f = false ->
  forall n c, searchFrom f (Bol ;; r) n (Some c) s = None.
Proof.
  intros Hm. induction s as [|d s IH]; intros n c; simpl;
    unfold matchAt; simpl; unfold atBol; simpl; rewrite Hm; simpl;
    [reflexivity | apply IH].
Qed.

(** An anchored pattern matches at the start or nowhere. *)
Lemma search_bol (f : flags) (r : re) (s : jsstring) :
  multiline f = false ->
  search f (Bol ;; r) s =
  match matchAt f r (start s) with
  | Some e => Some {| index := 0; stop := pos e; groups := caps e |}
  | None => None
  end.
Proof.
  intros Hm. unfold search. destruct s as [|c s]; simpl.
  - unfold matchAt, start. simpl. destruct (m f r _ _); reflexivity.
  - unfold matchAt, start. simpl.
    destruct (m f r _ _); [reflexivity | apply searchFrom_bol; exact Hm].
Qed.

Lemma mLit_head (f : flags) (c : Z) (l : jsstring) (st : mstate) (k : cont) (e : mstate) :
  mLit f (c :: l) st k = Some e ->
  exists d s, rest st = d :: s /\ eqChar f c d = true.
Proof.
  simpl. unfold step. destruct (rest st) as [|d s]; [discriminate|].
  destruct (eqChar f c d) eqn:E; [|discriminate]. intros _. eauto.
Qed.

(** A reference cannot be a data URI and an http(s) URL at once. *)
Lemma data_not_http (r : jsstring) :
  test fl_i dataScheme r = true -> test fl_i httpScheme r = false.
Proof.
  unfold test, dataScheme, httpScheme. rewrite !search_bol by reflexivity.
  unfold matchAt.
  destruct (m fl_i (Lit "data:") (start r) _) as [e|] eqn:E1; [intros _|discriminate].
  destruct (m fl_i (Lit "http" ;; _) (start r) _) as [e'|] eqn:E2; [|reflexivity].
  exfalso.
  apply mLit_head in E1. apply mLit_head in E2.
  destruct E1 as (d & s & H1 & H2). destruct E2 as (d' & s' & H1' & H2').
  rewrite H1 in H1'. injection H1' as <- <-.
  unfold eqChar in *. cbn [ignoreCase fl_i] in *.
  apply Z.eqb_eq in H2, H2'. rewrite <- H2 in H2'. vm_compute in H2'. discriminate.
Qed.

(** ** Source resolution *)

Lemma inlineStrategy_spec (raw : jsstring) : tryBase64Decode raw = inlineStrategy raw.
Proof.
  unfold tryBase64Decode, inlineStrategy, accept, hasMarker. simpl firstSuccess.
  destruct raw as [|c raw]; [reflexivity|].
  destruct (includes svgMarker (Buffer.toStringUtf8 (Buffer.fromBase64 (c :: raw))));
    [reflexivity|].
  destruct (includes svgMarker
              (Buffer.toStringUtf8 (Buffer.fromBase64 (urlSafe (c :: raw)))));
    reflexivity.
Qed.

Lemma inline_raw (o : option jsstring) :
  (if truthyS o then match o with Some c => c | None => [] end else []) =
  match o with Some c => c | None => [] end.
Proof. destruct o as [[|c r]|]; reflexivity. Qed.

(** The code of [resolveSvgSource] is the ordered table of strategies. *)
Lemma resolveSvgSource_strategies (host : Host) (el : Element) (root : jsstring) :
  resolveSvgSource host el root =
  match firstSuccess (strategies host el root) with
  | Some t => t
  | None => inlineStrategy (inlineOf el)
  end.
Proof.
  unfold resolveSvgSource, strategies, remoteOf, localOf, inlineOf, cachePath,
    fetchTextWithTimeout, tryReadFileMaybe.
  cbv zeta. rewrite inlineStrategy_spec, inline_raw.
  destruct (orS (remoteURL el) (remoteUrl el)) as [[|c r]|] eqn:Er;
    simpl truthyS; cbv iota beta.
  all: destruct (orS (file el) (localPath el)) as [[|c' p]|] eqn:El;
    simpl truthyS; cbv iota beta.
  all: simpl andb; cbv iota; simpl firstSuccess.
  all: repeat first
    [ reflexivity
    | match goal with
      | |- context [if hasMarker ?x then ?x else None] =>
          change (if hasMarker x then x else None) with (accept x)
      | |- context [trim ?x] =>
          destruct (trim x); simpl eqs; simpl negb; simpl andb; cbv iota;
          simpl firstSuccess
      | |- context [test fl_i dataScheme ?x] =>
          let E := fresh "E" in
          destruct (test fl_i dataScheme x) eqn:E;
          [rewrite (data_not_http _ E)|]; simpl firstSuccess
      | |- context [test fl_i httpScheme ?x] =>
          destruct (test fl_i httpScheme x); simpl firstSuccess
      | |- context [accept ?x] => destruct (accept x); simpl firstSuccess
      end ].
Qed.

(** C2: source resolution tries, in this order, the data URI, the http(s)
    fetch (12 s), the local file, the cache file named by the SHA-1 of the
    remote reference, each accepted only with the SVG root marker, and returns
    the first success; when all four fail it falls back to the inline content:
    its base64 reading if that holds the marker, else its URL-safe base64
    reading if that does, else the string as it is.  No failure escapes. *)
Theorem resolution_order (host : Host) (el : Element) (root : jsstring) :
  resolveSvgSource host el root =
  match firstSuccess (strategies host el root) with
  | Some t => t
  | None =>
      match firstSuccess
              [ accept (Some (Buffer.toStringUtf8 (Buffer.fromBase64 (inlineOf el))));
                accept (Some (Buffer.toStringUtf8
                                (Buffer.fromBase64 (urlSafe (inlineOf el))))) ] with
      | Some t => t
      | None => inlineOf el
      end
  end.
Proof. exact (resolveSvgSource_strategies host el root). Qed.

Lemma unreachable_fails (host : Host) (el : Element) (url : jsstring) :
  unreachable host el url -> processElement host el = inl NoSource.
Proof.
  intros (Hr & Hd & Hf & Hc & Hfile & Hlp & Hct).
  unfold processElement. rewrite resolveSvgSource_strategies.
  unfold strategies, remoteOf, localOf, inlineOf.
  rewrite Hr, Hfile, Hlp, Hct. simpl orS. cbv iota.
  destruct url as [|c url]; [reflexivity|].
  rewrite Hd, Hf, Hc, andb_false_r.
  destruct (negb (eqs (trim (c :: url)) []) && test fl_i httpScheme (c :: url));
    reflexivity.
Qed.

Lemma inlineOnly_resolves (host : Host) (el : Element) (root : jsstring) :
  inlineOnly el -> resolveSvgSource host el root = tryBase64Decode (inlineOf el).
Proof.
  intros (H1 & H2 & H3 & H4). rewrite resolveSvgSource_strategies, inlineStrategy_spec.
  unfold strategies, remoteOf, localOf. rewrite H1, H2, H3, H4. reflexivity.
Qed.

(** ** The earlier iteration *)

Lemma nested_raw (el : Element) :
  match orS (content el) (Some []) with Some c => c | None => [] end = inlineOf el.
Proof. unfold inlineOf, orS. destruct (content el) as [[|c r]|]; reflexivity. Qed.

(** C10: on a layout whose elements carry inline content only and whose
    decoded markup the sanitizer leaves as it is, the final script and the
    earlier nested-svg iteration write the same file with the same text, and
    exit with the same code. *)
Theorem nested_iteration_agrees (host : Host) (opts : Options) (layout : Layout) :
  readLayout host (resolve host [opt_layout opts]) = Some layout ->
  (forall el, In el (elementsOf layout) ->
     inlineOnly el /\
     sanitizeAnimationOverrides (tryBase64Decode (inlineOf el))
       = tryBase64Decode (inlineOf el)) ->
  written (main host opts) = written (Nested.main host opts)
  /\ exitCode (main host opts) = exitCode (Nested.main host opts).
Proof.
  intros Hl Hels. unfold main, Nested.main, script. rewrite Hl, !compose_spec.
  assert (Hs : survivors (processElement host) (elementsOf layout)
               = survivors (Nested.processElement host) (elementsOf layout)).
  { apply survivors_ext. intros el Hin. destruct (Hels el Hin) as [Hi Hsan].
    unfold processElement, Nested.processElement.
    rewrite (inlineOnly_resolves host el (cwd host) Hi), nested_raw.
    destruct (tryBase64Decode (inlineOf el)) as [|c r] eqn:E.
    - vm_compute. exact I.
    - rewrite Hsan. destruct (place el (stripXmlProlog (c :: r))); [exact I | reflexivity]. }
  rewrite Hs.
  destruct (mkdir host _ && writeFile host _ _); split; reflexivity.
Qed.

Lemma nested_iteration_agrees_witness :
  written (main (offlineHost inlineLayout) sampleOptions)
    = written (Nested.main (offlineHost inlineLayout) sampleOptions)
  /\ exitCode (main (offlineHost inlineLayout) sampleOptions)
     = exitCode (Nested.main (offlineHost inlineLayout) sampleOptions).
Proof.
  apply (nested_iteration_agrees (offlineHost inlineLayout) sampleOptions inlineLayout
           eq_refl).
  intros el [<- | [<- | [<- | []]]]; split;
    try (repeat split; reflexivity); vm_compute; reflexivity.
Defined.

(* ================================================================== *)
(** ** The matcher *)
Lemma after_nil n pv b cs : after n pv [] b cs = {| pos := n; prev := pv; rest := b; caps := cs |}.
Proof. unfold after. simpl. rewrite Nat.add_0_r. reflexivity. Qed.

Lemma after_cons n pv c a b cs : after n pv (c :: a) b cs = after (S n) (Some c) a b cs.
Proof. unfold after. simpl. rewrite Nat.add_succ_r. reflexivity. Qed.

Lemma mStar_some p n pv r cs k e :
  mStar p n pv r cs k = Some e ->
  exists a b, r = a ++ b /\ forallb p a = true /\ k (after n pv a b cs) = Some e.
Proof.
  revert n pv. induction r as [|c r IH]; intros n pv H; simpl in H.
  - exists [], []. rewrite after_nil. auto.
  - destruct (p c) eqn:Ep.
    + destruct (mStar p (S n) (Some c) r cs k) as [e'|] eqn:E.
      * injection H as <-. destruct (IH _ _ E) as (a & b & -> & Ha & Hk).
        exists (c :: a), b. rewrite after_cons. simpl. rewrite Ep. auto.
      * exists [], (c :: r). rewrite after_nil. auto.
    + exists [], (c :: r). rewrite after_nil. auto.
Qed.

Lemma mStar_none p n pv r cs k :
  mStar p n pv r cs k = None ->
  forall a b, r = a ++ b -> forallb p a = true -> k (after n pv a b cs) = None.
Proof.
  revert n pv. induction r as [|c r IH]; intros n pv H a b Hr Ha; simpl in H.
  - destruct a; [|discriminate]. simpl in Hr. subst b. rewrite after_nil. exact H.
  - destruct a as [|d a].
    + simpl in Hr. subst b. rewrite after_nil.
      destruct (p c); [destruct (mStar p (S n) (Some c) r cs k); [discriminate|]|]; exact H.
    + injection Hr as <- ->. simpl in Ha. apply andb_true_iff in Ha. destruct Ha as [Hc Ha].
      rewrite Hc in H. rewrite after_cons.
      destruct (mStar p (S n) (Some c) (a ++ b) cs k) eqn:E; [discriminate|].
      eapply IH; eauto.
Qed.

Lemma mLit_some f l st k e :
  mLit f l st k = Some e ->
  exists a b, rest st = a ++ b /\ litEq f l a = true
              /\ k (after (pos st) (prev st) a b (caps st)) = Some e.
Proof.
  revert st. induction l as [|c l IH]; intros st H; simpl in H.
  - exists [], (rest st). rewrite after_nil. destruct st; auto.
  - unfold step in H. destruct (rest st) as [|d s] eqn:Er; [discriminate|].
    destruct (eqChar f c d) eqn:Ec; [|discriminate].
    destruct (IH _ H) as (a & b & Hr & Ha & Hk). simpl in Hr, Hk. subst s.
    exists (d :: a), b. rewrite after_cons. simpl. rewrite Ec. auto.
Qed.

Lemma mLit_none f l st k :
  mLit f l st k = None ->
  forall a b, rest st = a ++ b -> litEq f l a = true ->
              k (after (pos st) (prev st) a b (caps st)) = None.
Proof.
  revert st. induction l as [|c l IH]; intros st H a b Hr Ha; simpl in H.
  - destruct a; [|discriminate]. rewrite after_nil. simpl in Hr. rewrite <- Hr.
    destruct st; exact H.
  - destruct a as [|d a]; [discriminate|]. simpl in Ha. apply andb_true_iff in Ha.
    destruct Ha as [Hc Ha]. unfold step in H. rewrite Hr in H. simpl in H.
    rewrite Hc in H. rewrite after_cons.
    apply (IH _ H a b); [reflexivity | exact Ha].
Qed.

Lemma searchFrom_some f r n pv s x :
  searchFrom f r n pv s = Some x ->
  exists a b e, s = a ++ b /\ matchAt f r (after n pv a b []) = Some e
    /\ x = {| index := n + List.length a; stop := pos e; groups := caps e |}
    /\ forall a' b', s = a' ++ b' -> (List.length a' < List.length a)%nat ->
         matchAt f r (after n pv a' b' []) = None.
Proof.
  revert n pv. induction s as [|c s IH]; intros n pv H; simpl in H.
  - destruct (matchAt f r _) as [e|] eqn:E; [|discriminate]. injection H as <-.
    exists [], [], e. rewrite after_nil, Nat.add_0_r. repeat split; auto.
    intros a' b' _ Hl. simpl in Hl. lia.
  - destruct (matchAt f r _) as [e|] eqn:E.
    + injection H as <-. exists [], (c :: s), e. rewrite after_nil, Nat.add_0_r.
      repeat split; auto. intros a' b' _ Hl. simpl in Hl. lia.
    + destruct (IH _ _ H) as (a & b & e & -> & Hm & -> & Hmin).
      exists (c :: a), b, e. rewrite after_cons. simpl. rewrite Nat.add_succ_r.
      repeat split; auto.
      intros a' b' Hs Hl. destruct a' as [|d a'].
      * rewrite after_nil. simpl in Hs. subst b'. exact E.
      * injection Hs as <- Hs. rewrite after_cons. apply Hmin; [exact Hs | simpl in Hl; lia].
Qed.

Lemma searchFrom_none f r n pv s :
  searchFrom f r n pv s = None ->
  forall a b, s = a ++ b -> matchAt f r (after n pv a b []) = None.
Proof.
  revert n pv. induction s as [|c s IH]; intros n pv H a b Hs; simpl in H.
  - destruct a; [|discriminate]. simpl in Hs. subst b. rewrite after_nil.
    destruct (matchAt f r _); [discriminate | reflexivity].
  - destruct (matchAt f r _) eqn:E; [discriminate|].
    destruct a as [|d a].
    + simpl in Hs. subst b. rewrite after_nil. exact E.
    + injection Hs as <- ->. rewrite after_cons. apply IH; auto.
Qed.

Lemma litEq_length f l a : litEq f l a = true -> List.length a = List.length l.
Proof.
  revert a. induction l as [|c l IH]; intros [|d a]; simpl; try discriminate; auto.
  intros H. apply andb_true_iff in H. destruct H as [_ H]. rewrite (IH _ H). reflexivity.
Qed.

Lemma mStarLazy_some p n pv r cs k e :
  mStarLazy p n pv r cs k = Some e ->
  exists a b, r = a ++ b /\ forallb p a = true /\ k (after n pv a b cs) = Some e.
Proof.
  revert n pv. induction r as [|c r IH]; intros n pv H; simpl in H.
  - destruct (k _) eqn:E; [|discriminate]. injection H as <-.
    exists [], []. rewrite after_nil. auto.
  - destruct (k {| pos := n; prev := pv; rest := c :: r; caps := cs |}) eqn:E.
    + injection H as <-. exists [], (c :: r). rewrite after_nil. auto.
    + destruct (p c) eqn:Ep; [|discriminate].
      destruct (IH _ _ H) as (a & b & -> & Ha & Hk).
      exists (c :: a), b. rewrite after_cons. simpl. rewrite Ep. auto.
Qed.

(** A match never moves backwards. *)
Lemma m_progress f r : forall st k e,
  m f r st k = Some e -> exists st', k st' = Some e /\ (pos st <= pos st')%nat.
Proof.
  induction r as [l | c | a IHa b IHb | a IHa b IHb | c | c | c | a IHa | n a IHa | n | | |];
    intros st k e H; simpl in H.
  - apply mLit_some in H. destruct H as (x & y & _ & _ & H).
    eexists; split; [exact H|]. simpl. lia.
  - unfold step in H. destruct (rest st) as [|d s]; [discriminate|].
    destruct (inCls f c d); [|discriminate]. eexists; split; [exact H|]. simpl. lia.
  - apply IHa in H. destruct H as (st1 & H & L1). apply IHb in H.
    destruct H as (st2 & H & L2). exists st2. split; [exact H | lia].
  - destruct (m f a st k) eqn:E.
    + injection H as <-. apply IHa in E. exact E.
    + apply IHb in H. exact H.
  - apply mStar_some in H. destruct H as (x & y & _ & _ & H).
    eexists; split; [exact H|]. simpl. lia.
  - apply mStarLazy_some in H. destruct H as (x & y & _ & _ & H).
    eexists; split; [exact H|]. simpl. lia.
  - unfold step in H. destruct (rest st) as [|d s]; [discriminate|].
    destruct (inCls f c d); [|discriminate]. cbn [pos prev rest caps] in H.
    apply mStar_some in H. destruct H as (x & y & _ & _ & H).
    eexists; split; [exact H|]. simpl. lia.
  - destruct (m f a st _) eqn:E.
    + injection H as <-. apply IHa in E. destruct E as (st' & E & L).
      destruct (Nat.eqb (pos st') (pos st)); [discriminate|]. eauto.
    + exists st. auto.
  - apply IHa in H. destruct H as (st' & H & L). eexists; split; [exact H|]. simpl. lia.
  - destruct (getCap n (caps st)).
    + apply mLit_some in H. destruct H as (x & y & _ & _ & H).
      eexists; split; [exact H|]. simpl. lia.
    + exists st. auto.
  - destruct (atBol f st); [|discriminate]. exists st. auto.
  - destruct (atEol f st); [|discriminate]. exists st. auto.
  - destruct (atWordB st); [|discriminate]. exists st. auto.
Qed.

(** A pattern that begins with a literal matches at least that much. *)
Lemma lit_first_consuming f l r :
  (1 <= List.length (js l))%nat -> consuming f (Lit l ;; r).
Proof.
  intros Hl st e. unfold matchAt. simpl. intros H. apply mLit_some in H.
  destruct H as (a & b & Hr & Ha & H). apply m_progress in H.
  destruct H as (st' & H & L). injection H as ->.
  apply litEq_length in Ha. simpl in L. split; [|lia].
  rewrite Hr. destruct a; [simpl in Ha; lia | discriminate].
Qed.

Lemma removeAllFrom_length f r s : forall n pv skip,
  (List.length (removeAllFrom f r n pv s skip) <= List.length s)%nat.
Proof.
  induction s as [|c s IH]; intros n pv skip; simpl; [lia|].
  destruct skip as [|j].
  - destruct (matchAt f r _) as [e|].
    + destruct (pos e - n)%nat; simpl; [specialize (IH (S n) (Some c) 0%nat)|specialize (IH (S n) (Some c) n0)]; lia.
    + simpl. specialize (IH (S n) (Some c) 0%nat). lia.
  - specialize (IH (S n) (Some c) j). lia.
Qed.

Lemma removeAllFrom_no_match f r s : forall n pv,
  searchFrom f r n pv s = None -> removeAllFrom f r n pv s 0 = s.
Proof.
  induction s as [|c s IH]; intros n pv H; simpl in *; [reflexivity|].
  destruct (matchAt f r _); [discriminate|]. rewrite IH; auto.
Qed.

Lemma removeAllFrom_shrinks f r s : consuming f r -> forall n pv x,
  searchFrom f r n pv s = Some x ->
  (List.length (removeAllFrom f r n pv s 0) < List.length s)%nat.
Proof.
  intros C. induction s as [|c s IH]; intros n pv x H; simpl in *.
  - destruct (matchAt f r _) as [e|] eqn:E; [|discriminate].
    apply C in E. simpl in E. destruct E as [E _]. congruence.
  - destruct (matchAt f r _) as [e|] eqn:E.
    + apply C in E. simpl in E. destruct (pos e - n)%nat eqn:D; [lia|].
      pose proof (removeAllFrom_length f r s (S n) (Some c) n0). lia.
    + simpl. specialize (IH _ _ _ H). lia.
Qed.

Lemma removeAll_fixed f r s :
  consuming f r -> (removeAll f r s = s <-> test f r s = false).
Proof.
  intros C. unfold removeAll, test, search. split.
  - intros H. destruct (searchFrom f r 0 None s) as [x|] eqn:E; [|reflexivity].
    pose proof (removeAllFrom_shrinks f r s C _ _ _ E) as L. rewrite H in L. lia.
  - destruct (searchFrom f r 0 None s) eqn:E; [discriminate|]. intros _.
    apply removeAllFrom_no_match. exact E.
Qed.

Lemma removeAll_length f r s : (List.length (removeAll f r s) <= List.length s)%nat.
Proof. apply removeAllFrom_length. Qed.


(* ================================================================== *)
(** ** The animation sanitizer *)

Lemma sanitizer_consuming r : In r sanitizerPatterns -> consuming fl_im r.
Proof.
  intros [<- | [<- | [<- | [<- | []]]]]; apply lit_first_consuming; vm_compute; lia.
Qed.

Lemma removeAll_same_length f r s :
  consuming f r -> List.length (removeAll f r s) = List.length s -> removeAll f r s = s.
Proof.
  intros C H. apply removeAll_fixed; [exact C|].
  unfold test, search. destruct (searchFrom f r 0 None s) as [x|] eqn:E; [|reflexivity].
  pose proof (removeAllFrom_shrinks f r s C _ _ _ E) as L. unfold removeAll in H. lia.
Qed.

(** The markup the sanitizer leaves as it is: the markup without a match. *)
Lemma sanitizer_fixed (s : jsstring) :
  sanitizeAnimationOverrides s = s <-> isClean s = true.
Proof.
  unfold isClean, sanitizerPatterns. cbn [forallb]. rewrite andb_true_r.
  pose proof (sanitizer_consuming universalAnimBlock ltac:(simpl; auto)) as C1.
  pose proof (sanitizer_consuming durationZero ltac:(simpl; auto)) as C2.
  pose proof (sanitizer_consuming delayZero ltac:(simpl; auto)) as C3.
  pose proof (sanitizer_consuming shorthandZero ltac:(simpl; auto)) as C4.
  destruct s as [|c s]; [split; reflexivity|].
  unfold sanitizeAnimationOverrides. cbv zeta.
  set (t := c :: s).
  split.
  - intros H.
    pose proof (removeAll_length fl_im universalAnimBlock t) as L1.
    pose proof (removeAll_length fl_im durationZero (removeAll fl_im universalAnimBlock t)) as L2.
    pose proof (removeAll_length fl_im delayZero
                  (removeAll fl_im durationZero (removeAll fl_im universalAnimBlock t))) as L3.
    pose proof (removeAll_length fl_im shorthandZero
                  (removeAll fl_im delayZero
                    (removeAll fl_im durationZero (removeAll fl_im universalAnimBlock t)))) as L4.
    rewrite H in L4.
    assert (E1 : removeAll fl_im universalAnimBlock t = t)
      by (apply removeAll_same_length; [exact C1 | lia]).
    rewrite E1 in *.
    assert (E2 : removeAll fl_im durationZero t = t)
      by (apply removeAll_same_length; [exact C2 | lia]).
    rewrite E2 in *.
    assert (E3 : removeAll fl_im delayZero t = t)
      by (apply removeAll_same_length; [exact C3 | lia]).
    rewrite E3 in *.
    apply removeAll_fixed in E1, E2, E3, H; auto.
    rewrite E1, E2, E3, H. reflexivity.
  - rewrite !andb_true_iff, !negb_true_iff. intros (H1 & H2 & H3 & H4).
    rewrite (proj2 (removeAll_fixed _ _ t C1) H1), (proj2 (removeAll_fixed _ _ t C2) H2),
      (proj2 (removeAll_fixed _ _ t C3) H3). apply removeAll_fixed; auto.
Qed.

(** The example of the specification: the universal block goes, the rule next
    to it stays as it is. *)
Lemma sanitizer_example :
  sanitizeAnimationOverrides
    (js "<style>* { animation-duration: 0s !important; animation-delay: 0s !important; } .spin { animation: spin 2s linear infinite; }</style>")
  = js "<style> .spin { animation: spin 2s linear infinite; }</style>".
Proof. vm_compute. reflexivity. Qed.

(** C6: the sanitizer must not touch unrelated properties, but a zero-second
    declaration that ends its rule without a semicolon is removed together
    with everything up to the next semicolon: here the closing brace of rule
    [.a], the selector of rule [.b] and its [fill:red]. *)
Theorem sanitizer_crosses_rule_end :
  sanitizeAnimationOverrides compactStyle = js "<style>.a{stroke:blue}</style>".
Proof. vm_compute. reflexivity. Qed.

(* ================================================================== *)
(** ** Inline content *)

(** C8: an SVG given as plain text should resolve as its base64 encoding
    does, but the plain text is first read as base64 itself (characters
    outside the alphabet skipped); when that reading holds the root marker it
    replaces the text.  Here the encoded element yields the inner markup of
    the SVG, and the same SVG given as plain text is dropped. *)
Theorem round_trip_breaks (host : Host) :
  includes svgMarker trickyPlain = true
  /\ tryBase64Decode trickyEncoded = trickyPlain
  /\ tryBase64Decode trickyPlain =
     [65533; 65533; 45; 123; 27; 90; 60; 115; 118; 103; 15; 65533; 123; 27; 127;
      65533; 65533]
  /\ tryBase64Decode trickyPlain <> trickyPlain
  /\ (exists g, processElement host (plainElement trickyEncoded) = inr g
               /\ frag_inner g = js "<text>aPHN2Zw</text>")
  /\ processElement host (plainElement trickyPlain) = inl NoRoot.
Proof.
  split; [vm_compute; reflexivity|]. split; [vm_compute; reflexivity|].
  split; [vm_compute; reflexivity|]. split; [vm_compute; discriminate|].
  split; [|vm_compute; reflexivity].
  eexists. split; vm_compute; reflexivity.
Qed.

(* ================================================================== *)
(** ** The parser *)

Ltac bool_to_prop H :=
  repeat first [ rewrite orb_true_iff in H | rewrite andb_true_iff in H
               | rewrite Z.leb_le in H | rewrite Z.eqb_eq in H
               | rewrite negb_true_iff in H | rewrite orb_false_iff in H
               | rewrite andb_false_iff in H | rewrite Z.leb_gt in H
               | rewrite Z.eqb_neq in H ].

Lemma upper_cases c : (97 <= c <= 122 /\ upper c = c - 32) \/ ((c < 97 \/ 122 < c) /\ upper c = c).
Proof.
  unfold upper. destruct ((97 <=? c) && (c <=? 122)) eqn:E.
  - left. bool_to_prop E. lia.
  - right. bool_to_prop E. lia.
Qed.

Lemma lower_cases c : (65 <= c <= 90 /\ lower c = c + 32) \/ ((c < 65 \/ 90 < c) /\ lower c = c).
Proof.
  unfold lower. destruct ((65 <=? c) && (c <=? 90)) eqn:E.
  - left. bool_to_prop E. lia.
  - right. bool_to_prop E. lia.
Qed.

Lemma notGt_class c : inCls fl_i (Except (SChr 62)) c = negb (c =? 62).
Proof.
  unfold inCls, inSetF. cbn [ignoreCase fl_i inSet]. f_equal.
  destruct (upper_cases c) as [[? ->]|[? ->]], (lower_cases c) as [[? ->]|[? ->]];
    destruct (c =? 62) eqn:E; simpl; try reflexivity;
    repeat match goal with |- context [?a =? ?b] => destruct (Z.eqb_spec a b); simpl end;
    try reflexivity; lia.
Qed.

Lemma isSpace_range c : isSpace c = true -> c < 65 \/ 122 < c.
Proof. unfold isSpace. intros H. bool_to_prop H. lia. Qed.

Lemma isSpace_not_letter c : 65 <= c <= 122 -> isSpace c = false.
Proof.
  intros R. destruct (isSpace c) eqn:E; [|reflexivity]. apply isSpace_range in E. lia.
Qed.

Lemma space_class c : inCls fl_i space c = isSpace c.
Proof.
  unfold inCls, space, inSetF. cbn [ignoreCase fl_i inSet].
  destruct (upper_cases c) as [[R ->]|[R ->]], (lower_cases c) as [[R' ->]|[R' ->]];
    try lia.
  - rewrite (isSpace_not_letter c), (isSpace_not_letter (c - 32)) by lia. reflexivity.
  - rewrite (isSpace_not_letter c), (isSpace_not_letter (c + 32)) by lia. reflexivity.
  - destruct (isSpace c); reflexivity.
Qed.

Lemma eqChar_gt c : eqChar fl_i 62 c = true -> c = 62.
Proof.
  unfold eqChar. cbn [ignoreCase fl_i]. change (upper 62) with 62.
  intros H. apply Z.eqb_eq in H. destruct (upper_cases c) as [[R E]|[R E]]; lia.
Qed.

Lemma forallb_ext_eq {A} (p q : A -> bool) l : (forall x, p x = q x) -> forallb p l = forallb q l.
Proof. intros H. induction l; simpl; [reflexivity|]. rewrite H, IHl. reflexivity. Qed.


Lemma noGt_class a : forallb (inCls fl_i (Except (SChr 62))) a = noGt a.
Proof. apply forallb_ext_eq. apply notGt_class. Qed.

Lemma openTag_unfold st :
  matchAt fl_i openTag st =
  mLit fl_i (js "<svg") st (fun st1 =>
    mStar (inCls fl_i (Except (SChr 62))) (pos st1) (prev st1) (rest st1) (caps st1)
      (fun st' => mLit fl_i [62]
                    (setCap 1 (firstn (pos st' - pos st1) (rest st1)) st')
                    (fun e => Some e))).
Proof. reflexivity. Qed.

Lemma firstn_app_exact {A} (a b : list A) n : n = List.length a -> firstn n (a ++ b) = a.
Proof.
  intros ->. rewrite firstn_app, Nat.sub_diag, firstn_all. simpl. apply app_nil_r.
Qed.

Lemma openTag_sound st e :
  matchAt fl_i openTag st = Some e ->
  exists p a post,
    rest st = p ++ a ++ 62 :: post /\ litEq fl_i (js "<svg") p = true /\ noGt a = true
    /\ pos e = (pos st + List.length p + List.length a + 1)%nat
    /\ getCap 1 (caps e) = Some a.
Proof.
  rewrite openTag_unfold. intros H.
  apply mLit_some in H. destruct H as (p & b & Hr & Hp & H).
  apply mStar_some in H. cbn [after pos prev rest caps] in H.
  destruct H as (a & b' & -> & Ha & H).
  apply mLit_some in H. destruct H as (g & post & Hg & Hgt & H).
  cbn [after setCap pos prev rest caps] in Hg, H.
  pose proof (litEq_length _ _ _ Hgt) as Hlen.
  destruct g as [|c [|? ?]]; try discriminate.
  simpl in Hgt. rewrite andb_true_r in Hgt. apply eqChar_gt in Hgt. subst c.
  simpl in Hg. subst b'. injection H as <-. cbn [pos caps getCap Nat.eqb].
  exists p, a, post. rewrite noGt_class in Ha.
  split; [exact Hr|]. split; [exact Hp|]. split; [exact Ha|]. split.
  - simpl. lia.
  - simpl. f_equal. apply firstn_app_exact. lia.
Qed.

Lemma openTag_complete st p a post :
  rest st = p ++ a ++ 62 :: post -> litEq fl_i (js "<svg") p = true -> noGt a = true ->
  matchAt fl_i openTag st <> None.
Proof.
  intros Hr Hp Ha H. rewrite openTag_unfold in H.
  pose proof (mLit_none _ _ _ _ H p (a ++ 62 :: post) Hr Hp) as H1.
  cbn [after pos prev rest caps] in H1.
  rewrite <- noGt_class in Ha.
  pose proof (mStar_none _ _ _ _ _ _ H1 a (62 :: post) eq_refl Ha) as H2.
  cbn [after setCap pos prev rest caps mLit step] in H2.
  change (eqChar fl_i 62 62) with true in H2. discriminate.
Qed.

Lemma noGt_split a post a' post' :
  noGt a = true -> noGt a' = true -> a ++ 62 :: post = a' ++ 62 :: post' ->
  a = a' /\ post = post'.
Proof.
  revert a'. induction a as [|c a IH]; intros [|c' a'] Ha Ha' H; simpl in *.
  - injection H as ->. auto.
  - injection H as <- _. discriminate.
  - injection H as -> _. discriminate.
  - injection H as <- H. apply andb_true_iff in Ha, Ha'.
    destruct (IH a' (proj2 Ha) (proj2 Ha') H) as [-> ->]. auto.
Qed.

Lemma gt_first (l : jsstring) post0 mid :
  l = mid ++ 62 :: post0 -> exists a post, l = a ++ 62 :: post /\ noGt a = true.
Proof.
  revert l. induction mid as [|c mid IH]; intros l ->.
  - exists [], post0. auto.
  - destruct (c =? 62) eqn:E.
    + apply Z.eqb_eq in E. subst c. exists [], (mid ++ 62 :: post0). auto.
    + destruct (IH _ eq_refl) as (a & post & Hl & Ha).
      exists (c :: a), post. simpl. rewrite Hl, E, Ha. auto.
Qed.

Lemma app_eq_length {A} (a b a' b' : list A) :
  a ++ b = a' ++ b' -> List.length a = List.length a' -> a = a' /\ b = b'.
Proof.
  revert a'. induction a as [|x a IH]; intros [|y a'] H L; simpl in *; try discriminate.
  - auto.
  - injection H as -> H. injection L as L. destruct (IH _ H L) as [-> ->]. auto.
Qed.

Lemma closeTag_unfold st :
  matchAt fl_i closeTag st =
  mLit fl_i (js "</svg>") st (fun st1 =>
    mStar (inCls fl_i space) (pos st1) (prev st1) (rest st1) (caps st1)
      (fun st2 => if atEol fl_i st2 then Some st2 else None)).
Proof. reflexivity. Qed.

Lemma atEol_fl_i st : atEol fl_i st = match rest st with [] => true | _ => false end.
Proof. unfold atEol. destruct (rest st); reflexivity. Qed.

Lemma allSpace_class a : forallb (inCls fl_i space) a = allSpace a.
Proof. apply forallb_ext_eq. apply space_class. Qed.

Lemma closeTag_sound st e :
  matchAt fl_i closeTag st = Some e ->
  exists tag sp, rest st = tag ++ sp /\ isCloseTag tag /\ allSpace sp = true.
Proof.
  rewrite closeTag_unfold. intros H.
  apply mLit_some in H. destruct H as (tag & b & Hr & Ht & H).
  apply mStar_some in H. cbn [after pos prev rest caps] in H.
  destruct H as (a & b' & -> & Ha & H).
  rewrite atEol_fl_i in H. cbn [after rest] in H.
  destruct b'; [|discriminate]. rewrite app_nil_r in Hr.
  rewrite allSpace_class in Ha. exists tag, a. auto.
Qed.

Lemma closeTag_complete st tag sp :
  rest st = tag ++ sp -> isCloseTag tag -> allSpace sp = true ->
  matchAt fl_i closeTag st <> None.
Proof.
  intros Hr Ht Hs H. rewrite closeTag_unfold in H.
  pose proof (mLit_none _ _ _ _ H tag sp Hr Ht) as H1.
  cbn [after pos prev rest caps] in H1. rewrite <- allSpace_class in Hs.
  pose proof (mStar_none _ _ _ _ _ _ H1 sp [] (eq_sym (app_nil_r _)) Hs) as H2.
  cbv beta in H2. rewrite atEol_fl_i in H2. discriminate.
Qed.

Lemma eqChar_upper a c : eqChar fl_i a c = true -> upper c = upper a.
Proof. unfold eqChar. cbn [ignoreCase fl_i]. intros H. apply Z.eqb_eq in H. auto. Qed.

Lemma upper_lt c : upper c = 60 -> c = 60.
Proof. destruct (upper_cases c) as [[R E]|[R E]]; lia. Qed.

Lemma closeTag_chars tag :
  isCloseTag tag ->
  exists t2 t3 t4 t5 t6, tag = [60; t2; t3; t4; t5; t6]
    /\ upper t2 = 47 /\ upper t3 = 83 /\ upper t4 = 86 /\ upper t5 = 71 /\ upper t6 = 62.
Proof.
  unfold isCloseTag. change (js "</svg>") with [60; 47; 115; 118; 103; 62].
  destruct tag as [|t1 [|t2 [|t3 [|t4 [|t5 [|t6 [|]]]]]]]; simpl;
    rewrite ?andb_false_r; try discriminate.
  rewrite andb_true_r, !andb_true_iff. intros (H1 & H2 & H3 & H4 & H5 & H6).
  apply eqChar_upper in H1, H2, H3, H4, H5, H6.
  apply upper_lt in H1. subst t1. exists t2, t3, t4, t5, t6.
  repeat split; assumption.
Qed.

Lemma no_later_close tag sp d body tag' sp' :
  isCloseTag tag -> allSpace sp = true -> isCloseTag tag' ->
  tag ++ sp = d :: body ++ tag' ++ sp' -> False.
Proof.
  intros Ht Hs Ht' H.
  destruct (closeTag_chars _ Ht) as (t2 & t3 & t4 & t5 & t6 & -> & U2 & U3 & U4 & U5 & U6).
  destruct (closeTag_chars _ Ht') as (u2 & u3 & u4 & u5 & u6 & -> & _).
  simpl in H. injection H as _ H.
  destruct body as [|b1 body]; simpl in H; [injection H as -> _; discriminate|].
  injection H as _ H.
  destruct body as [|b2 body]; simpl in H; [injection H as -> _; discriminate|].
  injection H as _ H.
  destruct body as [|b3 body]; simpl in H; [injection H as -> _; discriminate|].
  injection H as _ H.
  destruct body as [|b4 body]; simpl in H; [injection H as -> _; discriminate|].
  injection H as _ H.
  destruct body as [|b5 body]; simpl in H; [injection H as -> _; discriminate|].
  injection H as _ H. subst sp.
  unfold allSpace in Hs. rewrite forallb_app in Hs. apply andb_true_iff in Hs.
  destruct Hs as [_ Hs]. simpl in Hs. discriminate.
Qed.

Lemma finalClose_unique c n n' : finalCloseAt c n -> finalCloseAt c n' -> n = n'.
Proof.
  intros (body & tag & sp & -> & -> & Ht & Hs) (body' & tag' & sp' & H & -> & Ht' & Hs').
  revert body' H. induction body as [|d body IH]; intros [|d' body'] H; simpl in *.
  - reflexivity.
  - exfalso. eapply (no_later_close tag sp d' body' tag' sp'); eauto.
  - exfalso. eapply (no_later_close tag' sp' d body tag sp); eauto.
  - injection H as _ H. f_equal. apply IH. exact H.
Qed.

Lemma search_openTag_some c x :
  search fl_i openTag c = Some x ->
  exists pre tag post,
    firstOpenTag c pre tag post /\ stop x = List.length (pre ++ tag).
Proof.
  unfold search. intros H. apply searchFrom_some in H.
  destruct H as (pre & b & e & Hc & Hm & -> & Hmin).
  destruct (openTag_sound _ _ Hm) as (p & a & post & Hr & Hp & Ha & Hpos & _).
  cbn [after rest pos] in Hr, Hpos. subst b.
  exists pre, (p ++ a ++ [62]), post. split; [split; [|split]|].
  - rewrite Hc, <- !app_assoc. reflexivity.
  - exists p, a. auto.
  - intros pre' tag' post' Hc' (p' & a' & -> & Hp' & Ha').
    destruct (Nat.le_gt_cases (List.length pre) (List.length pre')) as [L|L]; [exact L|].
    exfalso. specialize (Hmin pre' ((p' ++ a' ++ [62]) ++ post') Hc' L).
    revert Hmin. apply (openTag_complete _ p' a' post'); auto.
    cbn [after rest]. rewrite <- !app_assoc. reflexivity.
  - cbn [stop]. rewrite Hpos, !length_app. simpl. lia.
Qed.

Lemma search_openTag_none c :
  search fl_i openTag c = None <-> ~ hasOpenTag c.
Proof.
  split.
  - intros H (pre & p & mid & post & Hc & Hp).
    destruct (gt_first (mid ++ 62 :: post) post mid eq_refl) as (a & post' & Hl & Ha).
    rewrite Hl in Hc.
    pose proof (searchFrom_none _ _ _ _ _ H pre (p ++ a ++ 62 :: post') Hc) as Hm.
    revert Hm. apply (openTag_complete _ p a post'); auto.
  - intros Hn. destruct (search fl_i openTag c) as [x|] eqn:E; [|reflexivity].
    exfalso. apply Hn. destruct (search_openTag_some _ _ E) as (pre & tag & post & F & _).
    destruct F as (Hc & (p & a & -> & Hp & _) & _).
    exists pre, p, a, post. split; [|exact Hp].
    rewrite Hc, <- !app_assoc. reflexivity.
Qed.

Lemma search_closeTag_some c x :
  search fl_i closeTag c = Some x -> finalCloseAt c (index x).
Proof.
  unfold search. intros H. apply searchFrom_some in H.
  destruct H as (body & b & e & Hc & Hm & -> & _).
  destruct (closeTag_sound _ _ Hm) as (tag & sp & Hr & Ht & Hs).
  cbn [after rest] in Hr. subst b. exists body, tag, sp. auto.
Qed.

Lemma search_closeTag_none c n :
  search fl_i closeTag c = None -> ~ finalCloseAt c n.
Proof.
  intros H (body & tag & sp & Hc & _ & Ht & Hs).
  pose proof (searchFrom_none _ _ _ _ _ H body (tag ++ sp) Hc) as Hm.
  revert Hm. apply (closeTag_complete _ tag sp); auto.
Qed.

Lemma slice_to_end (c : jsstring) (a b : jsstring) :
  c = a ++ b -> slice c (List.length a) (List.length c) = b.
Proof.
  intros ->. unfold slice. rewrite skipn_app, Nat.sub_diag, skipn_all. simpl.
  apply firstn_all2. rewrite length_app. lia.
Qed.

Lemma slice_middle (a b d : jsstring) :
  slice (a ++ b ++ d) (List.length a) (List.length (a ++ b)) = b.
Proof.
  unfold slice. rewrite skipn_app, Nat.sub_diag, skipn_all. simpl.
  apply firstn_app_exact. rewrite length_app. lia.
Qed.

Lemma trimStart_head (s : jsstring) (c : Z) (r : jsstring) :
  trimStart s = c :: r -> isSpace c = false.
Proof.
  induction s as [|a s IH]; simpl; [discriminate|].
  destruct (isSpace a) eqn:E; [exact IH|]. intros H. injection H as <- _. exact E.
Qed.

Lemma trimStart_suffix (s : jsstring) : exists pre, s = pre ++ trimStart s.
Proof.
  induction s as [|a s [pre IH]]; simpl; [exists []; reflexivity|].
  destruct (isSpace a); [exists (a :: pre); simpl; f_equal; exact IH | exists []; reflexivity].
Qed.

(** The stripped text neither begins nor ends with a blank (a byte order mark
    is one). *)
Lemma stripXmlProlog_trimmed (raw : jsstring) :
  (forall c r, stripXmlProlog raw = c :: r -> isSpace c = false)
  /\ (forall c r, stripXmlProlog raw = r ++ [c] -> isSpace c = false).
Proof.
  unfold stripXmlProlog, trim, trimEnd.
  set (t := trimStart (removeFirstMatch fl_i xmlProlog raw)). split.
  - intros c r H. destruct (trimStart_suffix (rev t)) as [pre Hp].
    apply (f_equal (@rev Z)) in Hp. rewrite rev_involutive, rev_app_distr, H in Hp.
    unfold t in Hp. exact (trimStart_head _ c (r ++ rev pre) Hp).
  - intros c r H. apply (f_equal (@rev Z)) in H.
    rewrite rev_involutive, rev_app_distr in H. simpl in H.
    apply (trimStart_head _ _ _ H).
Qed.

(** A byte order mark, the prolog and the blanks around the text go. *)
Lemma stripXmlProlog_example :
  stripXmlProlog ([65279] ++ js "<?xml version='1.0' encoding='UTF-8'?>" ++ nl
                  ++ js "<svg><g/></svg>" ++ nl)
  = js "<svg><g/></svg>".
Proof. vm_compute. reflexivity. Qed.

(* ================================================================== *)
(** ** Geometry *)

Lemma orN_truthy a d : truthy d = true -> truthy (orN a d) = true.
Proof.
  intros H. unfold orN. destruct a as [n|]; [|exact H].
  destruct (truthy n) eqn:E; [exact E | exact H].
Qed.


Lemma getViewBoxString_chain attrs fw fh :
  truthy fw = true -> truthy fh = true ->
  getViewBoxString attrs fw fh = viewBoxChain (declaredViewBox attrs) (ownSize attrs) (fw, fh).
Proof.
  intros Hw Hh. unfold getViewBoxString, viewBoxChain, declaredViewBox, ownSize.
  destruct (getProp (js "viewBox") attrs) as [[|c v]|]; cbn [truthyS].
  all: destruct (parseNumeric (getProp (js "width") attrs)) as [w|];
       destruct (parseNumeric (getProp (js "height") attrs)) as [h|];
       cbn [truthyN valN andb]; rewrite ?Hw, ?Hh; cbn [andb fst snd]; try reflexivity.
  all: try (destruct (truthy w); cbn [andb]; try reflexivity).
  all: try (destruct (truthy h); reflexivity).
Qed.

Lemma place_parts (el : Element) (svgText : jsstring) (g : Fragment) :
  place el svgText = inr g ->
  exists parts,
    extractSvgParts svgText = Some parts
    /\ frag_inner g = inner parts
    /\ frag_viewBox g =
         getViewBoxString (attrs parts) (frag_width g) (frag_height g)
    /\ truthy (frag_width g) = true /\ truthy (frag_height g) = true.
Proof.
  unfold place. destruct (extractSvgParts svgText) as [parts|]; [|discriminate].
  intros H. injection H as <-. exists parts.
  cbn [frag_inner frag_viewBox frag_width frag_height].
  repeat split; apply orN_truthy; apply orN_truthy; reflexivity.
Qed.

(* ================================================================== *)
(** ** The canvas *)

Lemma eqNum_eq (a b : num) : eqNum a b = true -> a = b.
Proof.
  destruct a as [| x | m e], b as [| y | m' e']; simpl; try discriminate; try reflexivity.
  - intros H. apply Bool.eqb_prop in H. congruence.
  - rewrite andb_true_iff, !Z.eqb_eq. intros [-> ->]. reflexivity.
Qed.

Lemma hexDigit_in (c v : Z) : digitValue 16 c = Some v -> In c hexDigits.
Proof.
  unfold digitValue, isDigit. intros H.
  assert (R : (48 <= c <= 57) \/ (97 <= c <= 102) \/ (65 <= c <= 70)).
  { destruct ((48 <=? c) && (c <=? 57)) eqn:E1.
    - left. apply andb_true_iff in E1. lia.
    - destruct ((97 <=? c) && (c <=? 102)) eqn:E2.
      + right; left. apply andb_true_iff in E2. lia.
      + destruct ((65 <=? c) && (c <=? 70)) eqn:E3.
        * right; right. apply andb_true_iff in E3. lia.
        * simpl in H. discriminate. }
  assert (D : c = 48 \/ c = 49 \/ c = 50 \/ c = 51 \/ c = 52 \/ c = 53 \/ c = 54
              \/ c = 55 \/ c = 56 \/ c = 57 \/ c = 97 \/ c = 98 \/ c = 99 \/ c = 100
              \/ c = 101 \/ c = 102 \/ c = 65 \/ c = 66 \/ c = 67 \/ c = 68 \/ c = 69
              \/ c = 70) by lia.
  vm_compute. lia.
Qed.

Lemma hexPair_check :
  forallb (fun c1 => forallb (fun c2 =>
    match digitValue 16 c1, digitValue 16 c2 with
    | Some v1, Some v2 => eqNum (parseInt16 [c1; c2]) (Dec (16 * v1 + v2) 0)
    | _, _ => false
    end) hexDigits) hexDigits = true.
Proof. vm_compute. reflexivity. Qed.

Lemma hexPair (c1 c2 v1 v2 : Z) :
  digitValue 16 c1 = Some v1 -> digitValue 16 c2 = Some v2 ->
  parseInt16 [c1; c2] = Dec (16 * v1 + v2) 0.
Proof.
  intros H1 H2.
  pose proof (proj1 (forallb_forall _ _) hexPair_check c1 (hexDigit_in _ _ H1)) as P.
  pose proof (proj1 (forallb_forall _ _) P c2 (hexDigit_in _ _ H2)) as Q.
  simpl in Q. rewrite H1, H2 in Q. apply eqNum_eq. exact Q.
Qed.

Lemma hexDigit_noSpace (c v : Z) : digitValue 16 c = Some v -> isSpace c = false.
Proof.
  intros H. apply hexDigit_in in H.
  pose proof (proj1 (forallb_forall (fun c => negb (isSpace c)) hexDigits) eq_refl c H) as P.
  simpl in P. apply negb_true_iff in P. exact P.
Qed.

Lemma trimStart_id (c : Z) (s : jsstring) : isSpace c = false -> trimStart (c :: s) = c :: s.
Proof. intros H. simpl. rewrite H. reflexivity. Qed.

Lemma hexToRgb_six (c1 c2 c3 c4 c5 c6 v1 v2 v3 v4 v5 v6 : Z) :
  digitValue 16 c1 = Some v1 -> digitValue 16 c2 = Some v2 ->
  digitValue 16 c3 = Some v3 -> digitValue 16 c4 = Some v4 ->
  digitValue 16 c5 = Some v5 -> digitValue 16 c6 = Some v6 ->
  hexToRgb (35 :: [c1; c2; c3; c4; c5; c6]) =
  Some (Dec (16 * v1 + v2) 0, Dec (16 * v3 + v4) 0, Dec (16 * v5 + v6) 0).
Proof.
  intros H1 H2 H3 H4 H5 H6. unfold hexToRgb.
  change (removeFirst (js "#") (35 :: [c1; c2; c3; c4; c5; c6])) with [c1; c2; c3; c4; c5; c6].
  assert (T : trim [c1; c2; c3; c4; c5; c6] = [c1; c2; c3; c4; c5; c6]).
  { unfold trim, trimEnd. rewrite (trimStart_id _ _ (hexDigit_noSpace _ _ H1)).
    change (rev [c1; c2; c3; c4; c5; c6]) with [c6; c5; c4; c3; c2; c1].
    rewrite (trimStart_id _ _ (hexDigit_noSpace _ _ H6)). reflexivity. }
  rewrite T. cbn [List.length Nat.eqb negb slice Nat.sub firstn skipn].
  rewrite (hexPair _ _ _ _ H1 H2), (hexPair _ _ _ _ H3 H4), (hexPair _ _ _ _ H5 H6).
  reflexivity.
Qed.

Lemma round_nearest (m e : Z) :
  exists k, round (Dec m e) = ofZ k /\ nearest m e k.
Proof.
  unfold round, ofZ, nearest. destruct (0 <=? e) eqn:E.
  - eexists; split; reflexivity.
  - eexists; split; [reflexivity|].
    apply Z.leb_gt in E.
    assert (P : 0 < 10 ^ (- e)) by (apply Z.pow_pos_nonneg; lia).
    set (d := 10 ^ (- e)) in *.
    pose proof (Z.div_mod (2 * m + d) (2 * d) ltac:(lia)) as D.
    pose proof (Z.mod_pos_bound (2 * m + d) (2 * d) ltac:(lia)) as B.
    set (k := (2 * m + d) / (2 * d)) in *. nia.
Qed.

Lemma hexToRgb_three (c1 c2 c3 v1 v2 v3 : Z) :
  digitValue 16 c1 = Some v1 -> digitValue 16 c2 = Some v2 ->
  digitValue 16 c3 = Some v3 ->
  hexToRgb (35 :: [c1; c2; c3]) =
  Some (Dec (16 * v1 + v1) 0, Dec (16 * v2 + v2) 0, Dec (16 * v3 + v3) 0).
Proof.
  intros H1 H2 H3. unfold hexToRgb.
  change (removeFirst (js "#") (35 :: [c1; c2; c3])) with [c1; c2; c3].
  assert (T : trim [c1; c2; c3] = [c1; c2; c3]).
  { unfold trim, trimEnd. rewrite (trimStart_id _ _ (hexDigit_noSpace _ _ H1)).
    change (rev [c1; c2; c3]) with [c3; c2; c1].
    rewrite (trimStart_id _ _ (hexDigit_noSpace _ _ H3)). reflexivity. }
  rewrite T. cbn [List.length Nat.eqb negb slice Nat.sub firstn skipn flat_map app].
  rewrite (hexPair _ _ _ _ H1 H1), (hexPair _ _ _ _ H2 H2), (hexPair _ _ _ _ H3 H3).
  reflexivity.
Qed.

Lemma hexToRgb_other (hex : jsstring) :
  let h := trim (removeFirst (js "#") hex) in
  List.length h <> 3%nat -> List.length h <> 6%nat -> hexToRgb hex = None.
Proof.
  intros h H3 H6. unfold hexToRgb. destruct hex as [|c hex]; [reflexivity|].
  fold h. apply Nat.eqb_neq in H3, H6. rewrite H3, H6. reflexivity.
Qed.

Lemma color_or_default (c : Canvas) :
  match orS (backgroundColor c) (Some (js "#ffffff")) with
  | Some v => v | None => [] end = colorOf c.
Proof. unfold orS, colorOf. destruct (backgroundColor c) as [[|x v]|]; reflexivity. Qed.

Lemma bgFill_spec (layout : Layout) :
  bgFill layout =
  match transparency (canvasOf layout) with
  | Some alpha =>
      match hexToRgb (colorOf (canvasOf layout)) with
      | Some (r, g, b) => rgba r g b alpha
      | None => js "rgba(255,255,255," ++ toString alpha ++ js ")"
      end
  | None => colorOf (canvasOf layout)
  end.
Proof. unfold bgFill. cbv zeta. rewrite color_or_default. reflexivity. Qed.

(* ================================================================== *)
(** ** The command line *)

Lemma readArgs_pairs (pairs : list (bool * jsstring)) : forall opts,
  readArgs (renderArgs pairs) opts =
  inr {| raw_layout := match lastOf true pairs with
                       | Some v => Some v | None => raw_layout opts end;
         raw_out := match lastOf false pairs with
                    | Some v => Some v | None => raw_out opts end |}.
Proof.
  induction pairs as [|[b v] pairs IH]; intros opts.
  - destruct opts; reflexivity.
  - destruct b; cbn [renderArgs flat_map fst snd app readArgs].
    + change (eqs (js "--layout") (js "--layout")) with true. cbv iota.
      fold (renderArgs pairs). rewrite IH. cbn [raw_layout raw_out lastOf].
      destruct (lastOf true pairs), (lastOf false pairs); reflexivity.
    + change (eqs (js "--out") (js "--layout")) with false.
      change (eqs (js "--out") (js "--out")) with true. cbv iota.
      fold (renderArgs pairs). rewrite IH. cbn [raw_layout raw_out lastOf].
      destruct (lastOf true pairs), (lastOf false pairs); reflexivity.
Qed.

(** X1: for arguments that are pairs of a known option and a value, the last
    [--layout] and the last [--out] count, [out/merged.svg] is the output
    without an [--out], and a missing or empty layout path ends the process
    with the usage message and code 2. *)
Theorem arguments_last_wins (pairs : list (bool * jsstring)) :
  parseArgs (renderArgs pairs) =
  match lastOf true pairs with
  | Some (c :: p) =>
      inr {| raw_layout := Some (c :: p);
             raw_out := Some (match lastOf false pairs with
                              | Some o => o
                              | None => js "out/merged.svg"
                              end) |}
  | _ => inl ([js "Missing --layout argument"; usageLine], 2)
  end.
Proof.
  unfold parseArgs. rewrite readArgs_pairs. cbn [raw_layout raw_out].
  destruct (lastOf true pairs) as [[|c p]|]; cbn [truthyS]; try reflexivity.
  destruct (lastOf false pairs); reflexivity.
Qed.

Lemma readArgs_app_pairs (pairs : list (bool * jsstring)) (argv : list jsstring) :
  forall opts,
  readArgs (renderArgs pairs ++ argv) opts =
  readArgs argv {| raw_layout := match lastOf true pairs with
                                 | Some v => Some v | None => raw_layout opts end;
                   raw_out := match lastOf false pairs with
                              | Some v => Some v | None => raw_out opts end |}.
Proof.
  induction pairs as [|[b v] pairs IH]; intros opts.
  - destruct opts; reflexivity.
  - destruct b; cbn [renderArgs flat_map fst snd app readArgs].
    + change (eqs (js "--layout") (js "--layout")) with true. cbv iota.
      fold (renderArgs pairs). rewrite IH. cbn [raw_layout raw_out lastOf].
      destruct (lastOf true pairs), (lastOf false pairs); reflexivity.
    + change (eqs (js "--out") (js "--layout")) with false.
      change (eqs (js "--out") (js "--out")) with true. cbv iota.
      fold (renderArgs pairs). rewrite IH. cbn [raw_layout raw_out lastOf].
      destruct (lastOf true pairs), (lastOf false pairs); reflexivity.
Qed.

(** X2: an argument in the place of an option that is neither [--layout] nor
    [--out] ends the process at once with code 2, whatever precedes and
    follows it; an option that ends the arguments without a value leaves its
    value undefined, so a trailing [--layout] always ends in the usage
    message, even after a layout path was given. *)
Theorem arguments_rejected (pairs : list (bool * jsstring)) (a : jsstring)
    (rest : list jsstring) :
  eqs a (js "--layout") = false -> eqs a (js "--out") = false ->
  parseArgs (renderArgs pairs ++ a :: rest)
    = inl ([js "Unknown option: " ++ a; usageLine], 2)
  /\ parseArgs (renderArgs pairs ++ [js "--layout"])
     = inl ([js "Missing --layout argument"; usageLine], 2).
Proof.
  intros H1 H2. unfold parseArgs. rewrite !readArgs_app_pairs. split.
  - cbn [readArgs]. rewrite H1, H2. reflexivity.
  - cbn [readArgs]. change (eqs (js "--layout") (js "--layout")) with true. reflexivity.
Qed.

Lemma arguments_rejected_witness :
  parseArgs (renderArgs [(true, js "a.json")] ++ js "--verbose" :: [js "x"])
    = inl ([js "Unknown option: " ++ js "--verbose"; usageLine], 2)
  /\ parseArgs (renderArgs [(true, js "a.json")] ++ [js "--layout"])
     = inl ([js "Missing --layout argument"; usageLine], 2).
Proof.
  apply (arguments_rejected [(true, js "a.json")] (js "--verbose") [js "x"]);
    reflexivity.
Defined.

Lemma parseArgs_code (argv : list jsstring) (lines : list jsstring) (code : Z) :
  parseArgs argv = inl (lines, code) -> code = 2.
Proof.
  unfold parseArgs.
  assert (R : forall argv opts lines code,
             readArgs argv opts = inl (lines, code) -> code = 2).
  { clear. fix IH 1. intros argv opts lines code. destruct argv as [|a argv']; simpl.
    - discriminate.
    - destruct (eqs a (js "--layout")).
      + destruct argv' as [|v argv'']; [discriminate | apply IH].
      + destruct (eqs a (js "--out")).
        * destruct argv' as [|v argv'']; [discriminate | apply IH].
        * intros H. injection H as _ <-. reflexivity. }
  destruct (readArgs argv _) as [[l c]|opts] eqn:E.
  - intros H. injection H as _ <-. exact (R _ _ _ _ E).
  - destruct (truthyS (raw_layout opts)); [discriminate|].
    intros H. injection H as _ <-. reflexivity.
Qed.

(** X3: the script ends with code 0 or 2, never with the code 1 that
    [usageAndExit] keeps for a call without message; it ends with 0 exactly
    when it wrote the output file, and then the arguments gave a layout path
    and an output path, the layout was read, and the directory and the file
    could be written. *)
Theorem exit_codes (host : Host) (argv : list jsstring) :
  (exitCode (cli host argv) = 0 \/ exitCode (cli host argv) = 2)
  /\ (exitCode (cli host argv) = 0 <-> written (cli host argv) <> None)
  /\ (exitCode (cli host argv) = 0 ->
      exists layoutArg out layout,
        parseArgs argv = inr {| raw_layout := Some layoutArg; raw_out := Some out |}
        /\ readLayout host (resolve host [layoutArg]) = Some layout
        /\ mkdir host (dirname host (resolve host [out])) = true
        /\ written (cli host argv)
           = Some (resolve host [out],
                   document layout (survivors (processElement host) (elementsOf layout)))
        /\ writeFile host (resolve host [out])
             (document layout (survivors (processElement host) (elementsOf layout)))
           = true).
Proof.
  unfold cli. destruct (parseArgs argv) as [[lines code]|[[layoutArg|] [out|]]] eqn:E;
    cbn [raw_out raw_layout].
  - apply parseArgs_code in E. subst code. cbn [exitCode written].
    split; [right; reflexivity|]. split; [split; [discriminate | congruence]|discriminate].
  - unfold main, script. cbn [opt_layout opt_out].
    destruct (readLayout host (resolve host [layoutArg])) as [layout|] eqn:El.
    + rewrite compose_spec.
      destruct (mkdir host _) eqn:Em; cbn [andb].
      * destruct (writeFile host _ _) eqn:Ew; cbn [exitCode written].
        -- split; [left; reflexivity|]. split; [split; [discriminate|reflexivity]|].
           intros _. exists layoutArg, out, layout. repeat split; auto.
        -- split; [right; reflexivity|].
           split; [split; [discriminate | congruence]|discriminate].
      * cbn [exitCode written]. split; [right; reflexivity|].
        split; [split; [discriminate | congruence]|discriminate].
    + cbn [exitCode written]. split; [right; reflexivity|].
      split; [split; [discriminate | congruence]|discriminate].
  - destruct (readLayout host _) as [layout|].
    + rewrite compose_spec. cbn [exitCode written]. split; [right; reflexivity|].
      split; [split; [discriminate | congruence]|discriminate].
    + cbn [exitCode written]. split; [right; reflexivity|].
      split; [split; [discriminate | congruence]|discriminate].
  - unfold parseArgs in E. destruct (readArgs argv _) as [e|o]; [discriminate|].
    destruct (truthyS (raw_layout o)) eqn:T; [|discriminate].
    injection E as ->. discriminate.
  - unfold parseArgs in E. destruct (readArgs argv _) as [e|o]; [discriminate|].
    destruct (truthyS (raw_layout o)) eqn:T; [|discriminate].
    injection E as ->. discriminate.
Qed.

Lemma exit_codes_witness :
  exists layoutArg out layout,
    parseArgs [js "--layout"; js "l.json"]
      = inr {| raw_layout := Some layoutArg; raw_out := Some out |}
    /\ readLayout (offlineHost sampleLayout)
         (resolve (offlineHost sampleLayout) [layoutArg]) = Some layout
    /\ mkdir (offlineHost sampleLayout)
         (dirname (offlineHost sampleLayout) (resolve (offlineHost sampleLayout) [out]))
       = true
    /\ written (cli (offlineHost sampleLayout) [js "--layout"; js "l.json"])
       = Some (resolve (offlineHost sampleLayout) [out],
               document layout
                 (survivors (processElement (offlineHost sampleLayout))
                            (elementsOf layout)))
    /\ writeFile (offlineHost sampleLayout) (resolve (offlineHost sampleLayout) [out])
         (document layout
            (survivors (processElement (offlineHost sampleLayout)) (elementsOf layout)))
       = true.
Proof.
  apply (proj2 (proj2 (exit_codes (offlineHost sampleLayout)
                         [js "--layout"; js "l.json"]))).
  vm_compute. reflexivity.
Defined.

(* ================================================================== *)
(** ** What the sanitizer leaves alone *)

Lemma startsWithF_lit (f : flags) (l : jsstring) : forall s a,
  startsWith l s = true -> litEq f s a = true -> startsWithF f l a = true.
Proof.
  induction l as [|c l IH]; intros s a Hs Ha; [reflexivity|].
  destruct s as [|d s]; [discriminate|]. destruct a as [|x a]; [discriminate|].
  simpl in *. apply andb_true_iff in Hs, Ha. destruct Hs as [Hc Hs], Ha as [Hd Ha].
  apply Z.eqb_eq in Hc. subst d. rewrite Hd. simpl. exact (IH _ _ Hs Ha).
Qed.

Lemma includesF_lit (f : flags) (l : jsstring) : forall s a,
  includes l s = true -> litEq f s a = true -> includesF f l a = true.
Proof.
  induction s as [|d s IH]; intros a Hs Ha.
  - destruct a; [|discriminate]. simpl in Hs. rewrite orb_false_r in Hs.
    destruct l; [reflexivity | discriminate].
  - destruct a as [|x a]; [discriminate|].
    cbn [includes] in Hs. apply orb_true_iff in Hs. cbn [includesF].
    destruct Hs as [Hs|Hs].
    + rewrite (startsWithF_lit f l _ _ Hs Ha). reflexivity.
    + cbn [litEq] in Ha. apply andb_true_iff in Ha. rewrite (IH _ Hs (proj2 Ha)).
      apply orb_true_r.
Qed.

Lemma startsWithF_app (f : flags) (l : jsstring) : forall a b,
  startsWithF f l a = true -> startsWithF f l (a ++ b) = true.
Proof.
  induction l as [|c l IH]; intros a b H; [reflexivity|].
  destruct a as [|d a]; [discriminate|]. simpl in *.
  apply andb_true_iff in H. destruct H as [-> H]. simpl. exact (IH _ _ H).
Qed.

Lemma includesF_app_l (f : flags) (l a b : jsstring) :
  includesF f l a = true -> includesF f l (a ++ b) = true.
Proof.
  induction a as [|d a IH]; intros H.
  - simpl in H. rewrite orb_false_r in H. destruct l; [|discriminate].
    destruct b; reflexivity.
  - cbn [includesF] in H. apply orb_true_iff in H. cbn [app includesF].
    destruct H as [H|H].
    + pose proof (startsWithF_app f l (d :: a) b H) as S. cbn [app] in S.
      rewrite S. reflexivity.
    + rewrite (IH H). apply orb_true_r.
Qed.

Lemma includesF_app_r (f : flags) (l a b : jsstring) :
  includesF f l b = true -> includesF f l (a ++ b) = true.
Proof.
  induction a as [|d a IH]; intros H; [exact H|].
  cbn [app includesF]. rewrite (IH H). apply orb_true_r.
Qed.

(** What a match reads is a part of the text, and it holds the literals the
    pattern cannot do without. *)
Lemma m_reads (f : flags) (l : jsstring) (r : re) : forall st k e,
  m f r st k = Some e ->
  exists a st', rest st = a ++ rest st' /\ k st' = Some e
                /\ (mustHold l r = true -> includesF f l a = true).
Proof.
  induction r as [s | c | a IHa b IHb | a IHa b IHb | c | c | c | a IHa | n a IHa | n | | |];
    intros st k e H; simpl in H.
  - apply mLit_some in H. destruct H as (x & y & Hr & Hx & H).
    exists x, (after (pos st) (prev st) x y (caps st)). split; [exact Hr|].
    split; [exact H|]. intros Hm. exact (includesF_lit f l _ _ Hm Hx).
  - unfold step in H. destruct (rest st) as [|d s] eqn:Er; [discriminate|].
    destruct (inCls f c d); [|discriminate].
    eexists [d], _. split; [|split; [exact H | discriminate]]. reflexivity.
  - apply IHa in H. destruct H as (x & st1 & Hr1 & H & M1).
    apply IHb in H. destruct H as (y & st2 & Hr2 & H & M2).
    exists (x ++ y), st2. split; [rewrite Hr1, Hr2, app_assoc; reflexivity|].
    split; [exact H|]. cbn [mustHold]. intros Hm. apply orb_true_iff in Hm.
    destruct Hm as [Hm|Hm];
      [apply includesF_app_l; auto | apply includesF_app_r; auto].
  - cbn [mustHold]. destruct (m f a st k) eqn:E.
    + injection H as <-. apply IHa in E. destruct E as (x & st1 & Hr & E & M).
      exists x, st1. repeat split; auto. intros Hm. apply andb_true_iff in Hm. tauto.
    + apply IHb in H. destruct H as (x & st1 & Hr & H & M).
      exists x, st1. repeat split; auto. intros Hm. apply andb_true_iff in Hm. tauto.
  - apply mStar_some in H. destruct H as (x & y & Hr & _ & H).
    exists x, (after (pos st) (prev st) x y (caps st)).
    split; [exact Hr | split; [exact H | discriminate]].
  - apply mStarLazy_some in H. destruct H as (x & y & Hr & _ & H).
    exists x, (after (pos st) (prev st) x y (caps st)).
    split; [exact Hr | split; [exact H | discriminate]].
  - unfold step in H. destruct (rest st) as [|d s] eqn:Er; [discriminate|].
    destruct (inCls f c d); [|discriminate]. cbn [pos prev rest caps] in H.
    apply mStar_some in H. destruct H as (x & y & Hr & _ & H).
    exists (d :: x), (after (S (pos st)) (Some d) x y (caps st)).
    split; [simpl; rewrite Hr; reflexivity | split; [exact H | discriminate]].
  - destruct (m f a st _) eqn:E.
    + injection H as <-. apply IHa in E. destruct E as (x & st1 & Hr & E & _).
      destruct (Nat.eqb (pos st1) (pos st)); [discriminate|].
      exists x, st1. split; [exact Hr | split; [exact E | discriminate]].
    + exists [], st. split; [reflexivity | split; [exact H | discriminate]].
  - apply IHa in H. destruct H as (x & st1 & Hr & H & M).
    exists x, (setCap n (firstn (pos st1 - pos st) (rest st)) st1).
    split; [exact Hr | split; [exact H | exact M]].
  - destruct (getCap n (caps st)).
    + apply mLit_some in H. destruct H as (x & y & Hr & _ & H).
      exists x, (after (pos st) (prev st) x y (caps st)).
      split; [exact Hr | split; [exact H | discriminate]].
    + exists [], st. split; [reflexivity | split; [exact H | discriminate]].
  - destruct (atBol f st); [|discriminate]. exists [], st. repeat split; auto. discriminate.
  - destruct (atEol f st); [|discriminate]. exists [], st. repeat split; auto. discriminate.
  - destruct (atWordB st); [|discriminate]. exists [], st. repeat split; auto. discriminate.
Qed.

(** A pattern finds nothing in a text that lacks one of its literals. *)
Lemma search_needs_literal (f : flags) (l : jsstring) (r : re) (s : jsstring) :
  mustHold l r = true -> includesF f l s = false -> search f r s = None.
Proof.
  intros Hm Hs. destruct (search f r s) as [x|] eqn:E; [|reflexivity].
  unfold search in E. apply searchFrom_some in E.
  destruct E as (pre & b & e & -> & E & _). unfold matchAt in E.
  apply (m_reads f l) in E. destruct E as (a & st' & Hr & _ & M).
  cbn [after rest] in Hr. rewrite Hr, (includesF_app_r f l pre _
    (includesF_app_l f l a _ (M Hm))) in Hs. discriminate.
Qed.

Lemma removeAll_needs_literal (f : flags) (l : jsstring) (r : re) (s : jsstring) :
  mustHold l r = true -> includesF f l s = false -> removeAll f r s = s.
Proof.
  intros Hm Hs. apply removeAllFrom_no_match.
  exact (search_needs_literal f l r s Hm Hs).
Qed.

(** X4: markup in which the word [animation] does not occur, or in which
    [0s] does not occur (in any letter case), leaves the sanitizer as it came. *)
Theorem sanitizer_leaves_plain_markup (markup : jsstring) :
  includesF fl_im (js "animation") markup = false
  \/ includesF fl_im (js "0s") markup = false ->
  sanitizeAnimationOverrides markup = markup.
Proof.
  intros H. destruct markup as [|c s]; [reflexivity|].
  unfold sanitizeAnimationOverrides. cbv zeta.
  destruct H as [H|H].
  - rewrite (removeAll_needs_literal fl_im (js "animation") universalAnimBlock _ eq_refl H),
            (removeAll_needs_literal fl_im (js "animation") durationZero _ eq_refl H),
            (removeAll_needs_literal fl_im (js "animation") delayZero _ eq_refl H),
            (removeAll_needs_literal fl_im (js "animation") shorthandZero _ eq_refl H).
    reflexivity.
  - rewrite (removeAll_needs_literal fl_im (js "0s") universalAnimBlock _ eq_refl H),
            (removeAll_needs_literal fl_im (js "0s") durationZero _ eq_refl H),
            (removeAll_needs_literal fl_im (js "0s") delayZero _ eq_refl H),
            (removeAll_needs_literal fl_im (js "0s") shorthandZero _ eq_refl H).
    reflexivity.
Qed.

Lemma sanitizer_leaves_plain_markup_witness :
  sanitizeAnimationOverrides plainMarkup = plainMarkup.
Proof.
  apply (sanitizer_leaves_plain_markup plainMarkup). left. vm_compute. reflexivity.
Defined.

Lemma Subseq_refl (s : jsstring) : Subseq s s.
Proof. induction s; constructor; assumption. Qed.

Lemma Subseq_trans (a b c : jsstring) : Subseq a b -> Subseq b c -> Subseq a c.
Proof.
  intros Hab Hbc. revert a Hab. induction Hbc as [|x b c Hbc IH|x b c Hbc IH]; intros a Hab.
  - exact Hab.
  - inversion Hab; subst.
    + apply Subseq_keep. apply IH. assumption.
    + apply Subseq_drop. apply IH. assumption.
  - apply Subseq_drop. apply IH. exact Hab.
Qed.

Lemma removeAllFrom_subseq (f : flags) (r : re) (s : jsstring) : forall n pv skip,
  Subseq (removeAllFrom f r n pv s skip) s.
Proof.
  induction s as [|c s IH]; intros n pv skip; simpl; [constructor|].
  destruct skip as [|j].
  - destruct (matchAt f r _) as [e|].
    + destruct (pos e - n)%nat; [apply Subseq_keep | apply Subseq_drop]; apply IH.
    + apply Subseq_keep. apply IH.
  - apply Subseq_drop. apply IH.
Qed.

(** The sanitizer only deletes: its result is the markup with some code
    units left out, nothing added, changed or moved. *)
Lemma sanitizer_subseq (markup : jsstring) :
  Subseq (sanitizeAnimationOverrides markup) markup.
Proof.
  destruct markup as [|c s]; [constructor|].
  unfold sanitizeAnimationOverrides, removeAll. cbv zeta.
  eapply Subseq_trans; [apply removeAllFrom_subseq|].
  eapply Subseq_trans; [apply removeAllFrom_subseq|].
  eapply Subseq_trans; [apply removeAllFrom_subseq|].
  apply removeAllFrom_subseq.
Qed.

(* ================================================================== *)
(** ** Inline content, encoded *)

Ltac zbool :=
  repeat match goal with
         | |- context [?a <? ?b] =>
             first [ replace (a <? b) with true by (symmetry; apply Z.ltb_lt; lia)
                   | replace (a <? b) with false by (symmetry; apply Z.ltb_ge; lia) ]
         | |- context [?a <=? ?b] =>
             first [ replace (a <=? b) with true by (symmetry; apply Z.leb_le; lia)
                   | replace (a <=? b) with false by (symmetry; apply Z.leb_gt; lia) ]
         | |- context [?a =? ?b] =>
             first [ replace (a =? b) with true by (symmetry; apply Z.eqb_eq; lia)
                   | replace (a =? b) with false by (symmetry; apply Z.eqb_neq; lia) ]
         end.

Lemma sextets_urlSafe (s : jsstring) : Buffer.sextets (urlSafe s) = Buffer.sextets s.
Proof.
  unfold urlSafe. induction s as [|c s IH]; [reflexivity|].
  cbn [map Buffer.sextets]. rewrite IH.
  destruct (c =? 45) eqn:E1.
  - apply Z.eqb_eq in E1. subst c. reflexivity.
  - destruct (c =? 95) eqn:E2; [|reflexivity].
    apply Z.eqb_eq in E2. subst c. reflexivity.
Qed.

Lemma fromBase64_urlSafe (s : jsstring) :
  Buffer.fromBase64 (urlSafe s) = Buffer.fromBase64 s.
Proof. unfold Buffer.fromBase64. rewrite sextets_urlSafe. reflexivity. Qed.

Lemma tryBase64Decode_reading (s : jsstring) :
  tryBase64Decode s =
  if includes svgMarker (base64Reading s) then base64Reading s else s.
Proof.
  unfold tryBase64Decode, base64Reading. rewrite fromBase64_urlSafe.
  destruct s as [|c s]; [reflexivity|].
  destruct (includes svgMarker _); reflexivity.
Qed.

(** X6: the second attempt of [tryBase64Decode], with the URL-safe alphabet
    mapped to the standard one, never changes the result, since the decoder
    reads both alphabets: the content is taken in its base64 reading when that
    holds the root marker, and as it is otherwise. *)
Theorem url_safe_retry_is_idle (s : jsstring) :
  Buffer.fromBase64 (urlSafe s) = Buffer.fromBase64 s
  /\ tryBase64Decode s =
     if includes svgMarker (base64Reading s) then base64Reading s else s.
Proof. split; [apply fromBase64_urlSafe | apply tryBase64Decode_reading]. Qed.

Lemma unbase64_b64char_check :
  forallb (fun v => match Buffer.unbase64 (b64char v mod 256) with
                    | Some w => w =? v
                    | None => false
                    end) (map Z.of_nat (seq 0 64)) = true.
Proof. vm_compute. reflexivity. Qed.

Lemma unbase64_b64char (v : Z) :
  0 <= v < 64 -> Buffer.unbase64 (b64char v mod 256) = Some v.
Proof.
  intros H.
  assert (I : In v (map Z.of_nat (seq 0 64))).
  { apply in_map_iff. exists (Z.to_nat v). split; [lia|]. apply in_seq. lia. }
  pose proof (proj1 (forallb_forall _ _) unbase64_b64char_check v I) as P.
  cbv beta in P. destruct (Buffer.unbase64 (b64char v mod 256)) as [w|]; [|discriminate].
  apply Z.eqb_eq in P. subst. reflexivity.
Qed.

Lemma base64_round_trip (n : nat) : forall bytes,
  (List.length bytes <= n)%nat ->
  Forall (fun b => 0 <= b < 256) bytes ->
  Buffer.fromBase64 (base64Encode bytes) = bytes.
Proof.
  unfold Buffer.fromBase64.
  induction n as [|n IH]; intros bytes L F.
  - destruct bytes; [reflexivity | simpl in L; lia].
  - destruct bytes as [|a [|b [|c rest]]].
    + reflexivity.
    + inversion F as [|? ? Ha _]; subst.
      cbn [base64Encode Buffer.sextets].
      rewrite !unbase64_b64char by (pose proof (Z.mod_pos_bound a 4);
        pose proof (Z.div_pos a 4); Z.div_mod_to_equations; lia).
      cbn. f_equal. Z.div_mod_to_equations; lia.
    + inversion F as [|? ? Ha F1]; subst. inversion F1 as [|? ? Hb _]; subst.
      cbn [base64Encode Buffer.sextets].
      rewrite !unbase64_b64char by (Z.div_mod_to_equations; lia).
      cbn. f_equal; [|f_equal]; Z.div_mod_to_equations; lia.
    + inversion F as [|? ? Ha F1]; subst. inversion F1 as [|? ? Hb F2]; subst.
      inversion F2 as [|? ? Hc F3]; subst.
      cbn [base64Encode Buffer.sextets].
      rewrite !unbase64_b64char by (Z.div_mod_to_equations; lia).
      cbn [Buffer.bytesOf]. rewrite IH; [|simpl in L; lia | exact F3].
      f_equal; [|f_equal; [|f_equal]]; Z.div_mod_to_equations; lia.
Qed.

Lemma toStringUtf8_cons (b0 : Z) (t0 : list Z) :
  Buffer.toStringUtf8 (b0 :: t0) =
  if b0 <? 128 then b0 :: Buffer.toStringUtf8 t0
  else if (194 <=? b0) && (b0 <=? 223) then
    match t0 with
    | b1 :: t1 =>
        if Buffer.isCont b1 then ((b0 - 192) * 64 + (b1 - 128)) :: Buffer.toStringUtf8 t1
        else Buffer.replacement :: Buffer.toStringUtf8 t0
    | [] => [Buffer.replacement]
    end
  else if (224 <=? b0) && (b0 <=? 239) then
    match t0 with
    | b1 :: t1 =>
        if ((if b0 =? 224 then 160 else 128) <=? b1)
           && (b1 <=? (if b0 =? 237 then 159 else 191)) then
          match t1 with
          | b2 :: t2 =>
              if Buffer.isCont b2 then
                ((b0 - 224) * 4096 + (b1 - 128) * 64 + (b2 - 128)) :: Buffer.toStringUtf8 t2
              else Buffer.replacement :: Buffer.toStringUtf8 t1
          | [] => [Buffer.replacement]
          end
        else Buffer.replacement :: Buffer.toStringUtf8 t0
    | [] => [Buffer.replacement]
    end
  else if (240 <=? b0) && (b0 <=? 244) then
    match t0 with
    | b1 :: t1 =>
        if ((if b0 =? 240 then 144 else 128) <=? b1)
           && (b1 <=? (if b0 =? 244 then 143 else 191)) then
          match t1 with
          | b2 :: t2 =>
              if Buffer.isCont b2 then
                match t2 with
                | b3 :: t3 =>
                    if Buffer.isCont b3 then
                      Buffer.utf16 ((b0 - 240) * 262144 + (b1 - 128) * 4096
                                    + (b2 - 128) * 64 + (b3 - 128))
                        ++ Buffer.toStringUtf8 t3
                    else Buffer.replacement :: Buffer.toStringUtf8 t2
                | [] => [Buffer.replacement]
                end
              else Buffer.replacement :: Buffer.toStringUtf8 t1
          | [] => [Buffer.replacement]
          end
        else Buffer.replacement :: Buffer.toStringUtf8 t0
    | [] => [Buffer.replacement]
    end
  else Buffer.replacement :: Buffer.toStringUtf8 t0.
Proof. destruct t0 as [|b1 [|b2 [|b3 t3]]]; reflexivity. Qed.

Lemma between_true (a b c : Z) : a <= b <= c -> (a <=? b) && (b <=? c) = true.
Proof. intros H. apply andb_true_iff. split; apply Z.leb_le; lia. Qed.

Lemma between_false (a b c : Z) : b < a \/ c < b -> (a <=? b) && (b <=? c) = false.
Proof. intros H. apply andb_false_iff. destruct H; [left | right]; apply Z.leb_gt; lia. Qed.

Lemma isCont_true (b : Z) : 128 <= b <= 191 -> Buffer.isCont b = true.
Proof. apply between_true. Qed.

Lemma decode1 (b0 : Z) (t : list Z) :
  0 <= b0 < 128 -> Buffer.toStringUtf8 (b0 :: t) = b0 :: Buffer.toStringUtf8 t.
Proof.
  intros H. rewrite toStringUtf8_cons.
  replace (b0 <? 128) with true by (symmetry; apply Z.ltb_lt; lia). reflexivity.
Qed.

Lemma decode2 (b0 b1 : Z) (t : list Z) :
  194 <= b0 <= 223 -> 128 <= b1 <= 191 ->
  Buffer.toStringUtf8 (b0 :: b1 :: t)
  = ((b0 - 192) * 64 + (b1 - 128)) :: Buffer.toStringUtf8 t.
Proof.
  intros H0 H1. rewrite toStringUtf8_cons.
  replace (b0 <? 128) with false by (symmetry; apply Z.ltb_ge; lia).
  rewrite (between_true 194 b0 223 H0), (isCont_true b1 H1). reflexivity.
Qed.

Lemma decode3 (b0 b1 b2 : Z) (t : list Z) :
  224 <= b0 <= 239 ->
  (if b0 =? 224 then 160 else 128) <= b1 <= (if b0 =? 237 then 159 else 191) ->
  128 <= b2 <= 191 ->
  Buffer.toStringUtf8 (b0 :: b1 :: b2 :: t)
  = ((b0 - 224) * 4096 + (b1 - 128) * 64 + (b2 - 128)) :: Buffer.toStringUtf8 t.
Proof.
  intros H0 H1 H2. rewrite toStringUtf8_cons.
  replace (b0 <? 128) with false by (symmetry; apply Z.ltb_ge; lia).
  rewrite (between_false 194 b0 223) by lia.
  rewrite (between_true 224 b0 239 H0), (between_true _ b1 _ H1), (isCont_true b2 H2).
  reflexivity.
Qed.

Lemma decode4 (b0 b1 b2 b3 : Z) (t : list Z) :
  240 <= b0 <= 244 ->
  (if b0 =? 240 then 144 else 128) <= b1 <= (if b0 =? 244 then 143 else 191) ->
  128 <= b2 <= 191 -> 128 <= b3 <= 191 ->
  Buffer.toStringUtf8 (b0 :: b1 :: b2 :: b3 :: t)
  = Buffer.utf16 ((b0 - 240) * 262144 + (b1 - 128) * 4096 + (b2 - 128) * 64 + (b3 - 128))
    ++ Buffer.toStringUtf8 t.
Proof.
  intros H0 H1 H2 H3. rewrite toStringUtf8_cons.
  replace (b0 <? 128) with false by (symmetry; apply Z.ltb_ge; lia).
  rewrite (between_false 194 b0 223) by lia.
  rewrite (between_false 224 b0 239) by lia.
  rewrite (between_true 240 b0 244 H0), (between_true _ b1 _ H1),
    (isCont_true b2 H2), (isCont_true b3 H3).
  reflexivity.
Qed.

Lemma utf8Encode_bytes (n : nat) : forall s,
  (List.length s <= n)%nat -> wellFormed s = true ->
  Forall (fun b => 0 <= b < 256) (utf8Encode s).
Proof.
  induction n as [|n IH]; intros s L W.
  - destruct s; [constructor | simpl in L; lia].
  - destruct s as [|c s]; [constructor|].
    cbn [wellFormed] in W. cbn [utf8Encode].
    destruct (isHigh c) eqn:Hh.
    + destruct s as [|d s]; [discriminate|].
      apply andb_true_iff in W. destruct W as [Hl W]. rewrite Hl.
      unfold isHigh, isLow in Hh, Hl. bool_to_prop Hh. bool_to_prop Hl.
      zbool. cbv zeta.
      repeat (constructor; [Z.div_mod_to_equations; lia|]).
      apply IH; [simpl in L; lia | exact W].
    + rewrite !andb_true_iff in W. destruct W as [[[W0 W1] Wl] W].
      apply negb_true_iff in Wl. rewrite Wl.
      apply Z.leb_le in W0, W1.
      assert (T : Forall (fun b => 0 <= b < 256) (utf8Encode s))
        by (apply IH; [simpl in L; lia | exact W]).
      destruct (c <? 128) eqn:E1; [apply Z.ltb_lt in E1; constructor; [lia | exact T]|].
      apply Z.ltb_ge in E1.
      destruct (c <? 2048) eqn:E2.
      * apply Z.ltb_lt in E2.
        repeat (constructor; [Z.div_mod_to_equations; lia|]). exact T.
      * apply Z.ltb_ge in E2.
        repeat (constructor; [Z.div_mod_to_equations; lia|]). exact T.
Qed.

Lemma utf8_round_trip (n : nat) : forall s,
  (List.length s <= n)%nat -> wellFormed s = true ->
  Buffer.toStringUtf8 (utf8Encode s) = s.
Proof.
  induction n as [|n IH]; intros s L W.
  - destruct s; [reflexivity | simpl in L; lia].
  - destruct s as [|c s]; [reflexivity|].
    cbn [wellFormed] in W. cbn [utf8Encode].
    destruct (isHigh c) eqn:Hh.
    + destruct s as [|d s]; [discriminate|].
      apply andb_true_iff in W. destruct W as [Hl W]. rewrite Hl.
      unfold isHigh, isLow in Hh, Hl. bool_to_prop Hh. bool_to_prop Hl.
      zbool. cbv zeta.
      rewrite decode4.
      * rewrite IH by (simpl in L; lia || exact W).
        unfold Buffer.utf16.
        replace (_ <? 65536) with false
          by (symmetry; apply Z.ltb_ge; Z.div_mod_to_equations; lia).
        cbn [app]. f_equal; [|f_equal]; Z.div_mod_to_equations; lia.
      * Z.div_mod_to_equations; lia.
      * destruct (Z.eqb_spec (240 + (65536 + (c - 55296) * 1024 + (d - 56320)) / 262144) 240);
          destruct (Z.eqb_spec (240 + (65536 + (c - 55296) * 1024 + (d - 56320)) / 262144) 244);
          Z.div_mod_to_equations; lia.
      * Z.div_mod_to_equations; lia.
      * Z.div_mod_to_equations; lia.
    + rewrite !andb_true_iff in W. destruct W as [[[W0 W1] Wl] W].
      apply negb_true_iff in Wl. rewrite Wl.
      apply Z.leb_le in W0, W1.
      assert (T : Buffer.toStringUtf8 (utf8Encode s) = s)
        by (apply IH; [simpl in L; lia | exact W]).
      unfold isHigh in Hh. unfold isLow in Wl.
      destruct (c <? 128) eqn:E1.
      { apply Z.ltb_lt in E1. rewrite decode1 by lia. rewrite T. reflexivity. }
      apply Z.ltb_ge in E1.
      destruct (c <? 2048) eqn:E2.
      { apply Z.ltb_lt in E2.
        rewrite decode2 by (Z.div_mod_to_equations; lia).
        rewrite T. f_equal. Z.div_mod_to_equations; lia. }
      apply Z.ltb_ge in E2.
      assert (S : c < 55296 \/ 57343 < c).
      { destruct (Z.leb_spec 55296 c); [|lia]. destruct (Z.leb_spec c 56319).
        - cbn in Hh. discriminate.
        - destruct (Z.leb_spec 56320 c); [|lia]. destruct (Z.leb_spec c 57343); [|lia].
          cbn in Wl. discriminate. }
      rewrite decode3.
      * rewrite T. f_equal. Z.div_mod_to_equations; lia.
      * Z.div_mod_to_equations; lia.
      * destruct (Z.eqb_spec (224 + c / 4096) 224);
          destruct (Z.eqb_spec (224 + c / 4096) 237);
          Z.div_mod_to_equations; lia.
      * Z.div_mod_to_equations; lia.
Qed.

(** X7: inline content given as the padded base64 of the UTF-8 bytes of an SVG
    text is read back as exactly that text, whatever characters it holds, as
    long as its surrogates are paired and it holds the root marker. *)
Theorem encoded_content_round_trip (s : jsstring) :
  wellFormed s = true -> includes svgMarker s = true ->
  tryBase64Decode (base64Encode (utf8Encode s)) = s.
Proof.
  intros W I. rewrite tryBase64Decode_reading. unfold base64Reading.
  rewrite (base64_round_trip (List.length (utf8Encode s)))
    by (try apply (utf8Encode_bytes (List.length s)); auto).
  rewrite (utf8_round_trip (List.length s)) by auto.
  rewrite I. reflexivity.
Qed.

Lemma encoded_content_round_trip_witness :
  tryBase64Decode (base64Encode (utf8Encode unicodeSvg)) = unicodeSvg.
Proof. apply encoded_content_round_trip; vm_compute; reflexivity. Defined.

(* ================================================================== *)
(** ** What the resolver hands on *)

Lemma accept_marker (txt : option jsstring) (t : jsstring) :
  accept txt = Some t -> includes svgMarker t = true.
Proof.
  unfold accept. destruct txt as [x|]; simpl; [|discriminate].
  destruct (includes svgMarker x) eqn:E; [|discriminate].
  intros H. injection H as <-. exact E.
Qed.

Lemma strategies_marker (host : Host) (el : Element) (root t : jsstring) :
  firstSuccess (strategies host el root) = Some t -> includes svgMarker t = true.
Proof.
  unfold strategies. cbn [firstSuccess].
  repeat match goal with
         | |- context [match ?x with Some _ => _ | None => _ end] =>
             lazymatch x with
             | remoteOf _ => destruct x
             | localOf _ => destruct x
             end
         end;
    repeat match goal with
           | |- context [if ?b then accept ?x else None] => destruct b
           end;
    repeat match goal with
           | |- context [accept ?x] =>
               let E := fresh "E" in
               destruct (accept x) eqn:E;
               [intros H; injection H as <-; exact (accept_marker _ _ E)|]
           end;
    try discriminate.
Qed.

(** X8: whatever the network and the file system answer, the resolver hands
    on either a text that holds the root marker or the inline content of the
    element exactly as the layout gives it. *)
Theorem resolved_text_has_marker_or_is_inline
    (host : Host) (el : Element) (root : jsstring) :
  includes svgMarker (resolveSvgSource host el root) = true
  \/ resolveSvgSource host el root = inlineOf el.
Proof.
  rewrite resolveSvgSource_strategies.
  destruct (firstSuccess (strategies host el root)) as [t|] eqn:E.
  - left. exact (strategies_marker host el root t E).
  - rewrite <- inlineStrategy_spec, tryBase64Decode_reading.
    destruct (includes svgMarker (base64Reading (inlineOf el))) eqn:I;
      [left; exact I | right; reflexivity].
Qed.

(* ================================================================== *)
(** ** Reading a data URI *)

Lemma mStarLazy_none p n pv r cs k :
  mStarLazy p n pv r cs k = None ->
  forall a b, r = a ++ b -> forallb p a = true -> k (after n pv a b cs) = None.
Proof.
  revert n pv. induction r as [|c r IH]; intros n pv H a b Hr Ha; simpl in H.
  - destruct a; [|discriminate]. simpl in Hr. subst b. rewrite after_nil.
    destruct (k _); [discriminate | reflexivity].
  - destruct (k {| pos := n; prev := pv; rest := c :: r; caps := cs |}) eqn:Ek;
      [discriminate|].
    destruct a as [|d a].
    + simpl in Hr. subst b. rewrite after_nil. exact Ek.
    + simpl in Hr. injection Hr as <- ->. simpl in Ha. apply andb_true_iff in Ha.
      destruct Ha as [Hc Ha]. rewrite Hc in H. rewrite after_cons.
      exact (IH _ _ H a b eq_refl Ha).
Qed.

Lemma comma_class c : inCls fl_i (Except (SChr 44)) c = negb (c =? 44).
Proof.
  unfold inCls, inSetF. cbn [ignoreCase fl_i inSet]. f_equal.
  destruct (upper_cases c) as [[? ->]|[? ->]], (lower_cases c) as [[? ->]|[? ->]];
    destruct (c =? 44) eqn:E; simpl; try reflexivity;
    repeat match goal with |- context [?a =? ?b] => destruct (Z.eqb_spec a b); simpl end;
    try reflexivity; lia.
Qed.

Lemma dot_class c : inCls fl_i dot c = negb (isLineTerminator c).
Proof.
  unfold inCls, dot, inSetF, isLineTerminator. cbn [ignoreCase fl_i inSet].
  unfold isLineTerminator. f_equal.
  destruct (upper_cases c) as [[? ->]|[? ->]], (lower_cases c) as [[? ->]|[? ->]];
    repeat match goal with |- context [?a =? ?b] => destruct (Z.eqb_spec a b); simpl end;
    try reflexivity; lia.
Qed.

Lemma noComma_class a : forallb (inCls fl_i (Except (SChr 44))) a = noComma a.
Proof. apply forallb_ext_eq. exact comma_class. Qed.

Lemma noBreak_class a : forallb (inCls fl_i dot) a = noBreak a.
Proof. apply forallb_ext_eq. exact dot_class. Qed.

Lemma eqChar_comma c : eqChar fl_i 44 c = true -> c = 44.
Proof.
  unfold eqChar. cbn [ignoreCase fl_i]. change (upper 44) with 44.
  intros H. apply Z.eqb_eq in H. destruct (upper_cases c) as [[R E]|[R E]]; lia.
Qed.

Lemma noComma_split a post a' post' :
  noComma a = true -> noComma a' = true -> a ++ 44 :: post = a' ++ 44 :: post' ->
  a = a' /\ post = post'.
Proof.
  revert a'. induction a as [|c a IH]; intros [|c' a'] Ha Ha' H; simpl in *.
  - injection H as ->. auto.
  - injection H as <- _. discriminate.
  - injection H as -> _. discriminate.
  - injection H as <- H. apply andb_true_iff in Ha, Ha'.
    destruct (IH a' (proj2 Ha) (proj2 Ha') H) as [-> ->]. auto.
Qed.

Lemma dataUri_unfold st :
  matchAt fl_i (Lit "data:" ;; Grp 1 (StarLazy (Except (SChr 44))) ;; Lit "," ;;
                Grp 2 (Star dot) ;; Eol) st =
  mLit fl_i (js "data:") st (fun st1 =>
    mStarLazy (inCls fl_i (Except (SChr 44))) (pos st1) (prev st1) (rest st1) (caps st1)
      (fun st2 =>
         mLit fl_i [44] (setCap 1 (firstn (pos st2 - pos st1) (rest st1)) st2)
           (fun st3 =>
              mStar (inCls fl_i dot) (pos st3) (prev st3) (rest st3) (caps st3)
                (fun st4 =>
                   if atEol fl_i (setCap 2 (firstn (pos st4 - pos st3) (rest st3)) st4)
                   then Some (setCap 2 (firstn (pos st4 - pos st3) (rest st3)) st4)
                   else None)))).
Proof. reflexivity. Qed.

Lemma dataUri_sound st e :
  matchAt fl_i (Lit "data:" ;; Grp 1 (StarLazy (Except (SChr 44))) ;; Lit "," ;;
                Grp 2 (Star dot) ;; Eol) st = Some e ->
  exists scheme meta data,
    rest st = scheme ++ meta ++ 44 :: data
    /\ litEq fl_i (js "data:") scheme = true
    /\ noComma meta = true /\ noBreak data = true
    /\ getCap 1 (caps e) = Some meta /\ getCap 2 (caps e) = Some data.
Proof.
  rewrite dataUri_unfold. intros H.
  apply mLit_some in H. destruct H as (p & b & Hr & Hp & H).
  apply mStarLazy_some in H. cbn [after pos prev rest caps] in H.
  destruct H as (a & b' & -> & Ha & H).
  apply mLit_some in H. destruct H as (g & post & Hg & Hc & H).
  cbn [after setCap pos prev rest caps] in Hg, H.
  pose proof (litEq_length _ _ _ Hc) as Hlen.
  destruct g as [|c [|? ?]]; try discriminate.
  simpl in Hc. rewrite andb_true_r in Hc. apply eqChar_comma in Hc. subst c.
  simpl in Hg. subst b'.
  apply mStar_some in H. destruct H as (d & b3 & -> & Hd & H).
  cbn [after setCap pos prev rest caps] in H.
  rewrite atEol_fl_i in H. cbn [setCap rest] in H.
  destruct b3 as [|? ?]; [|discriminate]. injection H as <-.
  cbn [setCap after pos caps getCap Nat.eqb].
  rewrite noComma_class in Ha. rewrite noBreak_class in Hd.
  exists p, a, (d ++ []). repeat split; auto.
  - rewrite app_nil_r. exact Hd.
  - f_equal. apply firstn_app_exact. lia.
  - f_equal. rewrite app_nil_r. replace d with (d ++ []) at 2 by apply app_nil_r.
    apply firstn_app_exact. simpl. lia.
Qed.

Lemma dataUri_complete st scheme meta data :
  rest st = scheme ++ meta ++ 44 :: data ->
  litEq fl_i (js "data:") scheme = true -> noComma meta = true -> noBreak data = true ->
  matchAt fl_i (Lit "data:" ;; Grp 1 (StarLazy (Except (SChr 44))) ;; Lit "," ;;
                Grp 2 (Star dot) ;; Eol) st <> None.
Proof.
  intros Hr Hp Ha Hd H. rewrite dataUri_unfold in H.
  pose proof (mLit_none _ _ _ _ H scheme (meta ++ 44 :: data) Hr Hp) as H1.
  cbn [after pos prev rest caps] in H1.
  rewrite <- noComma_class in Ha.
  pose proof (mStarLazy_none _ _ _ _ _ _ H1 meta (44 :: data) eq_refl Ha) as H2.
  cbn [after setCap pos prev rest caps mLit step] in H2.
  change (eqChar fl_i 44 44) with true in H2. cbv iota in H2.
  rewrite <- noBreak_class in Hd.
  pose proof (mStar_none _ _ _ _ _ _ H2 data [] (eq_sym (app_nil_r data)) Hd) as H3.
  cbn [after setCap pos prev rest caps atEol] in H3. discriminate.
Qed.

Lemma matchAt_lit (f : flags) (l : jsstring) : forall st,
  match mLit f l st (fun e => Some e) with
  | Some _ => true
  | None => false
  end = startsWithF f l (rest st).
Proof.
  induction l as [|c l IH]; intros st; [reflexivity|].
  cbn [mLit startsWithF]. unfold step. destruct (rest st) as [|d s]; [reflexivity|].
  destruct (eqChar f c d); [|reflexivity]. exact (IH _).
Qed.

Lemma searchFrom_lit (f : flags) (l : string) (s : jsstring) : forall n pv,
  match searchFrom f (Lit l) n pv s with
  | Some _ => true
  | None => false
  end = includesF f (js l) s.
Proof.
  induction s as [|c s IH]; intros n pv.
  - cbn [searchFrom includesF]. unfold matchAt. cbn [m].
    pose proof (matchAt_lit f (js l) {| pos := n; prev := pv; rest := []; caps := [] |}) as M.
    cbn [rest] in M. rewrite <- M.
    destruct (mLit f (js l) _ _); reflexivity.
  - cbn [searchFrom includesF]. unfold matchAt. cbn [m].
    pose proof (matchAt_lit f (js l)
                  {| pos := n; prev := pv; rest := c :: s; caps := [] |}) as M.
    cbn [rest] in M. rewrite <- M.
    destruct (mLit f (js l) _ _); [reflexivity|]. exact (IH _ _).
Qed.

Lemma test_lit (f : flags) (l : string) (s : jsstring) :
  test f (Lit l) s = includesF f (js l) s.
Proof. unfold test, search. apply searchFrom_lit. Qed.

(** X9: [decodeDataUri] reads exactly the strings made of [data:] in any
    case, a part without comma, a comma and data free of line breaks.  The
    data are base64 when the part before the comma mentions [;base64] in any
    case, and percent-encoded otherwise; every other string gives null. *)
Theorem data_uri_reading (host : Host) (uri : jsstring) :
  (forall meta data, dataUriOf uri meta data ->
     decodeDataUri host uri =
     if includesF fl_i (js ";base64") meta
     then Some (Buffer.toStringUtf8 (Buffer.fromBase64 data))
     else decodeURIComponent host data)
  /\ ((forall meta data, ~ dataUriOf uri meta data) -> decodeDataUri host uri = None).
Proof.
  unfold decodeDataUri, dataUri. rewrite search_bol by reflexivity.
  split.
  - intros meta data (scheme & Hu & Hs & Hm & Hd).
    destruct (matchAt fl_i _ (start uri)) as [e|] eqn:E.
    + apply dataUri_sound in E.
      destruct E as (scheme' & meta' & data' & Hr & Hs' & Hm' & Hd' & G1 & G2).
      cbn [start rest] in Hr. rewrite Hu in Hr.
      apply app_eq_length in Hr;
        [|rewrite (litEq_length _ _ _ Hs), (litEq_length _ _ _ Hs'); reflexivity].
      destruct Hr as [_ Hr]. apply noComma_split in Hr; auto.
      destruct Hr as [<- <-].
      cbv zeta. unfold group. cbn [groups]. rewrite G1, G2.
      unfold base64Tag. rewrite test_lit. reflexivity.
    + exfalso. revert E. apply (dataUri_complete _ scheme meta data); auto.
  - intros N. destruct (matchAt fl_i _ (start uri)) as [e|] eqn:E; [|reflexivity].
    exfalso. apply dataUri_sound in E.
    destruct E as (scheme & meta & data & Hr & Hs & Hm & Hd & _).
    apply (N meta data). exists scheme. auto.
Qed.

Lemma data_uri_reading_witness :
  decodeDataUri (offlineHost sampleLayout)
    (js "DATA:image/svg+xml;BASE64,PHN2Zz48L3N2Zz4=")
  = Some (js "<svg></svg>")
  /\ decodeDataUri (offlineHost sampleLayout) (js "data:image/svg+xml;base64") = None.
Proof.
  destruct (data_uri_reading (offlineHost sampleLayout)
              (js "DATA:image/svg+xml;BASE64,PHN2Zz48L3N2Zz4=")) as [P _].
  destruct (data_uri_reading (offlineHost sampleLayout)
              (js "data:image/svg+xml;base64")) as [_ N].
  split.
  - apply (P (js "image/svg+xml;BASE64") (js "PHN2Zz48L3N2Zz4=")).
    exists (js "DATA:"). repeat split; vm_compute; reflexivity.
  - apply N. intros meta data (scheme & Hu & _).
    assert (I : In 44 (js "data:image/svg+xml;base64"))
      by (rewrite Hu; apply in_or_app; right; apply in_or_app; right; left; reflexivity).
    vm_compute in I. lia.
Defined.

(* ================================================================== *)
(** ** Running the matcher forwards *)

Lemma mLit_run f l : forall st k a b,
  rest st = a ++ b -> litEq f l a = true ->
  mLit f l st k = k (after (pos st) (prev st) a b (caps st)).
Proof.
  induction l as [|c l IH]; intros st k a b Hr Ha.
  - destruct a; [|discriminate]. rewrite after_nil. simpl in Hr. rewrite <- Hr.
    destruct st; reflexivity.
  - destruct a as [|d a]; [discriminate|]. simpl in Ha. apply andb_true_iff in Ha.
    destruct Ha as [Hc Ha]. cbn [mLit]. unfold step. rewrite Hr. cbn [app].
    rewrite Hc, after_cons.
    exact (IH {| pos := S (pos st); prev := Some d; rest := a ++ b; caps := caps st |}
              k a b eq_refl Ha).
Qed.

Lemma mLit_fail f l : forall st k,
  startsWithF f l (rest st) = false -> mLit f l st k = None.
Proof.
  induction l as [|c l IH]; intros st k H; [discriminate|].
  cbn [mLit]. unfold step. cbn [startsWithF] in H.
  destruct (rest st) as [|d s]; [reflexivity|].
  destruct (eqChar f c d); [|reflexivity]. apply IH. exact H.
Qed.

Lemma mStar_longest p : forall a n pv b cs k e,
  forallb p a = true ->
  match b with [] => True | c :: _ => p c = false end ->
  k (after n pv a b cs) = Some e ->
  mStar p n pv (a ++ b) cs k = Some e.
Proof.
  induction a as [|c a IH]; intros n pv b cs k e Ha Hb Hk.
  - rewrite after_nil in Hk. destruct b as [|d b]; cbn [app mStar]; [exact Hk|].
    rewrite Hb. exact Hk.
  - simpl in Ha. apply andb_true_iff in Ha. destruct Ha as [Hc Ha].
    cbn [app mStar]. rewrite Hc. rewrite after_cons in Hk.
    rewrite (IH _ _ _ _ _ _ Ha Hb Hk). reflexivity.
Qed.

Lemma mStarLazy_first p : forall a n pv b cs k e,
  forallb p a = true ->
  (forall a1 c a2, a = a1 ++ c :: a2 -> k (after n pv a1 (c :: a2 ++ b) cs) = None) ->
  k (after n pv a b cs) = Some e ->
  mStarLazy p n pv (a ++ b) cs k = Some e.
Proof.
  induction a as [|c a IH]; intros n pv b cs k e Ha Hn Hk.
  - rewrite after_nil in Hk. destruct b as [|d b]; cbn [app mStarLazy];
      rewrite Hk; reflexivity.
  - simpl in Ha. apply andb_true_iff in Ha. destruct Ha as [Hc Ha].
    cbn [app mStarLazy].
    pose proof (Hn [] c a eq_refl) as H0. rewrite after_nil in H0. cbn [app] in H0.
    rewrite H0, Hc. rewrite after_cons in Hk.
    apply IH; [exact Ha | | exact Hk].
    intros a1 c' a2 E. rewrite <- (after_cons n pv c a1). apply Hn. rewrite E. reflexivity.
Qed.

Lemma skipn_app_exact {A} (a b : list A) n : n = List.length a -> skipn n (a ++ b) = b.
Proof. intros ->. revert b. induction a; intros b; [reflexivity | exact (IHa b)]. Qed.

Lemma trimStart_split (s : jsstring) :
  exists pre, s = pre ++ trimStart s /\ allSpace pre = true.
Proof.
  induction s as [|a s (pre & IH & Hp)]; simpl; [exists []; auto|].
  destruct (isSpace a) eqn:E.
  - exists (a :: pre). simpl. rewrite E, Hp. split; [f_equal; exact IH | reflexivity].
  - exists []. auto.
Qed.

Lemma trimStart_app (a b : jsstring) :
  allSpace a = true -> trimStart (a ++ b) = trimStart b.
Proof.
  induction a as [|c a IH]; intros H; [reflexivity|].
  simpl in H. apply andb_true_iff in H. destruct H as [Hc H].
  cbn [app trimStart]. rewrite Hc. exact (IH H).
Qed.

Lemma trimStart_idem (s : jsstring) : trimStart (trimStart s) = trimStart s.
Proof.
  destruct (trimStart s) as [|c r] eqn:E; [reflexivity|].
  apply trimStart_id. exact (trimStart_head _ _ _ E).
Qed.

Lemma head_nonspace (s : jsstring) :
  match trimStart s with [] => True | c :: _ => inCls fl_i space c = false end.
Proof.
  destruct (trimStart s) as [|c r] eqn:E; [exact I|].
  rewrite space_class. exact (trimStart_head _ _ _ E).
Qed.

Lemma forallb_any (a : jsstring) : forallb (inCls fl_i Any) a = true.
Proof. induction a; [reflexivity | exact IHa]. Qed.

Lemma includes_tail (p a b : jsstring) :
  includes p (a ++ b) = false -> includes p b = false.
Proof.
  induction a as [|c a IH]; intros H; [exact H|].
  cbn [app includes] in H. apply orb_false_iff in H. exact (IH (proj2 H)).
Qed.

Lemma eqChar_exact (a c : Z) :
  a < 65 \/ 122 < a \/ 90 < a < 97 -> eqChar fl_i a c = (a =? c).
Proof.
  intros H. unfold eqChar. cbn [ignoreCase fl_i].
  destruct (Z.eqb_spec (upper a) (upper c)), (Z.eqb_spec a c); try reflexivity;
    exfalso;
    destruct (upper_cases a) as [[? Ea]|[? Ea]], (upper_cases c) as [[? Ec]|[? Ec]];
    lia.
Qed.

Lemma no_end_before (body : jsstring) (a1 : jsstring) (c : Z) (a2 r : jsstring) :
  includes (js "?>") body = false -> body = a1 ++ c :: a2 ->
  startsWithF fl_i (js "?>") (c :: a2 ++ js "?>" ++ r) = false.
Proof.
  intros H E. rewrite E in H. apply includes_tail in H.
  cbn [includes] in H. apply orb_false_iff in H. destruct H as [H _].
  change (js "?>") with [63; 62] in *. cbn [startsWithF startsWith] in *.
  rewrite (eqChar_exact 63) by lia.
  destruct (Z.eqb_spec 63 c) as [<-|]; [|reflexivity].
  change (63 =? 63) with true in H. cbn [andb] in *.
  destruct a2 as [|d a2]; cbn [app].
  - reflexivity.
  - rewrite (eqChar_exact 62) by lia. rewrite andb_true_r in *. exact H.
Qed.

Lemma xml_head (tag : jsstring) (r : jsstring) :
  litEq fl_i (js "<?xml") tag = true ->
  match tag ++ r with [] => True | c :: _ => inCls fl_i space c = false end.
Proof.
  intros H. destruct tag as [|c tag]; [discriminate|].
  cbn [app]. change (js "<?xml") with (60 :: js "?xml") in H. cbn [litEq] in H.
  apply andb_true_iff in H. destruct H as [H _].
  apply eqChar_upper in H. change (upper 60) with 60 in H. apply upper_lt in H.
  subst c. reflexivity.
Qed.

Lemma xmlProlog_found (sp tag body rest : jsstring) :
  allSpace sp = true -> litEq fl_i (js "<?xml") tag = true ->
  includes (js "?>") body = false ->
  exists e,
    matchAt fl_i (ws ;; Lit "<?xml" ;; StarLazy Any ;; Lit "?>" ;; ws)
      (start (sp ++ tag ++ body ++ js "?>" ++ rest)) = Some e
    /\ skipn (pos e) (sp ++ tag ++ body ++ js "?>" ++ rest) = trimStart rest.
Proof.
  intros Hsp Htag Hbody.
  destruct (trimStart_split rest) as (sp2 & Hrest & Hsp2).
  pose proof (head_nonspace rest) as Hh.
  set (rest' := trimStart rest) in *. clearbody rest'. subst rest.
  eexists. split.
  - unfold matchAt, ws. cbn [m start pos prev rest caps].
    apply mStar_longest;
      [rewrite allSpace_class; exact Hsp | apply xml_head; exact Htag |].
    rewrite (mLit_run _ _ _ _ tag (body ++ js "?>" ++ sp2 ++ rest'))
      by (reflexivity || exact Htag).
    cbn [after pos prev rest caps].
    apply mStarLazy_first; [apply forallb_any | |].
    + intros a1 c a2 E. apply mLit_fail. cbn [after rest].
      exact (no_end_before body a1 c a2 _ Hbody E).
    + rewrite (mLit_run _ _ _ _ (js "?>") (sp2 ++ rest')) by reflexivity.
      cbn [after pos prev rest caps].
      apply mStar_longest;
        [rewrite allSpace_class; exact Hsp2 | | reflexivity].
      exact Hh.
  - cbn [after pos].
    replace (sp ++ tag ++ body ++ js "?>" ++ sp2 ++ rest')
      with ((sp ++ tag ++ body ++ js "?>" ++ sp2) ++ rest')
      by (rewrite <- !app_assoc; reflexivity).
    apply skipn_app_exact. rewrite !length_app. simpl. lia.
Qed.


(** X10: an XML declaration at the head of the text goes, with the blanks
    before it, everything up to its first [?>] and the blanks around what
    follows; nothing else of the text is touched. *)
Theorem prolog_removed (sp tag body rest : jsstring) :
  allSpace sp = true -> litEq fl_i (js "<?xml") tag = true ->
  includes (js "?>") body = false ->
  stripXmlProlog (sp ++ tag ++ body ++ js "?>" ++ rest) = trim rest.
Proof.
  intros Hsp Htag Hbody.
  destruct (xmlProlog_found sp tag body rest Hsp Htag Hbody) as (e & He & Hs).
  unfold stripXmlProlog, removeFirstMatch, xmlProlog.
  rewrite search_bol by reflexivity. rewrite He. cbn [index stop firstn app].
  rewrite Hs. unfold trim. rewrite trimStart_idem. reflexivity.
Qed.

Lemma prolog_removed_witness : stripXmlProlog declaredText = js "<svg/>".
Proof.
  exact (prolog_removed nl (js "<?XML") (js " version='1.0'") (nl ++ js "<svg/>" ++ nl)
           eq_refl eq_refl eq_refl).
Defined.

Lemma litEq_startsWithF (f : flags) (l : jsstring) : forall a b,
  litEq f l a = true -> startsWithF f l (a ++ b) = true.
Proof.
  induction l as [|c l IH]; intros a b H; [reflexivity|].
  destruct a as [|d a]; [discriminate|]. simpl in H. apply andb_true_iff in H.
  destruct H as [Hc H]. cbn [app startsWithF]. rewrite Hc. exact (IH _ _ H).
Qed.

(** X11: a text that, blanks apart, does not open with [<?xml] in any case,
    or that holds no [?>], is only trimmed: a declaration that comes after a
    comment stays in the text. *)
Theorem no_prolog_only_trims (s : jsstring) :
  startsWithF fl_i (js "<?xml") (trimStart s) = false
  \/ includesF fl_i (js "?>") s = false ->
  stripXmlProlog s = trim s.
Proof.
  intros H. unfold stripXmlProlog, removeFirstMatch.
  assert (N : search fl_i xmlProlog s = None); [|rewrite N; reflexivity].
  destruct H as [H|H].
  - unfold xmlProlog. rewrite search_bol by reflexivity.
    destruct (matchAt fl_i _ (start s)) as [e|] eqn:E; [|reflexivity].
    exfalso. unfold matchAt, ws in E. cbn [m start pos prev rest caps] in E.
    apply mStar_some in E. destruct E as (a & b & -> & Ha & E).
    apply mLit_some in E. cbn [after rest] in E.
    destruct E as (tag & r & -> & Ht & _).
    rewrite allSpace_class in Ha. rewrite (trimStart_app _ _ Ha) in H.
    pose proof (xml_head tag r Ht) as Hh.
    destruct (tag ++ r) as [|c t] eqn:Etr.
    + destruct tag; discriminate.
    + rewrite space_class in Hh. rewrite (trimStart_id _ _ Hh) in H.
      rewrite <- Etr in H. rewrite (litEq_startsWithF _ _ _ _ Ht) in H. discriminate.
  - apply (search_needs_literal fl_i (js "?>")); [reflexivity | exact H].
Qed.

Lemma no_prolog_only_trims_witness : stripXmlProlog commentFirstText = commentFirstText.
Proof.
  exact (no_prolog_only_trims commentFirstText (or_introl eq_refl)).
Defined.

(* ================================================================== *)
(** ** Lengths with units *)

Lemma unit_class c :
  inCls fl_none (Among (SUnion (SRange 97 122) (SUnion (SRange 65 90) (SChr 37)))) c
  = isUnitChar c.
Proof. reflexivity. Qed.

Lemma trailingUnit_unfold st :
  matchAt fl_none trailingUnit st =
  match rest st with
  | [] => None
  | d :: r =>
      if isUnitChar d
      then mStar isUnitChar (S (pos st)) (Some d) r (caps st)
             (fun e => if atEol fl_none e then Some e else None)
      else None
  end.
Proof.
  unfold matchAt, trailingUnit. cbn [m]. unfold step.
  destruct (rest st) as [|d r]; [reflexivity|]. rewrite unit_class.
  destruct (isUnitChar d); reflexivity.
Qed.

Lemma trailingUnit_sound st e :
  matchAt fl_none trailingUnit st = Some e -> isUnit (rest st) = true.
Proof.
  rewrite trailingUnit_unfold. destruct (rest st) as [|d r]; [discriminate|].
  destruct (isUnitChar d) eqn:Ed; [|discriminate]. intros H.
  apply mStar_some in H. destruct H as (a & b & -> & Ha & H).
  unfold atEol in H. cbn [after rest multiline fl_none andb] in H.
  destruct b; [|discriminate].
  unfold isUnit. cbn [forallb]. rewrite Ed, app_nil_r. exact Ha.
Qed.

Lemma trailingUnit_found n pv d u :
  isUnit (d :: u) = true ->
  exists e, matchAt fl_none trailingUnit {| pos := n; prev := pv; rest := d :: u; caps := [] |}
            = Some e /\ pos e = (n + List.length (d :: u))%nat.
Proof.
  unfold isUnit. cbn [forallb]. intros H. apply andb_true_iff in H. destruct H as [Hd Hu].
  rewrite trailingUnit_unfold. cbn [rest pos caps]. rewrite Hd.
  eexists. split.
  - rewrite <- (app_nil_r u) at 1. apply mStar_longest; [exact Hu | exact I | reflexivity].
  - cbn [after pos]. simpl. lia.
Qed.

Lemma searchFrom_skip f r y : forall x n pv,
  (forall a c b, x = a ++ c :: b -> matchAt f r (after n pv a (c :: b ++ y) []) = None) ->
  searchFrom f r n pv (x ++ y) = searchFrom f r (n + List.length x) (lastOr x pv) y.
Proof.
  induction x as [|c x IH]; intros n pv H.
  - cbn [app List.length lastOr]. rewrite Nat.add_0_r. reflexivity.
  - cbn [app searchFrom].
    pose proof (H [] c x eq_refl) as H0. rewrite after_nil in H0. cbn [app] in H0.
    rewrite H0. rewrite IH.
    + cbn [List.length lastOr]. f_equal. lia.
    + intros a c' b E. rewrite <- (after_cons n pv c a). apply H. rewrite E. reflexivity.
Qed.

Lemma endsPlain_suffix (a : jsstring) (c : Z) (b u : jsstring) :
  endsPlain (a ++ c :: b) = true -> isUnit (c :: b ++ u) = false.
Proof.
  intros H. destruct (exists_last (l := c :: b)) as (b' & z & E); [discriminate|].
  change (c :: b ++ u) with ((c :: b) ++ u). rewrite E in *.
  unfold endsPlain in H. rewrite app_assoc, rev_app_distr in H. cbn [rev app] in H.
  apply negb_true_iff in H.
  unfold isUnit. rewrite <- app_assoc, forallb_app. cbn [app forallb]. rewrite H.
  rewrite andb_false_r. reflexivity.
Qed.

Lemma unit_removed (s u : jsstring) :
  endsPlain s = true -> isUnit u = true ->
  removeFirstMatch fl_none trailingUnit (s ++ u) = s.
Proof.
  intros Hs Hu. unfold removeFirstMatch, search.
  rewrite searchFrom_skip.
  - destruct u as [|d u].
    + cbn [searchFrom]. rewrite trailingUnit_unfold. cbn [rest]. apply app_nil_r.
    + destruct (trailingUnit_found (0 + List.length s) (lastOr s None) d u Hu)
        as (e & He & Hp).
      cbn [searchFrom]. rewrite He. cbn [index stop]. rewrite Hp.
      rewrite firstn_app_exact by reflexivity.
      replace (0 + List.length s + List.length (d :: u))%nat
        with (List.length (s ++ d :: u)) by (rewrite length_app; lia).
      rewrite skipn_all. apply app_nil_r.
  - intros a c b E.
    destruct (matchAt fl_none trailingUnit _) as [e|] eqn:M; [|reflexivity].
    apply trailingUnit_sound in M. cbn [after rest] in M.
    rewrite E in Hs. rewrite (endsPlain_suffix a c b u Hs) in M. discriminate.
Qed.

(** X12: [parseNumeric] drops a trailing unit of letters and percent signs
    before it reads the number: on a text that does not itself end with such
    a character, followed by a unit, it gives the number of the text when
    that is finite and null otherwise; so a unit alone reads as 0. *)
Theorem unit_is_dropped (s u : jsstring) :
  endsPlain s = true -> isUnit u = true ->
  parseNumeric (Some (s ++ u)) =
  (if isFinite (ofString s) then Some (ofString s) else None)
  /\ parseNumeric (Some u) = Some (Dec 0 0).
Proof.
  intros Hs Hu. unfold parseNumeric. cbv zeta. split.
  - rewrite (unit_removed s u Hs Hu). reflexivity.
  - pose proof (unit_removed [] u eq_refl Hu) as R. cbn [app] in R.
    rewrite R. reflexivity.
Qed.

Lemma unit_is_dropped_witness :
  parseNumeric (Some (js "12.5px")) = Some (Dec 125 (-1))
  /\ parseNumeric (Some (js "px")) = Some (Dec 0 0).
Proof.
  exact (unit_is_dropped (js "12.5") (js "px") eq_refl eq_refl).
Defined.

Lemma removeFirst_absent (p : Z) (s : jsstring) :
  forallb (fun c => negb (c =? p)) s = true -> removeFirst [p] s = s.
Proof.
  induction s as [|c s IH]; intros H; [reflexivity|].
  cbn [forallb] in H. apply andb_true_iff in H. destruct H as [Hc H].
  apply negb_true_iff in Hc. cbn [removeFirst startsWith].
  rewrite Z.eqb_sym, Hc. cbn [andb]. rewrite (IH H). reflexivity.
Qed.

(** X13: in a colour the hash sign is optional, and three characters stand
    for the six obtained by doubling each of them, whatever the characters. *)
Theorem colour_notations (s : jsstring) (c1 c2 c3 : Z) :
  (forallb (fun c => negb (c =? 35)) s = true -> hexToRgb s = hexToRgb (35 :: s))
  /\ hexToRgb [35; c1; c2; c3] = hexToRgb [35; c1; c1; c2; c2; c3; c3].
Proof.
  split.
  - intros H. unfold hexToRgb.
    change (removeFirst (js "#") (35 :: s)) with s.
    change (js "#") with [35]. rewrite (removeFirst_absent 35 s H).
    destruct s; reflexivity.
  - unfold hexToRgb.
    change (removeFirst (js "#") [35; c1; c2; c3]) with [c1; c2; c3].
    change (removeFirst (js "#") [35; c1; c1; c2; c2; c3; c3])
      with [c1; c1; c2; c2; c3; c3].
    unfold trim, trimEnd.
    destruct (isSpace c1) eqn:E1, (isSpace c2) eqn:E2, (isSpace c3) eqn:E3;
      repeat (cbn [trimStart rev app]; rewrite ?E1, ?E2, ?E3);
      reflexivity.
Qed.

Lemma colour_notations_witness :
  hexToRgb (js "fa0") = hexToRgb (js "#fa0")
  /\ hexToRgb (js "#fa0") = hexToRgb (js "#ffaa00").
Proof.
  destruct (colour_notations (js "fa0") 102 97 48) as [H S].
  split; [exact (H eq_refl) | exact S].
Defined.

(* ================================================================== *)
(** ** The fetch step *)

Lemma store_saved host join outdir u svgText url p t :
  Fetch.store host join outdir u svgText = Fetch.Saved url p t ->
  url = u /\ t = svgText
  /\ p = join outdir (sha1Hex host u ++ js ".svg")
  /\ includes svgMarker t = true /\ writeFile host p t = true.
Proof.
  unfold Fetch.store. destruct (negb (truthyS (Some svgText)) || _) eqn:E; [discriminate|].
  cbv zeta. destruct (writeFile host _ svgText) eqn:W; [|discriminate].
  intros H. injection H as <- <- <-.
  apply orb_false_iff in E. destruct E as [_ E]. apply negb_false_iff in E. auto.
Qed.

Lemma fetchElement_saved host join outdir el url p t :
  Fetch.fetchElement host join outdir el = Some (Fetch.Saved url p t) ->
  remoteUrl el = Some url
  /\ p = join outdir (sha1Hex host url ++ js ".svg")
  /\ includes svgMarker t = true /\ writeFile host p t = true
  /\ (if test fl_i dataScheme url then decodeDataUri host url = Some t
      else test fl_i httpScheme url = true /\ fetchText host url 12000 = Some t).
Proof.
  unfold Fetch.fetchElement. cbv zeta.
  destruct (remoteUrl el) as [u|]; [|discriminate].
  destruct (negb (truthyS (Some u)) || _); [discriminate|].
  destruct (test fl_i dataScheme u) eqn:D.
  - destruct (decodeDataUri host u) as [x|] eqn:X; [|discriminate].
    intros H. injection H as H. apply store_saved in H.
    destruct H as (-> & -> & -> & I & W). rewrite D. repeat split; auto.
  - destruct (test fl_i httpScheme u) eqn:Hs; [|discriminate].
    unfold fetchTextWithTimeout.
    destruct (fetchText host u 12000) as [x|] eqn:X; [|discriminate].
    intros H. injection H as H. apply store_saved in H.
    destruct H as (-> & -> & -> & I & W). rewrite D. repeat split; auto.
Qed.

Lemma loop_events host join outdir : forall els n e,
  In e (fst (Fetch.loop host join outdir els n)) ->
  exists el, In el els /\ Fetch.fetchElement host join outdir el = Some e.
Proof.
  induction els as [|el els IH]; intros n e H; [destruct H|].
  cbn [Fetch.loop] in H.
  destruct (Fetch.fetchElement host join outdir el) as [ev|] eqn:E.
  - assert (S : exists m, fst (Fetch.loop host join outdir (el :: els) n)
                          = ev :: fst (Fetch.loop host join outdir els m)).
    { cbn [Fetch.loop]. rewrite E.
      destruct ev as [u p t|u|u w];
        [exists (S n) | exists n | exists n];
        destruct (Fetch.loop host join outdir els _); reflexivity. }
    destruct S as (m & S). cbn [Fetch.loop] in S. rewrite E in S. rewrite S in H.
    destruct H as [<-|H].
    + exists el. split; [left; reflexivity | exact E].
    + destruct (IH _ _ H) as (el' & I & F). exists el'. split; [right; exact I | exact F].
  - destruct (IH _ _ H) as (el' & I & F). exists el'. split; [right; exact I | exact F].
Qed.

Lemma loop_count host join outdir : forall els n,
  snd (Fetch.loop host join outdir els n)
  = (n + List.length (savedFiles (fst (Fetch.loop host join outdir els n))))%nat.
Proof.
  induction els as [|el els IH]; intros n; cbn [Fetch.loop].
  - simpl. lia.
  - destruct (Fetch.fetchElement host join outdir el) as [[u p t|u|u w]|].
    + specialize (IH (S n)). destruct (Fetch.loop host join outdir els (S n)) as [evs k].
      cbn [fst snd] in *. rewrite IH. simpl. lia.
    + specialize (IH n). destruct (Fetch.loop host join outdir els n) as [evs k].
      cbn [fst snd] in *. rewrite IH. reflexivity.
    + specialize (IH n). destruct (Fetch.loop host join outdir els n) as [evs k].
      cbn [fst snd] in *. rewrite IH. reflexivity.
    + apply IH.
Qed.

Lemma main_events host join opts e :
  In e (Fetch.events (Fetch.main host join opts)) ->
  exists layout el,
    readLayout host (resolve host [Fetch.opt_layout opts]) = Some layout
    /\ In el (elementsOf layout)
    /\ Fetch.fetchElement host join (resolve host [Fetch.opt_outdir opts]) el = Some e.
Proof.
  unfold Fetch.main. cbv zeta.
  destruct (readLayout host _) as [layout|]; [|intros []].
  unfold elementsOf.
  destruct (match elements layout with Some l => l | None => [] end) as [|el0 els] eqn:El;
    [intros []|].
  destruct (mkdir host _); [|intros []].
  destruct (Fetch.loop host join _ (el0 :: els) 0) as [evs k] eqn:L.
  cbn [Fetch.events]. intros H.
  assert (H' : In e (fst (Fetch.loop host join (resolve host [Fetch.opt_outdir opts])
                            (el0 :: els) 0))) by (rewrite L; exact H).
  destruct (loop_events _ _ _ _ _ _ H') as (el & I & F).
  exists layout, el. repeat split; auto. rewrite El. exact I.
Qed.

(** X14: the fetch step saves nothing but SVG text.  Every file it writes
    belongs to an element that gives the reference as [remoteUrl] (a reference
    under [remoteURL] is never fetched), is named by the digest of that
    reference inside the output directory, and holds the text the data URI or
    the http(s) response gave, with the root marker in it; the closing count
    is the number of files written. *)
Theorem fetch_saves_only_svg (host : Host) (join : jsstring -> jsstring -> jsstring)
    (opts : Fetch.Options) :
  let out := Fetch.main host join opts in
  (forall url p t, In (Fetch.Saved url p t) (Fetch.events out) ->
     p = join (resolve host [Fetch.opt_outdir opts]) (sha1Hex host url ++ js ".svg")
     /\ includes svgMarker t = true
     /\ writeFile host p t = true
     /\ (if test fl_i dataScheme url then decodeDataUri host url = Some t
         else test fl_i httpScheme url = true /\ fetchText host url 12000 = Some t)
     /\ exists layout el,
          readLayout host (resolve host [Fetch.opt_layout opts]) = Some layout
          /\ In el (elementsOf layout) /\ remoteUrl el = Some url)
  /\ (forall n, Fetch.done out = Some n ->
        n = List.length (savedFiles (Fetch.events out))).
Proof.
  cbv zeta. split.
  - intros url p t H. apply main_events in H. destruct H as (layout & el & R & I & F).
    apply fetchElement_saved in F. destruct F as (U & P & M & W & S).
    repeat split; auto. exists layout, el. auto.
  - intros n. unfold Fetch.main. cbv zeta.
    destruct (readLayout host _) as [layout|]; [|discriminate].
    destruct (match elements layout with Some l => l | None => [] end) as [|el0 els];
      [discriminate|].
    destruct (mkdir host _); [|discriminate].
    pose proof (loop_count host join (resolve host [Fetch.opt_outdir opts]) (el0 :: els) 0) as C.
    destruct (Fetch.loop host join _ (el0 :: els) 0) as [evs k].
    cbn [Fetch.done Fetch.events fst snd] in *. intros H. injection H as <-. exact C.
Qed.

Lemma fetch_saves_only_svg_witness :
  Fetch.events (Fetch.main onlineHost slashJoin fetchOptions)
  = [Fetch.Saved remoteUrlSample
       (js "/repo/out/remotes/https://example.invalid/card.svg.svg") cardText]
  /\ includes svgMarker cardText = true
  /\ 1%nat = List.length (savedFiles (Fetch.events
                                        (Fetch.main onlineHost slashJoin fetchOptions))).
Proof.
  destruct (fetch_saves_only_svg onlineHost slashJoin fetchOptions) as [S D].
  split; [reflexivity|]. split.
  - destruct (S remoteUrlSample
                (js "/repo/out/remotes/https://example.invalid/card.svg.svg") cardText
                (or_introl eq_refl)) as (_ & M & _).
    exact M.
  - apply D. reflexivity.
Defined.

Lemma fetchElement_reference host join outdir el e :
  Fetch.fetchElement host join outdir el = Some e ->
  exists c u, remoteUrl el = Some (c :: u) /\ eqs (trim (c :: u)) [] = false.
Proof.
  unfold Fetch.fetchElement. cbv zeta.
  destruct (remoteUrl el) as [[|c u]|]; try discriminate.
  cbn [truthyS option_map negb orb].
  destruct (trim (c :: u)) as [|d r] eqn:T; [discriminate|].
  intros _. exists c, u. rewrite T. auto.
Qed.

Lemma decodeDataUri_ext (host1 host2 : Host) (uri : jsstring) :
  (forall s, decodeURIComponent host2 s = decodeURIComponent host1 s) ->
  decodeDataUri host2 uri = decodeDataUri host1 uri.
Proof.
  intros H. unfold decodeDataUri. destruct (search fl_i dataUri uri); [|reflexivity].
  cbv zeta. rewrite H. reflexivity.
Qed.

(** X15: the two steps fit.  A text the fetch step has saved for a reference
    is the text the merge step resolves, later and without network, for an
    element that has this reference and names no local file, as long as the
    saved file is the one the merge step looks for (the digest name in
    [out/remotes] under its working directory) and is still there. *)
Theorem cache_feeds_merge (host1 : Host) (join : jsstring -> jsstring -> jsstring)
    (opts : Fetch.Options) (host2 : Host) (el : Element) (root url p t : jsstring) :
  In (Fetch.Saved url p t) (Fetch.events (Fetch.main host1 join opts)) ->
  p = cachePath host2 root url ->
  readFile host2 p = Some t ->
  fetchText host2 url 12000 = None ->
  (forall s, decodeURIComponent host2 s = decodeURIComponent host1 s) ->
  orS (remoteURL el) (remoteUrl el) = Some url ->
  file el = None -> localPath el = None ->
  resolveSvgSource host2 el root = t.
Proof.
  intros HS Hp Hr Hf Hd Hu Hfile Hlocal.
  apply main_events in HS. destruct HS as (layout & el' & _ & _ & F).
  destruct (fetchElement_reference _ _ _ _ _ F) as (c & u & U & T).
  apply fetchElement_saved in F. destruct F as (U' & _ & M & _ & S).
  rewrite U in U'. injection U' as <-.
  assert (A : accept (Some t) = Some t) by (unfold accept, hasMarker; rewrite M; reflexivity).
  rewrite resolveSvgSource_strategies. unfold strategies, remoteOf, localOf.
  rewrite Hu, Hfile, Hlocal. cbn [orS truthyS]. rewrite T. cbn [negb andb].
  destruct (test fl_i dataScheme (c :: u)) eqn:D.
  - rewrite (decodeDataUri_ext host1 host2 _ Hd), S, A. reflexivity.
  - destruct S as [Hh Hx]. rewrite Hh, Hf.
    subst p. rewrite Hr, A. reflexivity.
Qed.

Lemma cache_feeds_merge_witness :
  resolveSvgSource laterHost remoteElement (js "/repo") = cardText.
Proof.
  apply (cache_feeds_merge onlineHost slashJoin fetchOptions laterHost remoteElement
           (js "/repo") remoteUrlSample
           (js "/repo/out/remotes/https://example.invalid/card.svg.svg") cardText);
    try reflexivity.
  left. reflexivity.
Defined.

(* ================================================================== *)
(** ** Reading the attributes *)

Lemma eqs_eq (a b : jsstring) : eqs a b = true <-> a = b.
Proof.
  revert b. induction a as [|x a IH]; intros [|y b]; simpl; split; intros H;
    try reflexivity; try discriminate.
  - apply andb_true_iff in H. destruct H as [H1 H2]. apply Z.eqb_eq in H1.
    apply IH in H2. subst. reflexivity.
  - injection H as -> ->. rewrite Z.eqb_refl. apply IH. reflexivity.
Qed.

Lemma eqs_refl (a : jsstring) : eqs a a = true.
Proof. apply eqs_eq. reflexivity. Qed.

Lemma getProp_setProp (k k' v : jsstring) (o : object) :
  getProp k (setProp k' v o) = if eqs k k' then Some v else getProp k o.
Proof.
  induction o as [|[k0 v0] o IH]; simpl.
  - reflexivity.
  - destruct (eqs k' k0) eqn:E0; simpl.
    + apply eqs_eq in E0. subst k0. destruct (eqs k k'); reflexivity.
    + rewrite IH. destruct (eqs k k0) eqn:E1; [|reflexivity].
      apply eqs_eq in E1. subst k0.
      destruct (eqs k k') eqn:E2; [|reflexivity].
      apply eqs_eq in E2. subst k'. rewrite eqs_refl in E0. discriminate.
Qed.

Lemma getProp_fold (k : jsstring) (l : list Attr) : forall (o : object) acc,
  getProp k o = acc ->
  getProp k (fold_left (fun o a => setProp (attr_name a) (attr_value a) o) l o)
  = fold_left (fun acc a => if eqs k (attr_name a) then Some (attr_value a) else acc)
              l acc.
Proof.
  induction l as [|a l IH]; intros o acc H; [exact H|].
  cbn [fold_left]. apply IH. rewrite getProp_setProp, H. reflexivity.
Qed.

Lemma nameStart_class c :
  isNameStart c = true ->
  inCls fl_none (Among (SUnion (SRange 97 122) (SUnion (SRange 65 90) (SOneOf "_:")))) c
  = true
  /\ isWordChar c = true.
Proof.
  unfold isNameStart, isLetter, isWordChar, inCls, inSetF. cbn [ignoreCase fl_none inSet].
  change (js "_:") with [95; 58]. cbn [existsb].
  intros H. bool_to_prop H.
  split; repeat rewrite ?orb_true_iff, ?andb_true_iff, ?Z.leb_le, ?Z.eqb_eq; lia.
Qed.

Lemma nameChar_class c :
  inCls fl_none (Among (SUnion (SRange 97 122) (SUnion (SRange 65 90)
                  (SUnion (SRange 48 57) (SOneOf "-_:."))))) c
  = isNameChar c.
Proof.
  unfold isNameChar, isLetter, inCls, inSetF. cbn [ignoreCase fl_none inSet].
  change (js "-_:.") with [45; 95; 58; 46]. cbn [existsb].
  rewrite orb_false_r, !orb_assoc. reflexivity.
Qed.

Lemma value_plain (q : Z) (v : jsstring) :
  forallb (fun c => negb (c =? q) && negb (isLineTerminator c) && negb (c =? 62)) v = true ->
  forallb (inCls fl_none dot) v = true
  /\ noGt v = true
  /\ forall a1 c a2, v = a1 ++ c :: a2 -> (q =? c) = false.
Proof.
  induction v as [|x v IH]; intros H.
  - repeat split. intros [|? ?] ? ? E; discriminate.
  - cbn [forallb] in H. apply andb_true_iff in H. destruct H as [Hx H].
    destruct (IH H) as (D & G & S).
    apply andb_true_iff in Hx. destruct Hx as [Hx X3].
    apply andb_true_iff in Hx. destruct Hx as [X1 X2].
    repeat split.
    + cbn [forallb]. rewrite D, andb_true_r. exact X2.
    + unfold noGt in *. cbn [forallb]. rewrite G, X3. reflexivity.
    + intros [|y a1] c a2 E; injection E as <- E.
      * apply negb_true_iff in X1. rewrite Z.eqb_sym. exact X1.
      * exact (S _ _ _ E).
Qed.

Lemma attr_found (n : nat) (pv : option Z) (a : Attr) (s' : jsstring) :
  wellFormedAttr a = true ->
  match pv with Some c => isWordChar c = false | None => True end ->
  exists e,
    matchAt fl_none attrRegex
      {| pos := n; prev := pv;
         rest := attr_name a ++ 61 :: attr_quote a :: attr_value a ++ attr_quote a :: s';
         caps := [] |} = Some e
    /\ pos e = (n + List.length (attr_name a) + 3 + List.length (attr_value a))%nat
    /\ getCap 1 (caps e) = Some (attr_name a)
    /\ getCap 3 (caps e) = Some (attr_value a).
Proof.
  destruct a as [name q v]. unfold wellFormedAttr. cbn [attr_name attr_quote attr_value].
  intros W Hpv. apply andb_true_iff in W. destruct W as [W Hv].
  apply andb_true_iff in W. destruct W as [Hn Hq].
  destruct name as [|c r]; [discriminate|].
  apply andb_true_iff in Hn. destruct Hn as [Hc Hr].
  destruct (nameStart_class c Hc) as [Hcls Hword].
  destruct (value_plain q v Hv) as (Hdot & _ & Hnq).
  assert (Q : inCls fl_none space q = false /\ inCls fl_none quote q = true).
  { apply orb_true_iff in Hq. destruct Hq as [Hq|Hq]; apply Z.eqb_eq in Hq; subst q;
      split; reflexivity. }
  destruct Q as [Qs Qq].
  eexists. split; [|split; [|split]].
  - unfold matchAt, attrRegex, ws. cbn [m].
    unfold atWordB. cbn [prev rest app]. rewrite Hword.
    replace (match pv with Some c0 => isWordChar c0 | None => false end) with false
      by (destruct pv as [x|]; [symmetry; exact Hpv | reflexivity]).
    cbn [xorb]. unfold step. cbn [rest pos prev caps]. rewrite Hcls.
    apply mStar_longest.
    + rewrite (forallb_ext_eq _ _ r nameChar_class). exact Hr.
    + reflexivity.
    + cbn [after setCap pos prev rest caps].
      apply (mStar_longest (inCls fl_none space) []); [reflexivity | reflexivity |].
      rewrite after_nil. change (js "=") with [61].
      cbn [mLit step rest pos prev caps]. change (eqChar fl_none 61 61) with true.
      cbv iota.
      apply (mStar_longest (inCls fl_none space) []); [reflexivity | exact Qs |].
      rewrite after_nil. cbn [rest pos prev caps]. rewrite Qq.
      replace (S (S (S n + List.length r)) - S (S n + List.length r))%nat with 1%nat by lia.
      cbn [firstn].
      apply mStarLazy_first.
      * exact Hdot.
      * intros a1 x a2 E. cbn [after getCap Nat.eqb caps setCap pos prev rest].
        cbn [mLit]. unfold eqChar, step, setCap, after. cbn [ignoreCase fl_none rest].
        rewrite (Hnq _ _ _ E). reflexivity.
      * cbn [after getCap Nat.eqb caps setCap pos prev rest].
        cbn [mLit]. unfold eqChar, step, setCap, after. cbn [ignoreCase fl_none rest].
        rewrite Z.eqb_refl. reflexivity.
  - cbn [pos caps prev rest]. simpl List.length. lia.
  - cbn [pos caps prev rest getCap Nat.eqb]. f_equal.
    change (c :: r ++ 61 :: q :: v ++ q :: s') with ((c :: r) ++ 61 :: q :: v ++ q :: s').
    apply firstn_app_exact. simpl List.length. lia.
  - cbn [pos caps prev rest getCap Nat.eqb]. f_equal.
    apply firstn_app_exact. lia.
Qed.

Lemma attr_not_at_blank (n : nat) (pv : option Z) (s : jsstring) :
  matchAt fl_none attrRegex {| pos := n; prev := pv; rest := 32 :: s; caps := [] |} = None.
Proof.
  unfold matchAt, attrRegex. cbn [m]. destruct (atWordB _); reflexivity.
Qed.

Lemma matchAllFrom_skipping f r : forall a n pv s',
  matchAllFrom f r n pv (a ++ s') (List.length a)
  = matchAllFrom f r (n + List.length a) (lastOr a pv) s' 0.
Proof.
  induction a as [|c a IH]; intros n pv s'.
  - cbn [app List.length lastOr]. rewrite Nat.add_0_r. reflexivity.
  - cbn [app List.length lastOr matchAllFrom]. rewrite IH. f_equal. lia.
Qed.

Lemma lastOr_snoc (a : jsstring) (q : Z) : forall pv, lastOr (a ++ [q]) pv = Some q.
Proof. induction a as [|c a IH]; intros pv; [reflexivity | exact (IH _)]. Qed.

Lemma quote_not_word (a : Attr) :
  wellFormedAttr a = true -> isWordChar (attr_quote a) = false.
Proof.
  unfold wellFormedAttr. intros W. apply andb_true_iff in W. destruct W as [W _].
  apply andb_true_iff in W. destruct W as [_ Hq].
  apply orb_true_iff in Hq. destruct Hq as [Hq|Hq]; apply Z.eqb_eq in Hq;
    rewrite Hq; reflexivity.
Qed.

Lemma scan_attrs (l : list Attr) :
  forallb wellFormedAttr l = true ->
  forall n pv, match pv with Some c => isWordChar c = false | None => True end ->
  map (fun x => (group 1 x, group 3 x))
      (matchAllFrom fl_none attrRegex n pv (flat_map renderAttr l) 0)
  = map (fun a => (attr_name a, attr_value a)) l.
Proof.
  induction l as [|a l IH]; intros W n pv Hpv; [reflexivity|].
  cbn [forallb] in W. apply andb_true_iff in W. destruct W as [Wa W].
  cbn [flat_map]. unfold renderAttr at 1.
  set (tail := flat_map renderAttr l).
  replace ((32 :: attr_name a ++ 61 :: attr_quote a :: attr_value a ++ [attr_quote a])
             ++ tail)
    with (32 :: attr_name a ++ 61 :: attr_quote a :: attr_value a ++ attr_quote a :: tail)
    by (cbn [app]; rewrite <- !app_assoc; cbn [app]; rewrite <- !app_assoc;
        reflexivity).
  cbn [matchAllFrom]. rewrite attr_not_at_blank.
  destruct (attr_found (S n) (Some 32) a tail Wa eq_refl) as (e & He & Hp & G1 & G3).
  destruct (attr_name a) as [|c r] eqn:En.
  { unfold wellFormedAttr in Wa. rewrite En in Wa. discriminate. }
  cbn [app matchAllFrom] in *. rewrite He. cbn [map]. unfold group at 1 2. cbn [groups].
  rewrite G1, G3. f_equal; [rewrite En; reflexivity|].
  replace (pos e - S n - 1)%nat
    with (List.length (r ++ 61 :: attr_quote a :: attr_value a ++ [attr_quote a]))
    by (rewrite Hp, length_app; cbn [List.length]; rewrite length_app; simpl; lia).
  replace (r ++ 61 :: attr_quote a :: attr_value a ++ attr_quote a :: tail)
    with ((r ++ 61 :: attr_quote a :: attr_value a ++ [attr_quote a]) ++ tail)
    by (rewrite <- !app_assoc; cbn [app]; rewrite <- !app_assoc; reflexivity).
  rewrite matchAllFrom_skipping. apply IH; [exact W|].
  replace (r ++ 61 :: attr_quote a :: attr_value a ++ [attr_quote a])
    with ((r ++ 61 :: attr_quote a :: attr_value a) ++ [attr_quote a])
    by (rewrite <- !app_assoc; reflexivity).
  rewrite lastOr_snoc. exact (quote_not_word a Wa).
Qed.

Lemma searchFrom_head f r n pv s e :
  matchAt f r {| pos := n; prev := pv; rest := s; caps := [] |} = Some e ->
  searchFrom f r n pv s = Some {| index := n; stop := pos e; groups := caps e |}.
Proof. intros H. destruct s; cbn [searchFrom]; rewrite H; reflexivity. Qed.

Lemma fold_pairs {A B} (f : A -> jsstring * jsstring) (g : B -> jsstring * jsstring)
    (xs : list A) (ys : list B) :
  map f xs = map g ys ->
  forall o,
    fold_left (fun o x => setProp (fst (f x)) (snd (f x)) o) xs o
    = fold_left (fun o y => setProp (fst (g y)) (snd (g y)) o) ys o.
Proof.
  revert ys. induction xs as [|x xs IH]; intros [|y ys] H o; try discriminate;
    [reflexivity|].
  cbn [map] in H. injection H as H1 H2. cbn [fold_left]. rewrite H1. exact (IH _ H2 _).
Qed.

Lemma attrs_noGt (l : list Attr) :
  forallb wellFormedAttr l = true -> noGt (flat_map renderAttr l) = true.
Proof.
  induction l as [|a l IH]; intros W; [reflexivity|].
  cbn [forallb] in W. apply andb_true_iff in W. destruct W as [Wa W].
  cbn [flat_map]. unfold noGt in *. rewrite forallb_app, (IH W), andb_true_r.
  unfold wellFormedAttr in Wa. apply andb_true_iff in Wa. destruct Wa as [Wa Hv].
  apply andb_true_iff in Wa. destruct Wa as [Hn Hq].
  destruct (value_plain _ _ Hv) as (_ & G & _).
  unfold renderAttr. cbn [forallb]. rewrite forallb_app. cbn [forallb].
  rewrite forallb_app. unfold noGt in G. rewrite G. cbn [forallb].
  assert (Q : negb (attr_quote a =? 62) = true).
  { apply orb_true_iff in Hq. destruct Hq as [Hq|Hq]; apply Z.eqb_eq in Hq;
      rewrite Hq; reflexivity. }
  rewrite Q. cbn [andb negb]. change (negb (61 =? 62)) with true. cbn [andb].
  rewrite andb_true_r.
  destruct (attr_name a) as [|c r]; [discriminate|].
  apply andb_true_iff in Hn. destruct Hn as [Hc Hr]. cbn [forallb].
  change (negb (32 =? 62)) with true. cbn [andb].
  apply andb_true_iff. split.
  - unfold isNameStart, isLetter in Hc. bool_to_prop Hc.
    apply negb_true_iff, Z.eqb_neq. lia.
  - clear -Hr. induction r as [|x r IH]; [reflexivity|].
    cbn [forallb] in *. apply andb_true_iff in Hr. destruct Hr as [Hx Hr].
    rewrite (IH Hr), andb_true_r.
    unfold isNameChar, isLetter in Hx. bool_to_prop Hx.
    apply negb_true_iff, Z.eqb_neq. lia.
Qed.

(** X16: when the text, prolog stripped, opens with [<svg], attributes each
    written as a blank, a name, [=] and a quoted value, and [>], the parser
    finds the root and reads every attribute; a name given twice keeps its
    last value.  ([__proto__] is no property name of a JavaScript object.) *)
Theorem attributes_are_read (raw : jsstring) (l : list Attr) (rest : jsstring) :
  stripXmlProlog raw = js "<svg" ++ flat_map renderAttr l ++ 62 :: rest ->
  forallb wellFormedAttr l = true ->
  exists parts,
    extractSvgParts raw = Some parts
    /\ forall k, eqs k (js "__proto__") = false ->
         getProp k (attrs parts) = lastValue k l.
Proof.
  intros Hc W. unfold extractSvgParts. cbv zeta. rewrite Hc.
  set (A := flat_map renderAttr l) in *.
  pose proof (attrs_noGt l W) as HA. fold A in HA.
  assert (S : exists x, search fl_i openTag (js "<svg" ++ A ++ 62 :: rest) = Some x
                        /\ group 1 x = A).
  { unfold search.
    destruct (matchAt fl_i openTag (start (js "<svg" ++ A ++ 62 :: rest))) as [e|] eqn:E.
    - rewrite (searchFrom_head _ _ _ _ _ _ E).
      eexists. split; [reflexivity|]. unfold group. cbn [groups].
      apply openTag_sound in E. destruct E as (p & a & post & Hr & Hp & Ha & _ & G).
      cbn [start Regex.rest] in Hr. rewrite G.
      apply app_eq_length in Hr; [|rewrite (litEq_length _ _ _ Hp); reflexivity].
      destruct Hr as [_ Hr]. apply noGt_split in Hr; auto. destruct Hr as [-> _].
      reflexivity.
    - exfalso.
      refine (openTag_complete _ (js "<svg") A rest _ _ _ E); auto. }
  destruct S as (x & Sx & Gx). rewrite Sx. eexists. split; [reflexivity|].
  intros k _. cbn [attrs]. rewrite Gx. unfold matchAll, lastValue.
  pose proof (fold_pairs (fun x => (group 1 x, group 3 x))
                (fun a => (attr_name a, attr_value a)) _ l
                (scan_attrs l W 0%nat None I) []) as F.
  cbn [fst snd] in F. unfold A. rewrite F. apply getProp_fold. reflexivity.
Qed.

Lemma attributes_are_read_witness :
  exists parts,
    extractSvgParts twiceSizedText = Some parts
    /\ getProp (js "width") (attrs parts) = Some (js "20")
    /\ getProp (js "data-w") (attrs parts) = Some (js "1")
    /\ getProp (js "viewBox") (attrs parts) = None.
Proof.
  destruct (attributes_are_read twiceSizedText
              [ {| attr_name := js "width"; attr_quote := 34; attr_value := js "10" |};
                {| attr_name := js "data-w"; attr_quote := 39; attr_value := js "1" |};
                {| attr_name := js "height"; attr_quote := 39; attr_value := js "5" |};
                {| attr_name := js "width"; attr_quote := 34; attr_value := js "20" |} ]
              (js "<g/></svg>") eq_refl eq_refl) as (parts & E & G).
  exists parts. split; [exact E|].
  split; [|split]; rewrite G; reflexivity.
Defined.

(* ================================================================== *)
(** ** What the sanitizer removes *)

Lemma semicolon_class c : inCls fl_im (Except (SChr 59)) c = negb (c =? 59).
Proof.
  unfold inCls, inSetF. cbn [ignoreCase fl_im inSet]. f_equal.
  destruct (upper_cases c) as [[? ->]|[? ->]], (lower_cases c) as [[? ->]|[? ->]];
    destruct (c =? 59) eqn:E; simpl; try reflexivity;
    repeat match goal with |- context [?a =? ?b] => destruct (Z.eqb_spec a b); simpl end;
    try reflexivity; lia.
Qed.

Lemma durationZero_found (n : nat) (pv : option Z) (sp1 sp2 mid post : jsstring) :
  allSpace sp1 = true -> allSpace sp2 = true -> noSemicolon mid = true ->
  exists e,
    matchAt fl_im durationZero
      {| pos := n; prev := pv;
         rest := js "animation-duration" ++ sp1 ++ js ":" ++ sp2 ++ js "0s" ++ mid
                 ++ js ";" ++ post;
         caps := [] |} = Some e
    /\ pos e = (n + List.length (js "animation-duration" ++ sp1 ++ js ":" ++ sp2
                                 ++ js "0s" ++ mid ++ js ";"))%nat.
Proof.
  intros H1 H2 Hm. eexists. split.
  - unfold matchAt, durationZero, ws. cbn [m].
    rewrite (mLit_run _ _ _ _ (js "animation-duration")
               (sp1 ++ js ":" ++ sp2 ++ js "0s" ++ mid ++ js ";" ++ post))
      by reflexivity.
    cbn [after pos prev rest caps].
    apply mStar_longest;
      [change (inCls fl_im space) with (inCls fl_i space); rewrite allSpace_class;
       exact H1 | reflexivity |].
    rewrite (mLit_run _ _ _ _ (js ":") (sp2 ++ js "0s" ++ mid ++ js ";" ++ post))
      by reflexivity.
    cbn [after pos prev rest caps].
    apply mStar_longest;
      [change (inCls fl_im space) with (inCls fl_i space); rewrite allSpace_class;
       exact H2 | reflexivity |].
    rewrite (mLit_run _ _ _ _ (js "0s") (mid ++ js ";" ++ post)) by reflexivity.
    cbn [after pos prev rest caps].
    apply mStar_longest;
      [rewrite (forallb_ext_eq _ _ mid semicolon_class); exact Hm | reflexivity |].
    cbn [after pos prev rest caps]. change (js ";") with [59].
    cbn [app mLit]. unfold step, after. cbn [rest pos prev caps].
    change (eqChar fl_im 59 59) with true. cbv iota.
    match goal with
    | |- context [Nat.eqb (S ?a) ?a] =>
        replace (Nat.eqb (S a) a) with false by (symmetry; apply Nat.eqb_neq; lia)
    end.
    reflexivity.
  - cbn [pos]. rewrite !length_app. simpl List.length. lia.
Qed.

Lemma removeAllFrom_skipping f r : forall a n pv s',
  removeAllFrom f r n pv (a ++ s') (List.length a)
  = removeAllFrom f r (n + List.length a) (lastOr a pv) s' 0.
Proof.
  induction a as [|c a IH]; intros n pv s'.
  - cbn [app List.length lastOr]. rewrite Nat.add_0_r. reflexivity.
  - cbn [app List.length lastOr removeAllFrom]. rewrite IH. f_equal. lia.
Qed.

Lemma removeAllFrom_pre f r rest : forall pre n pv,
  (forall a1 c a2, pre = a1 ++ c :: a2 ->
     matchAt f r (after n pv a1 (c :: a2 ++ rest) []) = None) ->
  removeAllFrom f r n pv (pre ++ rest) 0
  = pre ++ removeAllFrom f r (n + List.length pre) (lastOr pre pv) rest 0.
Proof.
  induction pre as [|c pre IH]; intros n pv H.
  - cbn [app List.length lastOr]. rewrite Nat.add_0_r. reflexivity.
  - cbn [app removeAllFrom].
    pose proof (H [] c pre eq_refl) as H0. rewrite after_nil in H0. cbn [app] in H0.
    rewrite H0. f_equal. rewrite IH.
    + cbn [List.length lastOr]. do 2 f_equal. lia.
    + intros a1 c' a2 E. rewrite <- (after_cons n pv c a1). apply H. rewrite E. reflexivity.
Qed.

Lemma removeAllFrom_hit f r n pv (c : Z) (M post : jsstring) e :
  matchAt f r {| pos := n; prev := pv; rest := c :: M ++ post; caps := [] |} = Some e ->
  pos e = (n + List.length (c :: M))%nat ->
  removeAllFrom f r n pv (c :: M ++ post) 0
  = removeAllFrom f r (n + List.length (c :: M)) (lastOr (c :: M) pv) post 0.
Proof.
  intros He Hp. cbn [removeAllFrom]. rewrite He, Hp.
  replace (n + List.length (c :: M) - n)%nat with (S (List.length M))
    by (cbn [List.length]; lia).
  rewrite removeAllFrom_skipping. cbn [List.length lastOr]. f_equal. lia.
Qed.

Lemma searchFrom_needs_literal (f : flags) (l : jsstring) (r : re) (s : jsstring) n pv :
  mustHold l r = true -> includesF f l s = false -> searchFrom f r n pv s = None.
Proof.
  intros Hm Hs. destruct (searchFrom f r n pv s) as [x|] eqn:E; [|reflexivity].
  apply searchFrom_some in E.
  destruct E as (pre & b & e & -> & E & _). unfold matchAt in E.
  apply (m_reads f l) in E. destruct E as (a & st' & Hr & _ & M).
  cbn [after rest] in Hr. specialize (M Hm).
  rewrite Hr in Hs.
  rewrite (includesF_app_r f l pre (a ++ rest st') (includesF_app_l f l a _ M)) in Hs.
  discriminate.
Qed.

Lemma includesF_tail (f : flags) (l a b : jsstring) :
  includesF f l (a ++ b) = false -> includesF f l b = false.
Proof.
  destruct (includesF f l b) eqn:E; [|reflexivity].
  rewrite (includesF_app_r f l a b E). discriminate.
Qed.

Lemma includesF_head (f : flags) (l a b : jsstring) :
  includesF f l (a ++ b) = false -> includesF f l a = false.
Proof.
  destruct (includesF f l a) eqn:E; [|reflexivity].
  rewrite (includesF_app_l f l a b E). discriminate.
Qed.

Lemma startsWithF_prefix (f : flags) (l1 l2 : jsstring) : forall s,
  startsWithF f l1 s = false -> startsWithF f (l1 ++ l2) s = false.
Proof.
  induction l1 as [|c l1 IH]; intros s H; [discriminate|].
  destruct s as [|d s]; [reflexivity|]. cbn [app startsWithF] in *.
  destruct (eqChar f c d); [|reflexivity]. exact (IH _ H).
Qed.

(** The word [animation] does not overlap itself. *)
Lemma no_straddle (a tail : jsstring) :
  a <> [] -> startsWithF fl_im (js "animation") a = false ->
  startsWithF fl_im (js "animation") (a ++ js "animation" ++ tail) = false.
Proof.
  intros Ha H. change (js "animation") with [97; 110; 105; 109; 97; 116; 105; 111; 110] in *.
  destruct a as [|x1 [|x2 [|x3 [|x4 [|x5 [|x6 [|x7 [|x8 [|x9 more]]]]]]]]];
    [contradiction|..]; cbn [app startsWithF] in *;
    try exact H;
    repeat match goal with
           | |- context [eqChar fl_im ?k ?x] =>
               is_var x; destruct (eqChar fl_im k x); cbn [andb]
           end;
    reflexivity.
Qed.

Lemma durationZero_not_before (pre a1 : jsstring) (c : Z) (a2 tail : jsstring) n pv :
  includesF fl_im (js "animation") pre = false -> pre = a1 ++ c :: a2 ->
  matchAt fl_im durationZero
    (after n pv a1 (c :: a2 ++ js "animation-duration" ++ tail) []) = None.
Proof.
  intros H E. unfold matchAt, durationZero. cbn [m]. apply mLit_fail. cbn [after rest].
  change (js "animation-duration") with (js "animation" ++ js "-duration").
  apply startsWithF_prefix.
  rewrite E in H. apply includesF_tail in H.
  assert (S : startsWithF fl_im (js "animation") (c :: a2) = false).
  { cbn [includesF] in H. apply orb_false_iff in H. exact (proj1 H). }
  rewrite <- app_assoc.
  exact (no_straddle (c :: a2) (js "-duration" ++ tail) ltac:(discriminate) S).
Qed.

Lemma star_absent (s : jsstring) :
  forallb (fun c => negb (c =? 42)) s = true -> includesF fl_im (js "*") s = false.
Proof.
  change (js "*") with [42].
  induction s as [|c s IH]; intros H; [reflexivity|].
  cbn [forallb] in H. apply andb_true_iff in H. destruct H as [Hc H].
  cbn [includesF startsWithF]. rewrite (IH H).
  change (eqChar fl_im 42 c) with (eqChar fl_i 42 c). rewrite (eqChar_exact 42) by lia.
  apply negb_true_iff in Hc. rewrite Z.eqb_sym, Hc. reflexivity.
Qed.

Lemma blank_no_star (s : jsstring) :
  allSpace s = true -> forallb (fun c => negb (c =? 42)) s = true.
Proof.
  induction s as [|c s IH]; intros H; [reflexivity|].
  cbn [allSpace forallb] in *. apply andb_true_iff in H. destruct H as [Hc H].
  rewrite (IH H), andb_true_r. apply negb_true_iff, Z.eqb_neq.
  intros ->. discriminate.
Qed.

Lemma sanitizer_passes (s : jsstring) :
  sanitizeAnimationOverrides s =
  removeAll fl_im shorthandZero
    (removeAll fl_im delayZero
       (removeAll fl_im durationZero (removeAll fl_im universalAnimBlock s))).
Proof. destruct s; reflexivity. Qed.

(** X17: a declaration [animation-duration], blanks, [:], blanks, [0s] goes
    with everything up to and including its semicolon, and nothing else
    changes, in markup that has no [*] and in which what stands before and
    after the declaration does not mention [animation]. *)
Theorem zero_duration_is_removed (pre sp1 sp2 mid post : jsstring) :
  allSpace sp1 = true -> allSpace sp2 = true -> noSemicolon mid = true ->
  forallb (fun c => negb (c =? 42)) (pre ++ mid ++ post) = true ->
  includesF fl_im (js "animation") (pre ++ post) = false ->
  sanitizeAnimationOverrides
    (pre ++ js "animation-duration" ++ sp1 ++ js ":" ++ sp2 ++ js "0s" ++ mid
     ++ js ";" ++ post)
  = pre ++ post.
Proof.
  intros H1 H2 Hm Hstar Hfree. rewrite sanitizer_passes.
  rewrite (removeAll_needs_literal fl_im (js "*") universalAnimBlock _ eq_refl).
  - assert (P : removeAll fl_im durationZero
                  (pre ++ js "animation-duration" ++ sp1 ++ js ":" ++ sp2 ++ js "0s"
                   ++ mid ++ js ";" ++ post) = pre ++ post).
    { unfold removeAll. rewrite removeAllFrom_pre.
      - f_equal.
        destruct (durationZero_found (0 + List.length pre) (lastOr pre None)
                    sp1 sp2 mid post H1 H2 Hm) as (e & He & Hp).
        set (M := js "nimation-duration" ++ sp1 ++ js ":" ++ sp2 ++ js "0s" ++ mid
                  ++ js ";").
        replace (js "animation-duration" ++ sp1 ++ js ":" ++ sp2 ++ js "0s" ++ mid
                 ++ js ";" ++ post) with (97 :: M ++ post) in *
          by (unfold M; rewrite <- !app_assoc; reflexivity).
        rewrite (removeAllFrom_hit _ _ _ _ 97 M post e He).
        + apply removeAllFrom_no_match.
          exact (searchFrom_needs_literal fl_im (js "animation") durationZero post _ _
                   eq_refl (includesF_tail _ _ _ _ Hfree)).
        + rewrite Hp. reflexivity.
      - intros a1 c a2 E.
        exact (durationZero_not_before pre a1 c a2 _ 0%nat None
                 (includesF_head _ _ _ _ Hfree) E). }
    rewrite P.
    rewrite (removeAll_needs_literal fl_im (js "animation") delayZero _ eq_refl Hfree).
    exact (removeAll_needs_literal fl_im (js "animation") shorthandZero _ eq_refl Hfree).
  - apply star_absent.
    rewrite !forallb_app in *.
    apply andb_true_iff in Hstar. destruct Hstar as [Sp Hstar].
    apply andb_true_iff in Hstar. destruct Hstar as [Sm Spost].
    rewrite Sp, Sm, Spost, (blank_no_star _ H1), (blank_no_star _ H2). reflexivity.
Qed.

Lemma zero_duration_is_removed_witness :
  sanitizeAnimationOverrides frozenStyle = js "<style>.a{fill:red}</style>".
Proof.
  exact (zero_duration_is_removed (js "<style>.a{") [] (js " ") (js " !important")
           (js "fill:red}</style>") eq_refl eq_refl eq_refl eq_refl eq_refl).
Defined.

(* ================================================================== *)
(** ** What the parser takes for the root *)

(** X5: the parser fails exactly when the text that [stripXmlProlog] leaves
    holds no [<svg] (in any case) with a [>] after it.  When it succeeds, the
    open tag is the first one of that text; the inner markup is the part
    between the end of that tag and the start of the close tag that ends the
    text (blanks apart), unchanged; and when no close tag ends the text it is
    the rest of the text. *)
Theorem parser_contract (raw : jsstring) :
  let cleaned := stripXmlProlog raw in
  (extractSvgParts raw = None <-> ~ hasOpenTag cleaned)
  /\ forall parts, extractSvgParts raw = Some parts ->
       exists pre tag post,
         firstOpenTag cleaned pre tag post
         /\ (forall n, finalCloseAt cleaned n ->
               inner parts = slice cleaned (List.length (pre ++ tag)) n)
         /\ (forall body close sp,
               post = body ++ close ++ sp -> isCloseTag close -> allSpace sp = true ->
               inner parts = body)
         /\ ((forall n, ~ finalCloseAt cleaned n) -> inner parts = post).
Proof.
  intros cleaned. unfold extractSvgParts. fold cleaned. split.
  - rewrite <- search_openTag_none.
    destruct (search fl_i openTag cleaned); split; intros H; try discriminate; reflexivity.
  - intros parts H.
    destruct (search fl_i openTag cleaned) as [x|] eqn:Eo; [|discriminate].
    injection H as <-. cbn [inner].
    destruct (search_openTag_some _ _ Eo) as (pre & tag & post & F & Hstop).
    exists pre, tag, post. split; [exact F|]. rewrite Hstop.
    destruct F as (Hc & _ & _).
    assert (G : forall n, finalCloseAt cleaned n ->
      slice cleaned (List.length (pre ++ tag))
        match search fl_i closeTag cleaned with
        | Some closeMatch => index closeMatch
        | None => List.length cleaned
        end = slice cleaned (List.length (pre ++ tag)) n).
    { intros n Hn. destruct (search fl_i closeTag cleaned) as [y|] eqn:Ec.
      - rewrite (finalClose_unique _ _ _ Hn (search_closeTag_some _ _ Ec)). reflexivity.
      - exfalso. exact (search_closeTag_none _ n Ec Hn). }
    split; [exact G|]. split.
    + intros body close sp Hp Ht Hs.
      rewrite (G (List.length ((pre ++ tag) ++ body))).
      * rewrite Hc, Hp, app_assoc. apply slice_middle.
      * exists ((pre ++ tag) ++ body), close, sp. repeat split; auto.
        rewrite Hc, Hp, <- !app_assoc. reflexivity.
    + intros Hn. destruct (search fl_i closeTag cleaned) as [y|] eqn:Ec.
      * exfalso. exact (Hn _ (search_closeTag_some _ _ Ec)).
      * apply slice_to_end. rewrite Hc, app_assoc. reflexivity.
Qed.

Lemma parser_contract_witness :
  ~ hasOpenTag (stripXmlProlog (js "<?xml version='1.0'?><g/>"))
  /\ exists pre tag post,
       firstOpenTag (stripXmlProlog badgeText) pre tag post
       /\ (forall n, finalCloseAt (stripXmlProlog badgeText) n ->
             nl = slice (stripXmlProlog badgeText) (List.length (pre ++ tag)) n)
       /\ (forall body close sp,
             post = body ++ close ++ sp -> isCloseTag close -> allSpace sp = true ->
             nl = body)
       /\ ((forall n, ~ finalCloseAt (stripXmlProlog badgeText) n) -> nl = post).
Proof.
  split.
  - apply (proj1 (proj1 (parser_contract (js "<?xml version='1.0'?><g/>")))).
    vm_compute. reflexivity.
  - apply (proj2 (parser_contract badgeText)
             {| inner := nl;
                attrs := [(js "width", js "128"); (js "height", js "32")] |}).
    vm_compute. reflexivity.
Defined.

(* ================================================================== *)
(** ** Words and what blocks them *)




Lemma includesF_suffix f K (U W : jsstring) :
  includesF f K (U ++ W) = false -> includesF f K W = false.
Proof. apply includesF_tail. Qed.




(** ** The size words in a root tag *)















(** ** The viewBox attribute *)






(** ** The numbers of a viewBox *)





(** ** The width and height attributes *)





























(** ** The size the code reads from a plain document *)



(* ================================================================== *)
(** * The run as a whole and the geometry *)

(** ** Failures of single elements *)

Lemma document_text (layout : Layout) (gs : list Fragment) :
  document layout gs = mergedTextOf layout gs.
Proof.
  unfold document, mergedTextOf, mergedText, header, footer. cbv zeta.
  rewrite (map_ext elementFragment subDocumentOf) by reflexivity.
  reflexivity.
Qed.

Lemma failures_fail (body : Element -> Failure + Fragment) (els : list Element) x :
  In x (failures body els) -> In (fst x) els /\ body (fst x) = inl (snd x).
Proof.
  unfold failures. rewrite in_flat_map. intros (el & I & H).
  destruct (body el) as [e|g] eqn:E; [|destruct H].
  destruct H as [<-|[]]. cbn [fst snd]. auto.
Qed.

(** C1, as the specification states it, fails: the fetch of the card fails
    and the element has no file and no inline content, but a copy of the card
    lies in the cache; the element is resolved from it, no warning is logged
    and the document holds two sub-documents. *)
Lemma cached_copy_counterexample :
  elementsOf sampleLayout = [remoteElement; badgeElement]
  /\ remoteUrl remoteElement = Some remoteUrlSample
  /\ fetchText cachedHost remoteUrlSample 12000 = None
  /\ file remoteElement = None /\ localPath remoteElement = None
  /\ content remoteElement = None
  /\ main cachedHost sampleOptions =
       {| exitCode := 0;
          written := Some (js "out/merged.svg",
                           mergedTextOf sampleLayout [cardFragment; badgeFragment]);
          warnings := [] |}
  /\ mergedTextOf sampleLayout [cardFragment; badgeFragment]
     <> mergedTextOf sampleLayout [badgeFragment].
Proof.
  repeat (split; [vm_compute; reflexivity|]). vm_compute. discriminate.
Qed.

(** C1, amended: when the layout is read and the output written, the run
    exits with code 0 whatever the elements do; the document written holds,
    after the canvas, the sub-documents of the elements that resolve and
    parse, in input order, and nothing of the others; for each of the others
    one warning is logged, in input order, with the name (else the id) of the
    element and the message of the failure.  With two elements, one of which
    has a remote reference that is no data URI and whose fetch fails, and has
    no file, no inline content and no copy in the cache, the document holds
    the one sub-document of the other element and one warning is logged. *)
Theorem element_failures_are_skipped (host : Host) (opts : Options) (layout : Layout) :
  let body := processElement host in
  let els := elementsOf layout in
  let outPath := resolve host [opt_out opts] in
  readLayout host (resolve host [opt_layout opts]) = Some layout ->
  mkdir host (dirname host outPath) = true ->
  writeFile host outPath (mergedTextOf layout (survivors body els)) = true ->
  main host opts =
    {| exitCode := 0;
       written := Some (outPath, mergedTextOf layout (survivors body els));
       warnings := map warningFor (failures body els) |}
  /\ (forall w, In w (warnings (main host opts)) ->
        exists el, In el els /\ who w = orS (name el) (id el)
          /\ ((body el = inl NoSource
               /\ why w = js "No SVG source available for element")
              \/ (body el = inl NoRoot /\ why w = js "No <svg> root element found")))
  /\ forall a b url g,
       els = [a; b] \/ els = [b; a] ->
       unreachable host a url ->
       processElement host b = inr g ->
       main host opts =
         {| exitCode := 0;
            written := Some (outPath, mergedTextOf layout [g]);
            warnings := [ {| who := orS (name a) (id a);
                             why := js "No SVG source available for element" |} ] |}.
Proof.
  intros body els outPath Hl Hm Hw.
  assert (Hmain : main host opts =
    {| exitCode := 0;
       written := Some (outPath, mergedTextOf layout (survivors body els));
       warnings := map warningFor (failures body els) |}).
  { unfold main, script. rewrite Hl, compose_spec. fold outPath. fold body. fold els.
    rewrite document_text, Hm, Hw. reflexivity. }
  split; [exact Hmain|]. split.
  - rewrite Hmain. cbn [warnings]. intros w Hin. apply in_map_iff in Hin.
    destruct Hin as ([el e] & <- & Hin). apply failures_fail in Hin.
    cbn [fst snd] in Hin. destruct Hin as [I E].
    exists el. split; [exact I|]. split; [reflexivity|].
    unfold warningFor. cbn [fst snd why]. destruct e; [left | right]; auto.
  - intros a b url g Hels Ha Hb. rewrite Hmain.
    apply unreachable_fails in Ha.
    unfold survivors, failures, body.
    destruct Hels as [-> | ->]; simpl; rewrite Ha, Hb; reflexivity.
Qed.

Lemma element_failures_are_skipped_witness :
  main (offlineHost sampleLayout) sampleOptions =
    {| exitCode := 0;
       written := Some (js "out/merged.svg", sampleOutput);
       warnings := [ {| who := Some (js "card");
                        why := js "No SVG source available for element" |} ] |}.
Proof.
  destruct (element_failures_are_skipped (offlineHost sampleLayout) sampleOptions
              sampleLayout eq_refl eq_refl eq_refl) as (_ & _ & H).
  apply (H remoteElement badgeElement remoteUrlSample badgeFragment).
  - left. reflexivity.
  - repeat split; vm_compute; reflexivity.
  - vm_compute. reflexivity.
Defined.

(** ** The sanitizer, run twice *)

(** C7, as the specification states it, fails: a second run removes what the
    first run spliced together. *)
Lemma sanitizer_not_idempotent :
  sanitizeAnimationOverrides splicedMarkup = js "animation-duration: 0s;"
  /\ sanitizeAnimationOverrides (sanitizeAnimationOverrides splicedMarkup) = []
  /\ sanitizeAnimationOverrides (sanitizeAnimationOverrides splicedMarkup)
     <> sanitizeAnimationOverrides splicedMarkup.
Proof.
  split; [vm_compute; reflexivity|]. split; [vm_compute; reflexivity|].
  vm_compute. discriminate.
Qed.

(** C7, amended: the sanitizer is a total function on text that only deletes:
    its result is its input with some code units left out, in the same order,
    and so is never longer; a second run changes nothing exactly when the
    result of the first run holds no match of the four patterns. *)
Theorem sanitizer_second_run (markup : jsstring) :
  Subseq (sanitizeAnimationOverrides markup) markup
  /\ (List.length (sanitizeAnimationOverrides markup) <= List.length markup)%nat
  /\ (sanitizeAnimationOverrides (sanitizeAnimationOverrides markup)
        = sanitizeAnimationOverrides markup
      <-> isClean (sanitizeAnimationOverrides markup) = true).
Proof.
  split; [apply sanitizer_subseq|]. split; [|apply sanitizer_fixed].
  destruct markup as [|c s]; [simpl; lia|].
  unfold sanitizeAnimationOverrides. cbv zeta.
  repeat match goal with
         | |- (List.length (removeAll ?f ?r ?t) <= _)%nat =>
             apply (Nat.le_trans _ _ _ (removeAll_length f r t))
         end.
  apply Nat.le_refl.
Qed.

Lemma sanitizer_second_run_witness :
  sanitizeAnimationOverrides (sanitizeAnimationOverrides compactStyle)
  = sanitizeAnimationOverrides compactStyle.
Proof.
  apply (proj2 (proj2 (sanitizer_second_run compactStyle))). vm_compute. reflexivity.
Defined.

(** ** The close tag *)

(** C9: the inner markup should end where the final root close tag starts,
    but the close tag is looked for at the very end of the text only.  With a
    comment after it the tag is missed: the inner markup runs on to the end of
    the text, and the merged document holds the close tag of the fragment
    inside the nested sub-document. *)
Theorem inner_runs_past_close_tag (host : Host) :
  trailingText = js "<svg>" ++ js "a" ++ js "</svg>" ++ js "<!--x-->"
  /\ includes (js "</svg>") (js "<!--x-->") = false
  /\ (exists parts,
        extractSvgParts trailingText = Some parts
        /\ inner parts = js "a</svg><!--x-->"
        /\ inner parts <> js "a")
  /\ (exists g,
        processElement host (plainElement trailingText) = inr g
        /\ frag_inner g = js "a</svg><!--x-->")
  /\ fst (compose (processElement host) trailingLayout) =
       jsq "<?xml version=`1.0` encoding=`utf-8`?>" ++ nl
       ++ jsq "<svg xmlns=`http://www.w3.org/2000/svg` width=`800` height=`200` viewBox=`0 0 800 200`>"
       ++ nl
       ++ jsq "<rect width=`800` height=`200` fill=`#ffffff`/>" ++ nl
       ++ jsq "  <svg x=`0` y=`0` width=`100` height=`100` viewBox=`0 0 100 100`>" ++ nl
       ++ js "a</svg><!--x-->" ++ nl
       ++ js "  </svg>" ++ nl
       ++ js "</svg>" ++ nl.
Proof.
  split; [vm_compute; reflexivity|]. split; [vm_compute; reflexivity|].
  split.
  { eexists. split; [vm_compute; reflexivity|].
    split; [vm_compute; reflexivity | vm_compute; discriminate]. }
  split.
  { eexists. split; vm_compute; reflexivity. }
  vm_compute. reflexivity.
Qed.

(** ** The viewBox of a sub-document *)

(** C3, as the specification states it, fails: a declared viewBox is trimmed,
    not kept verbatim; with a width but no height (and no target dimensions)
    the viewBox is [0 0 50 100], not the absolute fallback; and a fragment with
    width 128 and height 32 need not be placed 128 by 32. *)
Lemma viewBox_chain_counterexample :
  (exists g parts,
     processElement (offlineHost sampleLayout) (plainElement paddedBoxText) = inr g
     /\ extractSvgParts paddedBoxText = Some parts
     /\ getProp (js "viewBox") (attrs parts) = Some (js " 0 0 24 24 ")
     /\ frag_viewBox g = js "0 0 24 24"
     /\ frag_viewBox g <> js " 0 0 24 24 ")
  /\ (exists g parts,
        processElement (offlineHost sampleLayout) (plainElement widthOnlyText) = inr g
        /\ extractSvgParts widthOnlyText = Some parts
        /\ getProp (js "viewBox") (attrs parts) = None
        /\ getProp (js "height") (attrs parts) = None
        /\ frag_viewBox g = js "0 0 50 100"
        /\ frag_viewBox g <> js "0 0 100 100")
  /\ (exists g parts,
        processElement (offlineHost sampleLayout) (plainElement strokeText) = inr g
        /\ extractSvgParts strokeText = Some parts
        /\ getProp (js "viewBox") (attrs parts) = None
        /\ getProp (js "width") (attrs parts) = Some (js "128")
        /\ getProp (js "height") (attrs parts) = Some (js "32")
        /\ frag_viewBox g = js "0 0 128 32"
        /\ frag_width g = ofZ 5 /\ frag_height g = ofZ 32
        /\ frag_width g <> ofZ 128).
Proof.
  split; [|split]; eexists; eexists;
    repeat (split; [vm_compute; reflexivity|]); vm_compute; discriminate.
Qed.

(** C3, amended: the viewBox of a sub-document is the declared viewBox with
    the blanks around it trimmed, when one is declared and not empty;
    otherwise [0 0 W H] from the fragment's own width and height attributes,
    when both read as non-zero numbers; otherwise [0 0 W H] from the effective
    width and height of the sub-document.  A fragment with no declared viewBox
    and with width 128 and height 32 gets [0 0 128 32]. *)
Theorem effective_viewBox (el : Element) (svgText : jsstring) (g : Fragment) :
  place el svgText = inr g ->
  exists parts,
    extractSvgParts svgText = Some parts
    /\ frag_viewBox g =
         viewBoxChain (declaredViewBox (attrs parts)) (ownSize (attrs parts))
                      (frag_width g, frag_height g)
    /\ (getProp (js "viewBox") (attrs parts) = None ->
         getProp (js "width") (attrs parts) = Some (js "128") ->
         getProp (js "height") (attrs parts) = Some (js "32") ->
         frag_viewBox g = js "0 0 128 32").
Proof.
  intros H. destruct (place_parts el svgText g H) as (parts & Hp & _ & Hv & Hw & Hh).
  exists parts. split; [exact Hp|]. rewrite Hv. split.
  - apply getViewBoxString_chain; assumption.
  - intros H0 H1 H2. unfold getViewBoxString. rewrite H0, H1, H2. reflexivity.
Qed.

Lemma effective_viewBox_witness :
  place badgeElement badgeText = inr badgeFragment
  /\ exists parts,
       extractSvgParts badgeText = Some parts
       /\ js "0 0 128 32" =
            viewBoxChain (declaredViewBox (attrs parts)) (ownSize (attrs parts))
                         (ofZ 128, ofZ 32)
       /\ (getProp (js "viewBox") (attrs parts) = None ->
            getProp (js "width") (attrs parts) = Some (js "128") ->
            getProp (js "height") (attrs parts) = Some (js "32") ->
            js "0 0 128 32" = js "0 0 128 32").
Proof.
  split; [vm_compute; reflexivity|].
  apply (effective_viewBox badgeElement badgeText badgeFragment).
  vm_compute. reflexivity.
Defined.

(** ** The canvas *)

(** C5, as the specification states it, fails on its own example: the fill
    is written with a blank after each comma. *)
Lemma background_counterexample :
  bgFill {| canvas := Some specCanvas; elements := None |} = js "rgba(255, 255, 255, 0.5)"
  /\ bgFill {| canvas := Some specCanvas; elements := None |} <> js "rgba(255,255,255,0.5)".
Proof. split; [vm_compute; reflexivity | vm_compute; discriminate]. Qed.

(** C5, amended: the canvas is 800 wide and 200 high when the size is not
    given, and also when it is given as zero or as not-a-number; any other
    finite size is rounded to the nearest integer, halves going up, and an
    infinite one is kept.  The fill is the configured color, [#ffffff] without
    one; with a transparency [A] and a color of [#] and six (or three)
    hexadecimal digits it is [rgba(R, G, B, A)], a comma and a blank between
    the numbers, [R], [G], [B] the values of the digit pairs (of the doubled
    digits); with a transparency and a color that, without its first [#] and
    the blanks around it, has neither three nor six characters it is
    [rgba(255,255,255,A)].  The canvas of the example gets
    [rgba(255, 255, 255, 0.5)]. *)
Theorem canvas_and_background (layout : Layout) :
  let c := canvasOf layout in
  (canvas_width c = None -> canvasW layout = ofZ 800)
  /\ (canvas_height c = None -> canvasH layout = ofZ 200)
  /\ (forall e, canvas_width c = Some (Dec 0 e) -> canvasW layout = ofZ 800)
  /\ (forall e, canvas_height c = Some (Dec 0 e) -> canvasH layout = ofZ 200)
  /\ (canvas_width c = Some NaN -> canvasW layout = ofZ 800)
  /\ (canvas_height c = Some NaN -> canvasH layout = ofZ 200)
  /\ (forall s, canvas_width c = Some (Inf s) -> canvasW layout = Inf s)
  /\ (forall s, canvas_height c = Some (Inf s) -> canvasH layout = Inf s)
  /\ (forall m e, canvas_width c = Some (Dec m e) -> m <> 0 ->
        exists k, canvasW layout = ofZ k /\ nearest m e k)
  /\ (forall m e, canvas_height c = Some (Dec m e) -> m <> 0 ->
        exists k, canvasH layout = ofZ k /\ nearest m e k)
  /\ (transparency c = None -> bgFill layout = colorOf c)
  /\ (forall alpha c1 c2 c3 c4 c5 c6 v1 v2 v3 v4 v5 v6,
        transparency c = Some alpha ->
        colorOf c = 35 :: [c1; c2; c3; c4; c5; c6] ->
        digitValue 16 c1 = Some v1 -> digitValue 16 c2 = Some v2 ->
        digitValue 16 c3 = Some v3 -> digitValue 16 c4 = Some v4 ->
        digitValue 16 c5 = Some v5 -> digitValue 16 c6 = Some v6 ->
        bgFill layout =
          rgba (ofZ (16 * v1 + v2)) (ofZ (16 * v3 + v4)) (ofZ (16 * v5 + v6)) alpha)
  /\ (forall alpha c1 c2 c3 v1 v2 v3,
        transparency c = Some alpha ->
        colorOf c = 35 :: [c1; c2; c3] ->
        digitValue 16 c1 = Some v1 -> digitValue 16 c2 = Some v2 ->
        digitValue 16 c3 = Some v3 ->
        bgFill layout =
          rgba (ofZ (16 * v1 + v1)) (ofZ (16 * v2 + v2)) (ofZ (16 * v3 + v3)) alpha)
  /\ (forall alpha,
        transparency c = Some alpha ->
        List.length (trim (removeFirst (js "#") (colorOf c))) <> 3%nat ->
        List.length (trim (removeFirst (js "#") (colorOf c))) <> 6%nat ->
        bgFill layout = js "rgba(255,255,255," ++ toString alpha ++ js ")")
  /\ (canvas layout = Some specCanvas ->
        canvasW layout = ofZ 800 /\ canvasH layout = ofZ 400
        /\ bgFill layout = js "rgba(255, 255, 255, 0.5)").
Proof.
  intros c. rewrite bgFill_spec. fold c. unfold canvasW, canvasH. fold c.
  split; [intros ->; reflexivity|]. split; [intros ->; reflexivity|].
  split; [intros e ->; reflexivity|]. split; [intros e ->; reflexivity|].
  split; [intros ->; reflexivity|]. split; [intros ->; reflexivity|].
  split; [intros s ->; reflexivity|]. split; [intros s ->; reflexivity|].
  split.
  { intros m e -> Hm. unfold orN, truthy. apply Z.eqb_neq in Hm. rewrite Hm.
    apply round_nearest. }
  split.
  { intros m e -> Hm. unfold orN, truthy. apply Z.eqb_neq in Hm. rewrite Hm.
    apply round_nearest. }
  split; [intros ->; reflexivity|].
  split.
  { intros alpha c1 c2 c3 c4 c5 c6 v1 v2 v3 v4 v5 v6 -> -> H1 H2 H3 H4 H5 H6.
    rewrite (hexToRgb_six _ _ _ _ _ _ _ _ _ _ _ _ H1 H2 H3 H4 H5 H6). reflexivity. }
  split.
  { intros alpha c1 c2 c3 v1 v2 v3 -> -> H1 H2 H3.
    rewrite (hexToRgb_three _ _ _ _ _ _ H1 H2 H3). reflexivity. }
  split.
  { intros alpha -> H3 H6. rewrite (hexToRgb_other _ H3 H6). reflexivity. }
  intros Hc. unfold c, canvasOf. rewrite Hc. repeat split; vm_compute; reflexivity.
Qed.

Lemma canvas_and_background_witness :
  canvasW sampleLayout = ofZ 800 /\ canvasH sampleLayout = ofZ 400
  /\ bgFill sampleLayout = js "rgba(255, 255, 255, 0.5)".
Proof.
  apply (canvas_and_background sampleLayout). reflexivity.
Defined.

(** ** The size and the position of a sub-document *)



